(** * Freelaince: the connection and synchronisation layer

    A shallow embedding of the browser-side JavaScript of the repository:

    - [WebSocketManager], the background service worker, in its two
      versions: [src/front/background.js] (chat overlay injected in pages)
      and [src/unnamed/part_001] (chat in the extension popup);
    - [CalendarManager] ([src/unnamed/part_000]);
    - [OffersManager] ([src/unnamed/part_005]);
    - the script of the settings popup ([src/front/popup.js] and
      [src/unnamed/part_007]) and the chat overlay [FreelainceOverlay]
      injected in pages ([src/front/background.js]).

    The browser is the environment: it owns the sockets' [readyState], fires
    the socket events and the timers, and supplies [JSON.parse], the
    [WebSocket] and [Date] constructors and [Math.random].  Each handler of
    the source is a function on an explicit state that also returns the list
    of calls it makes to the outside (console, socket, chrome API). *)

From Stdlib Require Import ZArith Lia Bool.
From stdpp Require Import base tactics option list strings.

Local Open Scope string_scope.
Local Open Scope list_scope.
Set Warnings "-register-all".

(** ** JavaScript values *)

Module JS.

(** What [JSON.parse] can return, and [undefined] for a missing property.
    Numbers are the integers: the code reads numbers only as timestamps,
    priorities and truth values. *)
Inductive value : Type :=
| VUndefined
| VNull
| VBool (b : bool)
| VNum (n : Z)
| VStr (s : string)
| VArr (items : list value)
| VObj (fields : list (string * value)).

(** ToBoolean. *)
Definition truthy (v : value) : bool :=
  match v with
  | VUndefined | VNull => false
  | VBool b => b
  | VNum n => negb (n =? 0)%Z
  | VStr s => negb (String.eqb s "")
  | VArr _ | VObj _ => true
  end.

(** [a || b] *)
Definition or (a b : value) : value := if truthy a then a else b.

Fixpoint assoc (k : string) (fields : list (string * value)) : value :=
  match fields with
  | [] => VUndefined
  | (k', v) :: rest => if String.eqb k k' then v else assoc k rest
  end.

(** [v.k] for the property names the code reads ([type], [message], [id],
    ...): [None] is the TypeError of a read on [null] or [undefined];
    primitives and arrays have none of these names. *)
Definition get (k : string) (v : value) : option value :=
  match v with
  | VUndefined | VNull => None
  | VObj fields => Some (assoc k fields)
  | _ => Some VUndefined
  end.

(** [v.k = x] on an object: overwrite in place, or add at the end. *)
Fixpoint set_field (k : string) (x : value) (fields : list (string * value))
  : list (string * value) :=
  match fields with
  | [] => [(k, x)]
  | (k', v) :: rest =>
      if String.eqb k k' then (k, x) :: rest else (k', v) :: set_field k x rest
  end.

(** [v === "s"] *)
Definition is_str (s : string) (v : value) : bool :=
  match v with
  | VStr s' => String.eqb s' s
  | _ => false
  end.

(** Equality of values, that is of their contents, is decidable. *)
Definition value_eq_dec : forall a b : value, {a = b} + {a <> b}.
Proof.
  fix IH 1.
  intros a b; destruct a, b; try (right; discriminate); try (left; reflexivity).
  - destruct (bool_dec b0 b) as [->|N]; [left; reflexivity | right; congruence].
  - destruct (Z.eq_dec n n0) as [->|N]; [left; reflexivity | right; congruence].
  - destruct (String.string_dec s s0) as [->|N]; [left; reflexivity | right; congruence].
  - assert (D : {items = items0} + {items <> items0}).
    { clear -IH. revert items0.
      induction items as [|x xs IHxs]; intros [|y ys];
        try (right; discriminate); try (left; reflexivity).
      destruct (IH x y) as [->|N]; [|right; congruence].
      destruct (IHxs ys) as [->|N]; [left; reflexivity | right; congruence]. }
    destruct D as [->|N]; [left; reflexivity | right; congruence].
  - assert (D : {fields = fields0} + {fields <> fields0}).
    { clear -IH. revert fields0.
      induction fields as [|[k x] xs IHxs]; intros [|[k' y] ys];
        try (right; discriminate); try (left; reflexivity).
      destruct (String.string_dec k k') as [->|N]; [|right; congruence].
      destruct (IH x y) as [->|N]; [|right; congruence].
      destruct (IHxs ys) as [->|N]; [left; reflexivity | right; congruence]. }
    destruct D as [->|N]; [left; reflexivity | right; congruence].
Defined.

#[export] Instance value_eq_decision : EqDecision value := value_eq_dec.

(** A string, a number, a boolean, [null] or [undefined]. *)
Definition primitive (v : value) : bool :=
  match v with
  | VArr _ | VObj _ => false
  | _ => true
  end.

(** [a === b] and [a !== b].  Two primitive values are equal when they are
    the same value.  An array or an object is equal to itself only, whatever
    its contents, and which object a value is is not part of [value]: the
    caller says, with [same_object], whether the two operands are one and
    the same object; this is read only when both are arrays or objects. *)
Definition strict_eq (same_object : bool) (a b : value) : bool :=
  if primitive a || primitive b then bool_decide (a = b) else same_object.
Definition strict_ne (same_object : bool) (a b : value) : bool :=
  negb (strict_eq same_object a b).

End JS.

(** ** The background service worker: [WebSocketManager] *)

Module WebSocketManager.
Import JS.

(** The two versions of the class in the repository. *)
Inductive version : Type :=
| Overlay  (* src/front/background.js: notifies the content script *)
| Popup.   (* src/unnamed/part_001: notifies the popup, syncs the history *)

(** [WebSocket.readyState] *)
Inductive readyState : Type := CONNECTING | OPEN | CLOSING | CLOSED.

#[export] Instance readyState_eq_dec : EqDecision readyState.
Proof. solve_decision. Defined.

(** The fields of the class; a socket is named by its rank of creation. *)
Record manager : Type := Manager {
  ws : option nat;
  isConnected : bool;
  reconnectAttempts : Z;
  apiUrl : string
}.

Definition maxReconnectAttempts : Z := 5.
Definition reconnectDelay : Z := 1000.

(** The two functions the class hands to [setTimeout]. *)
Inductive callback : Type :=
| RetryConnect     (* () => { if (!this.isConnected) this.connect(); } *)
| DelayedConnect.  (* () => this.connect() *)

Inductive level : Type := log | error.

(** The calls a handler makes to the outside, in order; of a console line
    its fixed text is kept. *)
Inductive effect : Type :=
| Console (l : level) (text : string)
| NewWebSocket (url : string) (id : nat)
| WsClose (id : nat)
| WsSend (id : nat) (payload : value)
| Notify (type : string) (data : value)  (* notifyContentScript / notifyPopup *)
| SetTimeout (cb : callback) (delay : Z)
| TabsCreate (url : value) (message : value)
| SendResponse (response : value)
| Uncaught (err : string).

(** The manager together with what the browser holds for it: the state of
    every socket created so far, the pending timers and the clock. *)
Record world : Type := World {
  mgr : manager;
  sockets : list readyState;
  timers : list (callback * Z);
  now : Z
}.

(** *** Handlers: state, calls made, and exceptions *)

Inductive completion (A : Type) : Type :=
| Return (a : A)
| Throw (err : string).
Arguments Return {A} a.
Arguments Throw {A} err.

Definition M (A : Type) : Type := world -> completion A * world * list effect.

Definition ret {A} (a : A) : M A := fun w => (Return a, w, []).

Definition bind {A B} (m : M A) (k : A -> M B) : M B := fun w =>
  match m w with
  | (Return a, w1, out1) =>
      match k a w1 with
      | (r, w2, out2) => (r, w2, out1 ++ out2)
      end
  | (Throw e, w1, out1) => (Throw e, w1, out1)
  end.

Definition throw {A} (err : string) : M A := fun w => (Throw err, w, []).

(** [try { m } catch (error) { handler }] *)
Definition try_catch (m : M unit) (handler : M unit) : M unit := fun w =>
  match m w with
  | (Return a, w1, out1) => (Return a, w1, out1)
  | (Throw _, w1, out1) =>
      match handler w1 with
      | (r, w2, out2) => (r, w2, out1 ++ out2)
      end
  end.

Definition emit (e : effect) : M unit := fun w => (Return tt, w, [e]).
Definition read {A} (f : world -> A) : M A := fun w => (Return (f w), w, []).
Definition update (f : world -> world) : M unit := fun w => (Return tt, f w, []).

Declare Scope js_scope.
Delimit Scope js_scope with js.
Notation "x ← m ; k" := (bind m (fun x => k))
  (at level 20, m at level 100, k at level 200, only parsing) : js_scope.
Notation "m ;; k" := (bind m (fun _ => k))
  (at level 100, k at level 200, only parsing, right associativity) : js_scope.
Local Open Scope js_scope.

Definition when (b : bool) (m : M unit) : M unit := if b then m else ret tt.

Definition with_mgr (f : manager -> manager) (w : world) : world :=
  World (f (mgr w)) (sockets w) (timers w) (now w).

Definition set_ws (i : option nat) : M unit :=
  update (with_mgr (fun m => Manager i (isConnected m) (reconnectAttempts m) (apiUrl m))).
Definition set_isConnected (b : bool) : M unit :=
  update (with_mgr (fun m => Manager (ws m) b (reconnectAttempts m) (apiUrl m))).
Definition set_reconnectAttempts (n : Z) : M unit :=
  update (with_mgr (fun m => Manager (ws m) (isConnected m) n (apiUrl m))).
Definition set_apiUrl (u : string) : M unit :=
  update (with_mgr (fun m => Manager (ws m) (isConnected m) (reconnectAttempts m) u)).

(** *** The browser's side of a socket and of a timer *)

Definition state_of (w : world) (i : nat) : readyState :=
  default CLOSED (sockets w !! i).

(** [this.ws?.readyState] *)
Definition ws_readyState (w : world) : option readyState :=
  match ws (mgr w) with
  | Some i => Some (state_of w i)
  | None => None
  end.

Definition set_state (i : nat) (s : readyState) (w : world) : world :=
  World (mgr w) (<[i := s]> (sockets w)) (timers w) (now w).

(** [socket.close()]: a socket that is connecting or open starts closing;
    its close event comes later. *)
Definition ws_close (i : nat) : M unit :=
  emit (WsClose i) ;;
  s ← read (fun w => state_of w i) ;
  when (bool_decide (s = CONNECTING) || bool_decide (s = OPEN))
       (update (set_state i CLOSING)).

(** [setTimeout(cb, delay)] *)
Definition setTimeout (cb : callback) (delay : Z) : M unit :=
  emit (SetTimeout cb delay) ;;
  update (fun w => World (mgr w) (sockets w) (timers w ++ [(cb, delay)]) (now w)).

Definition console (l : level) (text : string) : M unit := emit (Console l text).

(** [notifyContentScript(type, data)] in the overlay version (a message to
    the active tab of the current window, when there is one) and
    [notifyPopup(type, data)] in the popup version (a message on
    [chrome.runtime]). *)
Definition notify (type : string) (data : value) : M unit := emit (Notify type data).

(** *** The methods of the class *)

(** The envelope of [sendMessage]:
    [{ type: type, message: message, timestamp: Date.now() }] *)
Definition envelope (type : string) (message : value) (t : Z) : value :=
  VObj [("type", VStr type); ("message", message); ("timestamp", VNum t)].

Section Methods.

(** Which of the two versions runs. *)
Variable v : version.
(** [JSON.parse]; [None] when it throws. *)
Variable JSON_parse : string -> option value.
(** Whether [new WebSocket(url)] returns a socket ([false]: it throws). *)
Variable WebSocket_accepts : string -> bool.

(** [this.isConnected || (this.ws && this.ws.readyState === WebSocket.CONNECTING)] *)
Definition connected_or_connecting (w : world) : bool :=
  isConnected (mgr w) || bool_decide (ws_readyState w = Some CONNECTING).

Definition attemptReconnect : M unit :=
  busy ← read connected_or_connecting ;
  if busy then console log "Skipping reconnect - already connected or connecting"
  else
    n ← read (fun w => reconnectAttempts (mgr w)) ;
    if (n <? maxReconnectAttempts)%Z then
      set_reconnectAttempts (n + 1) ;;
      console log "Attempting to reconnect..." ;;
      k ← read (fun w => reconnectAttempts (mgr w)) ;
      setTimeout RetryConnect (reconnectDelay * k)
    else console log "Max reconnection attempts reached".

(** [this.ws = new WebSocket(this.apiUrl)], with its four handlers. *)
Definition new_WebSocket : M unit :=
  url ← read (fun w => apiUrl (mgr w)) ;
  if WebSocket_accepts url then
    i ← read (fun w => length (sockets w)) ;
    update (fun w => World (mgr w) (sockets w ++ [CONNECTING]) (timers w) (now w)) ;;
    emit (NewWebSocket url i) ;;
    set_ws (Some i)
  else throw "SyntaxError".

(** "Close existing connection if any":
    [if (this.ws && this.ws.readyState !== WebSocket.CLOSED) this.ws.close()] *)
Definition close_existing : M unit :=
  cur ← read (fun w => ws (mgr w)) ;
  match cur with
  | Some i =>
      s ← read (fun w => state_of w i) ;
      when (negb (bool_decide (s = CLOSED)))
           (console log "Closing existing connection before creating new one" ;;
            ws_close i)
  | None => ret tt
  end.

Definition connect : M unit :=
  busy ← read connected_or_connecting ;
  if busy then console log "Already connected or connecting, skipping new connection"
  else
    close_existing ;;
    try_catch
      (console log "Creating new WebSocket connection" ;;
       new_WebSocket)
      (console error "Failed to create WebSocket connection" ;;
       attemptReconnect).

(** The branch of [sendMessage] taken when the guard fails. *)
Definition reject_send : M unit :=
  console error "WebSocket is not connected" ;;
  notify "ERROR" (VObj [("message", VStr "Connection lost. Trying to reconnect...")]).

(** [sendMessage(message, type = 'user_message')]; the overlay version has
    no [type] argument and always sends a [user_message]. *)
Definition sendMessage (message : value) (type : string) : M unit :=
  connected ← read (fun w => isConnected (mgr w)) ;
  cur ← read (fun w => ws (mgr w)) ;
  match connected, cur with
  | true, None => @throw unit "TypeError"
  | true, Some i =>
      s ← read (fun w => state_of w i) ;
      if bool_decide (s = OPEN) then
        t ← read now ;
        emit (WsSend i (envelope (match v with Overlay => "user_message" | Popup => type end)
                                 message t)) ;;
        match v with
        | Overlay => ret tt
        | Popup => console log "Sent message"
        end
      else reject_send
  | false, _ => reject_send
  end.

(** [data.k], a TypeError on [null]. *)
Definition prop (k : string) (data : value) : M value :=
  match get k data with
  | Some x => ret x
  | None => throw "TypeError"
  end.

(** [handleTabOpen(data)]: the tab is created with [data.url]; from the
    callback of [chrome.tabs.create], [data.message], when truthy, is shown
    as a NEW_MESSAGE (to the tab that was active, or to the popup). *)
Definition handleTabOpen (data : value) : M unit :=
  url ← prop "url" data ;
  message ← prop "message" data ;
  emit (TabsCreate url message).

Definition handleServerMessage (data : value) : M unit :=
  type ← prop "type" data ;
  console log "Processing message type" ;;
  if is_str "bot_response" type || is_str "chat_answer" type then
    console log "Sending bot response" ;;
    message ← prop "message" data ;
    notify "NEW_MESSAGE" message
  else if is_str "open_tab" type then
    console log "Opening tab" ;;
    handleTabOpen data
  else if is_str "conversation_history" type then
    history ← prop "history" data ;
    match v with
    | Overlay => _ ← prop "length" history ; ret tt  (* data.history.length *)
    | Popup => ret tt                             (* data.history?.length || 0 *)
    end ;;
    console log "Received conversation history" ;;
    notify "CONVERSATION_HISTORY" history
  else if is_str "system_message" type then
    console log "Sending system message" ;;
    message ← prop "message" data ;
    notify "SYSTEM_MESSAGE" message
  else console error "Unknown message type".

(** [this.ws.onopen] *)
Definition onopen : M unit :=
  console log "WebSocket connected" ;;
  set_isConnected true ;;
  set_reconnectAttempts 0 ;;
  notify "CONNECTION_STATUS" (VObj [("connected", VBool true)]) ;;
  match v with
  | Overlay => ret tt
  | Popup => sendMessage (VStr "sync_history") "sync_history"
  end.

(** [this.ws.onmessage], on [event.data] *)
Definition onmessage (raw : string) : M unit :=
  try_catch
    (match JSON_parse raw with
     | Some data =>
         console log "Received message from server" ;;
         handleServerMessage data
     | None => throw "SyntaxError"
     end)
    (console error "Error parsing WebSocket message").

(** [this.ws.onclose] *)
Definition onclose : M unit :=
  console log "WebSocket disconnected" ;;
  set_isConnected false ;;
  notify "CONNECTION_STATUS" (VObj [("connected", VBool false)]) ;;
  attemptReconnect.

(** [this.ws.onerror] *)
Definition onerror : M unit :=
  console error "WebSocket error" ;;
  set_isConnected false.

(** [disconnect()] *)
Definition disconnect : M unit :=
  cur ← read (fun w => ws (mgr w)) ;
  match cur with
  | Some i => ws_close i ;; set_ws None ;; set_isConnected false
  | None => ret tt
  end.

(** The messages of [chrome.runtime.onMessage], by their [type]. *)
Inductive request : Type :=
| SEND_MESSAGE (data : value)
| GET_CONNECTION_STATUS
| RECONNECT
| UPDATE_API_URL (data : string)
| REQUEST_HISTORY
| OtherRequest.

Definition success : value := VObj [("success", VBool true)].

(** Force the disconnection, then [setTimeout(() => this.connect(), 100)]. *)
Definition teardown_and_reconnect : M unit :=
  set_isConnected false ;;
  cur ← read (fun w => ws (mgr w)) ;
  match cur with
  | Some i => ws_close i
  | None => ret tt
  end ;;
  setTimeout DelayedConnect 100.

(** The listener installed by [setupMessageListener()]. *)
Definition onRuntimeMessage (req : request) : M unit :=
  match v with
  | Overlay =>
      match req with
      | SEND_MESSAGE data => sendMessage data "user_message"
      | GET_CONNECTION_STATUS =>
          c ← read (fun w => isConnected (mgr w)) ;
          emit (SendResponse (VObj [("connected", VBool c)]))
      | RECONNECT =>
          console log "Manual reconnect requested" ;;
          teardown_and_reconnect
      | UPDATE_API_URL _ | REQUEST_HISTORY | OtherRequest => ret tt
      end
  | Popup =>
      console log "Background received message" ;;
      match req with
      | SEND_MESSAGE data =>
          sendMessage data "user_message" ;;
          emit (SendResponse success)
      | GET_CONNECTION_STATUS =>
          c ← read (fun w => isConnected (mgr w)) ;
          emit (SendResponse (VObj [("connected", VBool c)]))
      | RECONNECT =>
          console log "Manual reconnect requested" ;;
          teardown_and_reconnect ;;
          emit (SendResponse success)
      | UPDATE_API_URL data =>
          console log "Updating API URL" ;;
          set_apiUrl data ;;
          teardown_and_reconnect ;;
          emit (SendResponse success)
      | REQUEST_HISTORY =>
          console log "History requested, sending sync_history" ;;
          sendMessage (VStr "sync_history") "sync_history" ;;
          emit (SendResponse success)
      | OtherRequest => ret tt
      end
  end.

Definition run_callback (cb : callback) : M unit :=
  match cb with
  | RetryConnect =>
      c ← read (fun w => isConnected (mgr w)) ;
      when (negb c) connect
  | DelayedConnect => connect
  end.

(** *** The event loop *)

(** What the browser delivers to the manager. *)
Inductive event : Type :=
| SocketOpen (i : nat)
| SocketMessage (i : nat) (raw : string)
| SocketClose (i : nat) (failed : bool)  (* failed: an error event comes first *)
| TimerFires (n : nat)                   (* the n-th pending timer *)
| RuntimeMessage (req : request)
| ClockTick (dt : Z)
| SocketClosing (i : nat).               (* the closing handshake starts *)

(** One handler run to completion; an exception that leaves it is reported
    by the browser and the loop goes on. *)
Definition handle (m : M unit) (w : world) : world * list effect :=
  match m w with
  | (Return _, w', out) => (w', out)
  | (Throw err, w', out) => (w', out ++ [Uncaught err])
  end.

(** [None]: the browser cannot deliver this event in this state.  A socket
    that is open starts closing either when the code calls [close()] or
    when the server starts the closing handshake; in the second case the
    browser sets [readyState] to CLOSING in a task of its own, which runs
    no handler, and the close event comes later. *)
Definition step (w : world) (e : event) : option (world * list effect) :=
  match e with
  | SocketOpen i =>
      if bool_decide (sockets w !! i = Some CONNECTING)
      then Some (handle onopen (set_state i OPEN w))
      else None
  | SocketMessage i raw =>
      if bool_decide (sockets w !! i = Some OPEN) || bool_decide (sockets w !! i = Some CLOSING)
      then Some (handle (onmessage raw) w)
      else None
  | SocketClose i failed =>
      match sockets w !! i with
      | Some s =>
          if bool_decide (s = CLOSED) then None
          else Some (handle (when failed onerror ;; onclose) (set_state i CLOSED w))
      | None => None
      end
  | TimerFires n =>
      match timers w !! n with
      | Some (cb, _) =>
          Some (handle (run_callback cb)
                  (World (mgr w) (sockets w) (delete n (timers w)) (now w)))
      | None => None
      end
  | RuntimeMessage req => Some (handle (onRuntimeMessage req) w)
  | ClockTick dt =>
      if (0 <=? dt)%Z
      then Some (World (mgr w) (sockets w) (timers w) (now w + dt), [])
      else None
  | SocketClosing i =>
      if bool_decide (sockets w !! i = Some OPEN)
      then Some (set_state i CLOSING w, [])
      else None
  end.

Fixpoint run (w : world) (es : list event) : option (world * list effect) :=
  match es with
  | [] => Some (w, [])
  | e :: es' =>
      match step w e with
      | Some (w1, out1) =>
          match run w1 es' with
          | Some (w2, out2) => Some (w2, out1 ++ out2)
          | None => None
          end
      | None => None
      end
  end.

(** [new WebSocketManager()] at time [t0]: the overlay version connects at
    once, the popup version once [loadSettings()] has read the stored
    address ([None]: none stored, or the read failed). *)
Definition fresh (t0 : Z) : world :=
  World (Manager None false 0 "ws://localhost:8080") [] [] t0.

Definition constructor (stored : option string) (t0 : Z) : world * list effect :=
  handle
    (match v, stored with
     | Popup, Some url => when (negb (String.eqb url "")) (set_apiUrl url)
     | _, _ => ret tt
     end ;;
     connect)
    (fresh t0).

End Methods.

(** *** Vocabulary of the properties, and managers for the examples *)

Definition attempts (w : world) : Z := reconnectAttempts (mgr w).

(** The delays of the retries scheduled by a run of calls, in order. *)
Definition retry_delays (out : list effect) : list Z :=
  omap (fun e => match e with SetTimeout RetryConnect d => Some d | _ => None end) out.

Definition is_SocketOpen (e : event) : bool :=
  match e with SocketOpen _ => true | _ => false end.

(** From [w] to [w'] the calls [out] schedule the next [n] retries of the
    linear schedule, and count them; they schedule one only below the
    ceiling. *)
Definition backoff (w w' : world) (out : list effect) : Prop :=
  exists n : nat,
    retry_delays out
      = (fun k => reconnectDelay * (attempts w + Z.of_nat k))%Z <$> seq 1 n /\
    attempts w' = (attempts w + Z.of_nat n)%Z /\
    (n = 0%nat \/ (attempts w' <= maxReconnectAttempts)%Z).

Definition respects {A} (m : M A) : Prop :=
  forall w r w' out, m w = (r, w', out) -> backoff w w' out.

(** A manager of the popup version whose server never answers: every
    socket fails, every retry timer fires. *)
Definition no_parse : string -> option value := fun _ => None.
Definition any_url : string -> bool := fun _ => true.
Definition started : world := fst (constructor Popup any_url None 0).
Definition five_failures : list event :=
  [SocketClose 0 true; TimerFires 0; SocketClose 1 true; TimerFires 0;
   SocketClose 2 true; TimerFires 0; SocketClose 3 true; TimerFires 0;
   SocketClose 4 true; TimerFires 0].

(** The connection state of the specification, read off the manager the way
    its own guards read it ("already connected or connecting"). *)
Inductive ConnectionState : Type := Disconnected | Connecting | Connected.

Definition connectionState (w : world) : ConnectionState :=
  if isConnected (mgr w) then Connected
  else if bool_decide (ws_readyState w = Some CONNECTING) then Connecting
  else Disconnected.

(** The envelopes handed to sockets, the sockets created, the notifications
    of a given type. *)
Definition ws_sends (out : list effect) : list (nat * value) :=
  omap (fun e => match e with WsSend i p => Some (i, p) | _ => None end) out.

Definition sockets_created (out : list effect) : list nat :=
  omap (fun e => match e with NewWebSocket _ i => Some i | _ => None end) out.

Definition notifications (type : string) (out : list effect) : list value :=
  omap (fun e => match e with
                 | Notify t d => if String.eqb t type then Some d else None
                 | _ => None
                 end) out.

Definition is_console (e : effect) : bool :=
  match e with Console _ _ => true | _ => false end.

(** What a run of calls shows outside the console. *)
Definition visible (out : list effect) : list effect :=
  filter (fun e => is_console e = false) out.

(** A manager of each version, connected: its first socket has opened. *)
Definition chatting (v : version) : world :=
  match run v no_parse any_url (fst (constructor v any_url None 0)) [SocketOpen 0] with
  | Some (w, _) => w
  | None => fresh 0
  end.

(** The [case] labels of [handleServerMessage]. *)
Definition registered_types : list string :=
  ["bot_response"; "chat_answer"; "open_tab"; "conversation_history"; "system_message"].

(** A message that does not parse, or whose [type] is none of the labels
    (a parsed [null] has no [type] to read at all). *)
Definition unroutable (JSON_parse : string -> option value) (raw : string) : bool :=
  match JSON_parse raw with
  | None => true
  | Some data =>
      match get "type" data with
      | None => true
      | Some type => forallb (fun label => negb (is_str label type)) registered_types
      end
  end.

(** A parser for the examples: it knows three texts, which stand for a
    chat answer, a snapshot of offers, and [null]. *)
Definition sample_parse (raw : string) : option value :=
  if String.eqb raw "bot_response hi"
  then Some (VObj [("type", VStr "bot_response"); ("message", VStr "hi")])
  else if String.eqb raw "offers_data"
  then Some (VObj [("type", VStr "offers_data"); ("offers", VArr [])])
  else if String.eqb raw "null" then Some VNull
  else None.

(** Two requests to send the same message, handled one after the other in
    state [w], give one envelope. *)
Definition deduplicated (v : version) (w : world) (message : value) : Prop :=
  exists w' out,
    run v no_parse any_url w
      [RuntimeMessage (SEND_MESSAGE message); RuntimeMessage (SEND_MESSAGE message)]
      = Some (w', out) /\
    length (ws_sends out) = 1%nat.

(** At most one socket is connecting, and it is the manager's. *)
Definition one_connecting (w : world) : Prop :=
  forall j, sockets w !! j = Some CONNECTING -> ws (mgr w) = Some j.

Definition none_connecting (w : world) : Prop :=
  forall j, sockets w !! j <> Some CONNECTING.

(** From [w] to [w'] the manager keeps its socket, and no socket is created
    or starts connecting. *)
Definition settles (w w' : world) : Prop :=
  ws (mgr w') = ws (mgr w) /\
  forall j, sockets w' !! j = Some CONNECTING -> sockets w !! j = Some CONNECTING.

Definition calm {A} (m : M A) : Prop :=
  forall w r w' out, m w = (r, w', out) -> settles w w'.

(** The worlds a manager can be in: built by the constructor, then driven
    by the events of the browser. *)
Definition reachable (v : version) (P : string -> option value) (A : string -> bool)
    (w : world) : Prop :=
  exists stored t0 es out, run v P A (fst (constructor v A stored t0)) es = Some (w, out).

(** An opening socket makes the manager reset its counter, announce the
    connection and ask for the history. *)
Definition syncs_on_open (v : version) (w : world) (i : nat) : Prop :=
  exists w' out,
    step v no_parse any_url w (SocketOpen i) = Some (w', out) /\
    attempts w' = 0%Z /\
    notifications "CONNECTION_STATUS" out = [VObj [("connected", VBool true)]] /\
    ws_sends out <> [].

(** The request to change the address, the close of the old socket and the
    delayed [connect()] leave the manager with a retry counter at 0. *)
Definition update_resets_counter (w : world) (url : string) (es : list event) : Prop :=
  exists w' out,
    run Popup no_parse any_url w (RuntimeMessage (UPDATE_API_URL url) :: es)
      = Some (w', out) /\
    attempts w' = 0%Z.

(** The popup version after five failed sockets and a sixth: the ceiling
    is reached. *)
Definition exhausted : world :=
  match run Popup no_parse any_url started (five_failures ++ [SocketClose 5 true]) with
  | Some (w, _) => w
  | None => fresh 0
  end.

(** *** What holds in every reachable world *)

(** A socket that is connecting or open. *)
Definition live (s : readyState) : bool :=
  bool_decide (s = CONNECTING) || bool_decide (s = OPEN).

(** The only socket that can be connecting or open is the manager's. *)
Definition single_live_socket (w : world) : Prop :=
  forall j s, sockets w !! j = Some s -> live s = true -> ws (mgr w) = Some j.

Definition none_live (w : world) : Prop :=
  forall j s, sockets w !! j = Some s -> live s = false.

(** A manager that says it is connected has a socket, and it has opened:
    it is open, or closing with its close event still to come. *)
Definition connected_socket_opened (w : world) : Prop :=
  isConnected (mgr w) = true ->
  exists i, ws (mgr w) = Some i /\
    (sockets w !! i = Some OPEN \/ sockets w !! i = Some CLOSING).

(** The timers the class sets: the delayed [connect()] of a reconnection
    request, and the retries of the linear schedule. *)
Definition timer_in_schedule (t : callback * Z) : Prop :=
  match t with
  | (DelayedConnect, d) => d = 100%Z
  | (RetryConnect, d) =>
      exists k, (1 <= k <= maxReconnectAttempts)%Z /\ d = (reconnectDelay * k)%Z
  end.

Definition within_schedule (w : world) : Prop :=
  (0 <= attempts w <= maxReconnectAttempts)%Z /\ Forall timer_in_schedule (timers w).

(** A handler relates the world it starts in to the world it ends in and
    to the calls it makes. *)
Definition tracks (R : world -> world -> list effect -> Prop) {A} (m : M A) : Prop :=
  forall w r w' out, m w = (r, w', out) -> R w w' out.

Definition keeps (R : world -> world -> Prop) {A} (m : M A) : Prop :=
  tracks (fun w w' _ => R w w') m.

(** The manager's socket and the sockets of the browser are as before, and
    the manager has not become connected. *)
Definition link_untouched (w w' : world) : Prop :=
  ws (mgr w') = ws (mgr w) /\ sockets w' = sockets w /\
  (isConnected (mgr w') = true -> isConnected (mgr w) = true).

Definition stays_offline (w w' : world) : Prop :=
  isConnected (mgr w) = false -> isConnected (mgr w') = false.

(** The manager keeps its socket and no socket comes to life. *)
Definition no_new_life (w w' : world) : Prop :=
  ws (mgr w') = ws (mgr w) /\
  forall j s, sockets w' !! j = Some s -> live s = true -> sockets w !! j = Some s.

(** Either the link is untouched, or the manager ends disconnected. *)
Definition link_or_offline (w w' : world) : Prop :=
  link_untouched w w' \/ isConnected (mgr w') = false.

(** No exception is reported among the calls. *)
Definition nothing_uncaught (w w' : world) (out : list effect) : Prop :=
  omap (fun e => match e with Uncaught err => Some err | _ => None end) out = [].

(** The handler returns (no exception leaves it). *)
Definition returns (m : M unit) (w : world) : Prop :=
  exists w' out, m w = (Return tt, w', out).

Definition stays_within_schedule (w w' : world) : Prop :=
  within_schedule w -> within_schedule w'.

Definition default_url : string := "ws://localhost:8080".


(** The addresses given to [new WebSocket]. *)
Definition urls_dialled (out : list effect) : list string :=
  omap (fun e => match e with NewWebSocket url _ => Some url | _ => None end) out.

Definition uncaught (out : list effect) : list string :=
  omap (fun e => match e with Uncaught err => Some err | _ => None end) out.

(** A [conversation_history] message whose [history] is [null] or missing. *)
Definition history_missing (data : value) : bool :=
  match get "type" data, get "history" data with
  | Some type, Some history =>
      is_str "conversation_history" type &&
      (bool_decide (history = VUndefined) || bool_decide (history = VNull))
  | _, _ => false
  end.

(** What a version shows, outside the console, for a message received. *)
Definition routed (v : version) (JSON_parse : string -> option value) (raw : string)
    (w : world) : list effect :=
  visible (snd (handle (onmessage v JSON_parse raw) w)).

(** A parser that knows one text. *)
Definition parse_one (text : string) (data : value) (raw : string) : option value :=
  if String.eqb raw text then Some data else None.

(** The manager has given up: the ceiling is reached, no timer is pending
    and every socket is closed. *)
Definition given_up (w : world) : Prop :=
  attempts w = maxReconnectAttempts /\ timers w = [] /\
  isConnected (mgr w) = false /\
  forall j s, sockets w !! j = Some s -> s = CLOSED.

(** The two requests that make the manager connect again. *)
Definition revives (e : event) : bool :=
  match e with
  | RuntimeMessage RECONNECT | RuntimeMessage (UPDATE_API_URL _) => true
  | _ => false
  end.

(** The overlay version after a manual reconnection whose new socket opens
    before the close event of the old one arrives. *)
Definition overtaken : world :=
  match run Overlay no_parse any_url (chatting Overlay)
          [RuntimeMessage RECONNECT; TimerFires 0; SocketOpen 1] with
  | Some (w, _) => w
  | None => fresh 0
  end.

(** From a manager with the address [url]: it keeps it, and the sockets
    created are created for it. *)
Definition dials (url : string) (w w' : world) (out : list effect) : Prop :=
  apiUrl (mgr w) = url ->
  apiUrl (mgr w') = url /\ Forall (eq url) (urls_dialled out).

(** The request that changes the address. *)
Definition changes_address (e : event) : bool :=
  match e with
  | RuntimeMessage (UPDATE_API_URL _) => true
  | _ => false
  end.

(** From [w] to [w'] one failure is counted: below the ceiling the counter
    goes up by one and the next retry of the schedule is set; at the
    ceiling nothing happens. *)
Definition failure_counted (w w' : world) (out : list effect) : Prop :=
  if (attempts w <? maxReconnectAttempts)%Z
  then retry_delays out = [(reconnectDelay * (attempts w + 1))%Z] /\
       attempts w' = (attempts w + 1)%Z
  else retry_delays out = [] /\ attempts w' = attempts w.

(** What a call of [connect()] does, from [w] to [w']: nothing when the
    manager is connected or connecting; otherwise a socket for the current
    address, the counter as it was, or one failure counted when
    [new WebSocket] throws. *)
Definition connect_outcome (WebSocket_accepts : string -> bool)
    (w w' : world) (out : list effect) : Prop :=
  if connected_or_connecting w
  then mgr w' = mgr w /\ sockets w' = sockets w /\
       sockets_created out = [] /\ retry_delays out = []
  else if WebSocket_accepts (apiUrl (mgr w))
  then attempts w' = attempts w /\
       sockets_created out = [length (sockets w)] /\
       In (NewWebSocket (apiUrl (mgr w)) (length (sockets w))) out /\
       ws (mgr w') = Some (length (sockets w)) /\
       sockets w' !! length (sockets w) = Some CONNECTING
  else sockets_created out = [] /\ failure_counted w w' out.

(** The values of [connected] announced by the CONNECTION_STATUS
    notifications among the calls. *)
Definition announced (out : list effect) : list value :=
  notifications "CONNECTION_STATUS" out.

(** The calls announce no connection status. *)
Definition silent (w w' : world) (out : list effect) : Prop := announced out = [].

(** The calls announce no connection status, and the flag is as before. *)
Definition quiet (w w' : world) (out : list effect) : Prop :=
  announced out = [] /\ isConnected (mgr w') = isConnected (mgr w).

End WebSocketManager.

(** ** The calendar page: [CalendarManager] *)

Module CalendarManager.
Import JS.

(** A [Date] by its time value in milliseconds; [None] is the Invalid Date,
    whose time value is NaN. *)
Definition Date : Type := option Z.

(** [a < b] on two dates: false as soon as one of them is invalid. *)
Definition date_lt (a b : Date) : bool :=
  match a, b with
  | Some x, Some y => (x <? y)%Z
  | _, _ => false
  end.

(** [a > b] *)
Definition date_gt (a b : Date) : bool := date_lt b a.

Record CalendarEvent : Type := Event {
  id : value;
  title : value;
  start : Date;
  end_ : Date;
  description : value;
  location : value;
  priority : value
}.

Inductive status : Type := connecting | connected | disconnected.

Inductive effect : Type :=
| RenderCalendar
| ShowSuccess (text : string)
| ShowError (text : string)
| Send (request : string)   (* this.wsSocket.send, by the type of the request *)
| CloseSidebar.

(** The fields of the class that the handlers below read or write, the
    entry [freelaince_calendar] of [localStorage], whether [this.wsSocket]
    exists and is open, and how many ids [generateId()] has drawn. *)
Record calendar : Type := Calendar {
  events : list CalendarEvent;
  freelaince_calendar : option (list CalendarEvent);
  socket_open : bool;
  connectionStatus : status;
  drawn : nat
}.

Section Methods.

(** [new Date(v)] *)
Variable new_Date : value -> Date.
(** The result of the k-th call of [generateId()], which draws it with
    [Math.random()]. *)
Variable random_id : nat -> string.

(** One step of the [map] of [parseEventsData]; [None] is the TypeError of
    reading a property of [null]. *)
Definition parseEvent (event : value) (k : nat) : option (CalendarEvent * nat) :=
  i ← get "id" event ;
  t ← get "title" event ;
  start_time ← get "start_time" event ;
  start' ← get "start" event ;
  end_time ← get "end_time" event ;
  end' ← get "end" event ;
  d ← get "description" event ;
  l ← get "location" event ;
  p ← get "priority" event ;
  Some (Event (if truthy i then i else VStr (random_id k))
              t
              (new_Date (or start_time start'))
              (new_Date (or end_time end'))
              (or d (VStr ""))
              (or l (VStr ""))
              (or p (VNum 1)),
        if truthy i then k else S k).

Fixpoint parseEvents (items : list value) (k : nat) : option (list CalendarEvent * nat) :=
  match items with
  | [] => Some ([], k)
  | event :: rest =>
      '(e, k1) ← parseEvent event k ;
      '(es, k2) ← parseEvents rest k1 ;
      Some (e :: es, k2)
  end.

(** [parseEventsData(serverEvents)]: only an array has a [map]. *)
Definition parseEventsData (serverEvents : value) (k : nat)
  : option (list CalendarEvent * nat) :=
  match serverEvents with
  | VArr items => parseEvents items k
  | _ => None
  end.

(** [requestEvents()] *)
Definition requestEvents (c : calendar) : list effect :=
  if socket_open c then [Send "get_schedule"] else [].

(** The three acknowledgements share one shape. *)
Definition acknowledge (data : value) (done failed : string) (c : calendar)
  : option (calendar * list effect) :=
  ok ← get "success" data ;
  if truthy ok then Some (c, ShowSuccess done :: requestEvents c)
  else Some (c, [ShowError failed]).

(** [handleServerMessage(data)]; [None] when it throws, which it can do
    only before it has changed anything. *)
Definition handleServerMessage (data : value) (c : calendar)
  : option (calendar * list effect) :=
  type ← get "type" data ;
  if is_str "schedule_data" type || is_str "events_data" type then
    evs ← get "events" data ;
    schedule ← get "schedule" data ;
    '(parsed, k) ← parseEventsData (or (or evs schedule) (VArr [])) (drawn c) ;
    Some (Calendar parsed (Some parsed) (socket_open c) (connectionStatus c) k,
          [RenderCalendar])
  else if is_str "event_added" type then
    acknowledge data "Event added successfully" "Failed to add event" c
  else if is_str "event_updated" type then
    acknowledge data "Event updated successfully" "Failed to update event" c
  else if is_str "event_deleted" type then
    acknowledge data "Event deleted successfully" "Failed to delete event" c
  else if is_str "error" type then
    Some (c, [ShowError "Server error"])
  else Some (c, []).

(** [this.wsSocket.onmessage], on the result of [JSON.parse(event.data)]
    ([None] when it throws): every exception ends in the [catch], which
    only logs. *)
Definition onmessage (parsed : option value) (c : calendar) : calendar * list effect :=
  match parsed ≫= (fun data => handleServerMessage data c) with
  | Some r => r
  | None => (c, [])
  end.

End Methods.

(** [eventsOverlap(event1, event2)] *)
Definition eventsOverlap (event1 event2 : CalendarEvent) : bool :=
  date_lt (start event1) (end_ event2) && date_gt (end_ event1) (start event2).

(** The test that [hasConflicts] makes on a pair:
    [event.id !== targetEvent.id && this.eventsOverlap(event, targetEvent)];
    [same_id] says whether the two ids are one and the same object (it is
    read only when both are arrays or objects: [parseEventsData] keeps
    whatever truthy id the server sends). *)
Definition conflict (same_id : bool) (event targetEvent : CalendarEvent) : bool :=
  strict_ne same_id (id event) (id targetEvent) && eventsOverlap event targetEvent.

(** [hasConflicts(targetEvent)]; [same_id i] says whether the id of the
    event at index [i] is the very object that is the id of [targetEvent]. *)
Definition hasConflicts (c : calendar) (same_id : nat -> bool) (targetEvent : CalendarEvent)
  : bool :=
  existsb (fun p => conflict (same_id p.1) p.2 targetEvent) (imap pair (events c)).

(** *** Editing, and loading the page *)

(** [a >= b] on two dates: false as soon as one of them is invalid. *)
Definition date_ge (a b : Date) : bool :=
  match a, b with
  | Some x, Some y => (y <=? x)%Z
  | _, _ => false
  end.

(** [array.findIndex(p)]; [None] is -1. *)
Fixpoint findIndex {A} (p : A -> bool) (l : list A) : option nat :=
  match l with
  | [] => None
  | x :: rest => if p x then Some 0%nat else option_map S (findIndex p rest)
  end.

(** The fields of the event form that [saveEvent] reads, and the priority
    of the option that is selected. *)
Record form : Type := Form {
  form_title : value;
  form_date : string;
  form_startTime : string;
  form_endTime : string;
  form_location : value;
  form_description : value;
  form_priority : value
}.

Definition with_events (events' : list CalendarEvent) (c : calendar) : calendar :=
  Calendar events' (Some events') (socket_open c) (connectionStatus c) (drawn c).

(** How [connectToServer()] ends: the socket opens, or the promise is
    rejected by [onerror], by the 5 second timer, or by a constructor that
    throws. *)
Inductive outcome : Type := Opens | Errors | TimesOut | Throws.

(** [this.viewType] *)
Inductive view : Type := month_view | week_view | list_view.

(** How a call ends: it returns, or an exception leaves it. *)
Inductive completion : Type :=
| Returned
| Thrown (err : string).

(** Whether [renderCalendar()] ends in an exception.  The list view calls
    [formatDate(event.start)] on every event, and [toISOString()] throws a
    RangeError on an Invalid Date; the month view, which the week view
    uses too, reads the dates with [toDateString()] and
    [toLocaleTimeString()], which do not throw. *)
Definition render_throws (viewType : view) (events' : list CalendarEvent) : bool :=
  match viewType with
  | list_view => existsb (fun event => bool_decide (start event = None)) events'
  | _ => false
  end.

(** The methods that write events.  Each gives the calendar it leaves, the
    calls it has made, and how it ends: the exceptions are the RangeError
    of [toISOString()] on an Invalid Date, in the request to the server
    and in [renderCalendar()]. *)
Module Editing.
Section Methods.

Variable new_Date : value -> Date.
Variable random_id : nat -> string.
(** The time value of [new Date(y, m, d + days, hours, 0)] for today's
    [y], [m], [d]. *)
Variable local_time : Z -> Z -> Z.
(** The view that is shown. *)
Variable viewType : view.

(** [eventData.start.toISOString()] and [eventData.end.toISOString()] *)
Definition iso_times (eventData : CalendarEvent) : option (Z * Z) :=
  s ← start eventData ; e ← end_ eventData ; Some (s, e).

(** The request of the branch taken while the socket is open. *)
Definition request (type : string) (eventData : CalendarEvent) (c : calendar)
  : calendar * list effect * completion :=
  match iso_times eventData with
  | Some _ => (c, [Send type], Returned)
  | None => (c, [], Thrown "RangeError")
  end.

(** The end of the branches taken while it is not: [this.events] is
    assigned and written to [localStorage], then
    [this.renderCalendar(); this.closeSidebar(); this.showSuccess(text)]. *)
Definition store (events' : list CalendarEvent) (text : string) (c : calendar)
  : calendar * list effect * completion :=
  if render_throws viewType events'
  then (with_events events' c, [RenderCalendar], Thrown "RangeError")
  else (with_events events' c, [RenderCalendar; CloseSidebar; ShowSuccess text], Returned).

Definition addEvent (eventData : CalendarEvent) (c : calendar)
  : calendar * list effect * completion :=
  if socket_open c then request "add_event" eventData c
  else store (events c ++ [eventData]) "Event added (offline)" c.

(** [same_id i] says whether the id of the event at index [i] is the very
    object that is [eventData.id]. *)
Definition updateEvent (same_id : nat -> bool) (eventData : CalendarEvent) (c : calendar)
  : calendar * list effect * completion :=
  if socket_open c then request "update_event" eventData c
  else
    match findIndex (fun p => strict_eq (same_id p.1) (id p.2) (id eventData))
                    (imap pair (events c)) with
    | Some index => store (<[index := eventData]> (events c)) "Event updated (offline)" c
    | None => (c, [], Returned)
    end.

(** [same_id i] says whether the id of the event at index [i] is the very
    object that is [eventId]. *)
Definition deleteEventById (same_id : nat -> bool) (eventId : value) (c : calendar)
  : calendar * list effect * completion :=
  if socket_open c then (c, [Send "delete_event"], Returned)
  else
    store (snd <$> filter (fun p => strict_ne (same_id p.1) (id p.2) eventId = true)
                          (imap pair (events c)))
          "Event deleted (offline)" c.

(** The event [saveEvent()] builds from the form; [selectedEvent] is the
    event being edited, if any. *)
Definition eventData (selectedEvent : option CalendarEvent) (f : form) (c : calendar)
  : CalendarEvent :=
  Event (match selectedEvent with
         | Some e => id e
         | None => VStr (random_id (drawn c))
         end)
        (form_title f)
        (new_Date (VStr (form_date f +:+ "T" +:+ form_startTime f)))
        (new_Date (VStr (form_date f +:+ "T" +:+ form_endTime f)))
        (form_description f)
        (form_location f)
        (form_priority f).

(** [same_id i] says whether the id of the event at index [i] is the very
    object that is the id of [selectedEvent]. *)
Definition saveEvent (same_id : nat -> bool) (selectedEvent : option CalendarEvent)
    (f : form) (c : calendar) : calendar * list effect * completion :=
  let data := eventData selectedEvent f c in
  let c1 :=
    match selectedEvent with
    | Some _ => c
    | None => Calendar (events c) (freelaince_calendar c) (socket_open c)
                       (connectionStatus c) (S (drawn c))
    end in
  if date_ge (start data) (end_ data)
  then (c1, [ShowError "End time must be after start time"], Returned)
  else
    match selectedEvent with
    | Some _ => updateEvent same_id data c1
    | None => addEvent data c1
    end.

(** [loadSampleData()] *)
Definition sampleData : list CalendarEvent :=
  [Event (VStr "1") (VStr "Team Meeting")
         (Some (local_time 0 14)) (Some (local_time 0 15))
         (VStr "Weekly team sync") (VStr "Conference Room") (VNum 3);
   Event (VStr "2") (VStr "Client Call")
         (Some (local_time 1 10)) (Some (local_time 1 11))
         (VStr "Discuss project requirements") (VStr "Zoom") (VNum 4);
   Event (VStr "3") (VStr "Lunch Break")
         (Some (local_time 0 12)) (Some (local_time 0 13))
         (VStr "Personal time") (VStr "") (VNum 1)].

Definition loadSampleData (c : calendar) : calendar := with_events sampleData c.

(** An event read back from [localStorage]: [JSON.stringify] writes an
    Invalid Date as [null], and [new Date(null)] is the epoch. *)
Definition revive (event : CalendarEvent) : CalendarEvent :=
  Event (id event) (title event)
        (Some (default 0%Z (start event))) (Some (default 0%Z (end_ event)))
        (description event) (location event) (priority event).

(** [loadEvents()]; what the class itself has stored parses, so its
    [catch] is not entered. *)
Definition loadEvents (c : calendar) : calendar * list effect :=
  let c1 :=
    match freelaince_calendar c with
    | Some cached =>
        Calendar (revive <$> cached) (freelaince_calendar c) (socket_open c)
                 (connectionStatus c) (drawn c)
    | None => c
    end in
  (c1, match connectionStatus c1 with
       | connected => requestEvents c1
       | _ => []
       end).

(** [new CalendarManager()] on a page whose [localStorage] holds [stored];
    the view is the month view. *)
Definition constructor (stored : option (list CalendarEvent)) : calendar :=
  Calendar [] stored false disconnected 0.

(** [init()], given how the connection ends. *)
Definition init (o : outcome) (c : calendar) : calendar * list effect :=
  match o with
  | Opens =>
      let '(c1, out) :=
        loadEvents (Calendar (events c) (freelaince_calendar c) true connected (drawn c)) in
      (c1, out ++ [RenderCalendar])
  | _ =>
      (loadSampleData
         (Calendar (events c) (freelaince_calendar c) false
                   (match o with Errors => disconnected | _ => connecting end) (drawn c)),
       [ShowError "Failed to initialize calendar"; RenderCalendar])
  end.

End Methods.
End Editing.

(** *** Vocabulary of the properties, and a calendar for the examples *)

(** [a < b] on dates, as a proposition: both are valid and the time value
    of [a] is below that of [b]. *)
Definition before (a b : Date) : Prop :=
  exists x y, a = Some x /\ b = Some y /\ (x < y)%Z.

(** [a !== b], as a proposition: two values of which one is primitive
    differ; two arrays or objects are not one and the same object. *)
Definition differ (same_object : bool) (a b : value) : Prop :=
  if primitive a || primitive b then a <> b else same_object = false.

(** A calendar to which a dentist appointment was added while the socket
    was not open, and a snapshot of the server that knows one other event. *)
Definition millis (v : value) : Date :=
  match v with VNum n => Some n | _ => None end.

Definition dentist : CalendarEvent :=
  Event (VStr "k3j9x0q1z") (VStr "Dentist") (Some 36000000%Z) (Some 39600000%Z)
        (VStr "") (VStr "") (VNum 3).

Definition offline_calendar : calendar :=
  (Editing.addEvent month_view dentist (Calendar [] None false disconnected 0)).1.1.



(** The payload of a snapshot: [data.events || data.schedule || []]. *)
Definition payload (fields : list (string * value)) : value :=
  or (or (assoc "events" fields) (assoc "schedule" fields)) (VArr []).


(** The requests handed to the socket, by their type. *)
Definition sends (out : list effect) : list string :=
  omap (fun e => match e with Send r => Some r | _ => None end) out.

(** A message that carries a snapshot of the events. *)
Definition is_snapshot (parsed : option value) : bool :=
  match parsed ≫= get "type" with
  | Some type => is_str "schedule_data" type || is_str "events_data" type
  | None => false
  end.

(** An acknowledgement of a write, with a truthy [success]. *)
Definition confirms (parsed : option value) : bool :=
  match parsed with
  | Some data =>
      match get "type" data, get "success" data with
      | Some type, Some ok =>
          (is_str "event_added" type || is_str "event_updated" type
           || is_str "event_deleted" type) && truthy ok
      | _, _ => false
      end
  | None => false
  end.

(** The dates of an event are valid. *)
Definition valid_dates (e : CalendarEvent) : Prop :=
  is_Some (start e) /\ is_Some (end_ e).

(** No event of the list has the id [eventId]: none is equal to it as a
    primitive value, none is the same object. *)
Definition no_id_of (same_id : nat -> bool) (eventId : value) (events' : list CalendarEvent)
  : Prop :=
  forall i e, events' !! i = Some e -> strict_eq (same_id i) (id e) eventId = false.

(** A form for the examples, and a [Date] constructor that reads two of
    its times. *)
Definition ten_to_eleven : form :=
  Form (VStr "Dentist") "2025-01-15" "10:00" "11:00" (VStr "") (VStr "") (VNum 3).

Definition sample_Date (v : value) : Date :=
  match v with
  | VStr s =>
      if String.eqb s "2025-01-15T10:00" then Some 1736935200000%Z
      else if String.eqb s "2025-01-15T11:00" then Some 1736938800000%Z
      else None
  | VNum n => Some n
  | _ => None
  end.

Definition sample_id (k : nat) : string :=
  match k with
  | O => "k3j9x0q1z"
  | _ => "p0o9i8u7y"
  end.

End CalendarManager.

(** ** The offers page: [OffersManager] *)

Module OffersManager.
Import JS.

Inductive effect : Type :=
| SetButtonLoading (offerId : string) (loading : bool)
| Rerender                       (* applyFilters(); updateStats() *)
| ShowSuccess (text : string)
| ShowError (text : string).

(** [this.offers] and the entry [freelaince_offers] of [localStorage]. *)
Record manager : Type := Manager {
  offers : list value;
  freelaince_offers : option (list value)
}.

(** *** One status update on its own socket: [connectAndSendUpdate] *)

(** What the browser delivers to the socket and to the 5 second timer. *)
Inductive event : Type :=
| Opened
| Received (raw : string)
| Errored
| Closed
| TimedOut.

(** The variables the handlers close over: [responseReceived], and the
    promise of [syncStatusWithServer], settled once for all by the first
    call of [resolve]. *)
Record session : Type := Session {
  responseReceived : bool;
  resolved : option bool
}.

Definition resolve (b : bool) (s : session) : session :=
  match resolved s with
  | Some _ => s
  | None => Session (responseReceived s) (Some b)
  end.

Section Methods.

(** [JSON.parse]; [None] when it throws. *)
Variable JSON_parse : string -> option value.

(** [response.type === 'offer_status_updated' && response.success]; [None]
    is the TypeError of a [null] response. *)
Definition acknowledged (response : value) : option bool :=
  type ← get "type" response ;
  ok ← get "success" response ;
  Some (is_str "offer_status_updated" type && truthy ok).

Definition onmessage (raw : string) (s : session) : session :=
  match JSON_parse raw with
  | None => resolve false s
  | Some response =>
      let s1 := Session true (resolved s) in
      match acknowledged response with
      | Some true => resolve true s1
      | Some false => resolve false s1
      | None => resolve false s1
      end
  end.

Definition unless_received (s : session) : session :=
  if responseReceived s then s else resolve false s.

Definition deliver (s : session) (e : event) : session :=
  match e with
  | Opened => s                        (* sends the update_offer_status request *)
  | Received raw => onmessage raw s
  | Errored => unless_received s
  | Closed => unless_received s
  | TimedOut => unless_received s
  end.

(** The value [await this.syncStatusWithServer(...)] gets from a run of the
    socket ([constructed] is false when [new WebSocket] throws); [None]
    while the promise is pending. *)
Definition syncStatusWithServer (constructed : bool) (run : list event) : option bool :=
  if constructed then resolved (foldl deliver (Session false None) run)
  else Some false.

(** [this.offers.find(o => o.offer_id === offerId)], by index; the outer
    [None] is the TypeError of a [null] element met before a match. *)
Fixpoint find_offer (offerId : string) (os : list value) : option (option nat) :=
  match os with
  | [] => Some None
  | o :: rest =>
      i ← get "offer_id" o ;
      if is_str offerId i then Some (Some 0%nat)
      else r ← find_offer offerId rest ; Some (option_map S r)
  end.

(** [offer.status = newStatus] *)
Definition set_status (newStatus : string) (offer : value) : value :=
  match offer with
  | VObj fields => VObj (set_field "status" (VStr newStatus) fields)
  | _ => offer
  end.

(** Whether [this.applyFilters(); this.updateStats()] ends in an exception
    on these offers: the callback of the filter throws on an offer whose
    [client_name] or [location] is not a string while that filter is set,
    and on a [null] offer, as do the counters. *)
Variable rerender_throws : list value -> bool.

(** [updateOfferStatus(offerId, newStatus)], given what the socket does.
    An exception of the [try] block ends in the [catch], which shows the
    error. *)
Definition updateOfferStatus (offerId newStatus : string)
    (constructed : bool) (run : list event) (m : manager)
  : manager * list effect :=
  match syncStatusWithServer constructed run with
  | None => (m, [SetButtonLoading offerId true])
  | Some true =>
      match find_offer offerId (offers m) with
      | None =>
          (m, [SetButtonLoading offerId true;
               ShowError "Failed to update offer status";
               SetButtonLoading offerId false])
      | Some None =>
          (m, [SetButtonLoading offerId true; SetButtonLoading offerId false])
      | Some (Some i) =>
          let offers' := alter (set_status newStatus) i (offers m) in
          (Manager offers' (Some offers'),
           [SetButtonLoading offerId true;
            Rerender;
            if rerender_throws offers'
            then ShowError "Failed to update offer status"
            else ShowSuccess ("Offer status updated to " +:+ newStatus);
            SetButtonLoading offerId false])
      end
  | Some false =>
      (m, [SetButtonLoading offerId true;
           ShowError "Failed to update offer status on server";
           SetButtonLoading offerId false])
  end.

End Methods.

(** *** Vocabulary of the properties, and offers for the examples *)

(** The first event that is not the opening of the socket. *)
Fixpoint first_answer (run : list event) : option event :=
  match run with
  | [] => None
  | Opened :: rest => first_answer rest
  | e :: _ => Some e
  end.

(** [raw] parses to an [offer_status_updated] with a truthy [success]. *)
Definition is_acknowledgement (JSON_parse : string -> option value) (raw : string) : bool :=
  match JSON_parse raw with
  | Some response =>
      match acknowledged response with
      | Some b => b
      | None => false
      end
  | None => false
  end.

(** Two cached offers, and a server that answers with an error. *)
Definition two_offers : manager :=
  let os := [VObj [("offer_id", VStr "12345678"); ("status", VStr "pending")];
             VObj [("offer_id", VStr "87654321"); ("status", VStr "accepted")]] in
  Manager os (Some os).

Definition answers (raw : string) : option value :=
  if String.eqb raw "updated"
  then Some (VObj [("type", VStr "offer_status_updated"); ("success", VBool true)])
  else if String.eqb raw "error"
  then Some (VObj [("type", VStr "error"); ("message", VStr "Unknown offer")])
  else None.

(** *** Filters and counters *)

Section Filters.

(** [String.prototype.toLowerCase] *)
Variable toLowerCase : string -> string.

(** [s.includes(t)] *)
Definition includes (s t : string) : bool :=
  match String.index 0 t s with
  | Some _ => true
  | None => false
  end.

(** [!filter || offer.k === filter]; [None] is the TypeError of a [null]
    offer, met only when the filter is set. *)
Definition matches_exactly (k filter : string) (offer : value) : option bool :=
  if String.eqb filter "" then Some true
  else x ← get k offer ; Some (is_str filter x).

(** [!filter || offer.k.toLowerCase().includes(filter)]; [None] is the
    TypeError of a property that is not a string. *)
Definition matches_text (k filter : string) (offer : value) : option bool :=
  if String.eqb filter "" then Some true
  else
    x ← get k offer ;
    match x with
    | VStr s => Some (includes (toLowerCase s) filter)
    | _ => None
    end.

(** The callback of the [filter] in [applyFilters()]. *)
Definition matches (statusFilter typeFilter clientFilter locationFilter : string)
    (offer : value) : option bool :=
  matchesStatus ← matches_exactly "status" statusFilter offer ;
  matchesType ← matches_exactly "job_title" typeFilter offer ;
  matchesClient ← matches_text "client_name" clientFilter offer ;
  matchesLocation ← matches_text "location" locationFilter offer ;
  Some (matchesStatus && matchesType && matchesClient && matchesLocation).

Fixpoint filter_offers (p : value -> option bool) (os : list value) : option (list value) :=
  match os with
  | [] => Some []
  | o :: rest =>
      match p o, filter_offers p rest with
      | Some b, Some kept => Some (if b then o :: kept else kept)
      | _, _ => None
      end
  end.

(** [applyFilters()]: the new [this.filteredOffers], from the values of the
    four inputs; [None] when the callback throws, and then
    [this.filteredOffers] is not assigned. *)
Definition applyFilters (statusFilter typeFilter clientInput locationInput : string)
    (m : manager) : option (list value) :=
  filter_offers (matches statusFilter typeFilter
                         (toLowerCase clientInput) (toLowerCase locationInput))
                (offers m).

End Filters.

(** [this.offers.filter(o => o.status === status).length]; [None] is the
    TypeError of a [null] offer. *)
Fixpoint count_status (status : string) (os : list value) : option nat :=
  match os with
  | [] => Some 0%nat
  | o :: rest =>
      match get "status" o, count_status status rest with
      | Some s, Some n => Some (if is_str status s then S n else n)
      | _, _ => None
      end
  end.

(** The acknowledged update of the examples. *)
Definition acknowledged_run : list event := [Opened; Received "updated"; Closed].

(** A lower-casing for the examples: the texts they use are in lower case. *)
Definition lower (s : string) : string := s.

End OffersManager.

(** ** The settings popup: [src/front/popup.js] and [src/unnamed/part_007] *)

Module SettingsPopup.
Import JS.


Section Script.

(** Whether the script is the one that also writes [localStorage]
    ([src/unnamed/part_007]). *)
Variable mirrors : bool.
(** [String.prototype.trim] *)
Variable trim : string -> string.




End Script.

End SettingsPopup.

(** ** The chat overlay of a page: [FreelainceOverlay] *)

Module FreelainceOverlay.
Import JS.

(** [this.isVisible] and [this.isMinimized] *)
Record panel : Type := Panel {
  isVisible : bool;
  isMinimized : bool
}.

(** The entries [chatVisible] and [chatMinimized] of
    [chrome.storage.local]; [None]: never stored. *)
Record stored : Type := Stored {
  chatVisible : option bool;
  chatMinimized : option bool
}.

(** [saveChatState()] *)
Definition saveChatState (p : panel) : panel * stored :=
  (p, Stored (Some (isVisible p)) (Some (isMinimized p))).

Definition showChat (p : panel) : panel * stored := saveChatState (Panel true false).
Definition hideChat (p : panel) : panel * stored := saveChatState (Panel false false).
Definition minimizeChat (p : panel) : panel * stored :=
  saveChatState (Panel (isVisible p) true).

Definition toggleChat (p : panel) : panel * stored :=
  if isVisible p then hideChat p else showChat p.

(** The buttons of the overlay. *)
Inductive click : Type := ToggleButton | CloseButton | MinimizeButton.

Definition on_click (b : click) (state : panel * stored) : panel * stored :=
  match b with
  | ToggleButton => toggleChat (fst state)
  | CloseButton => hideChat (fst state)
  | MinimizeButton => minimizeChat (fst state)
  end.

(** [if (result.k)] on an entry of the storage. *)
Definition is_set (entry : option bool) : bool := default false entry.

(** [loadChatState()]: the callback of [chrome.storage.local.get] works on
    the entries as they were read. *)
Definition loadChatState (state : panel * stored) : panel * stored :=
  let result := snd state in
  let state1 := if is_set (chatVisible result) then showChat (fst state) else state in
  if is_set (chatMinimized result) then minimizeChat (fst state1) else state1.

(** [new FreelainceOverlay()] on a browser whose storage holds [s]. *)
Definition constructor (s : stored) : panel * stored :=
  loadChatState (Panel false false, s).

(** What the listener of [chrome.runtime.onMessage] does with a message. *)
Inductive reaction : Type :=
| DisplayReceived (data : value)      (* this.displayMessage(data, 'received') *)
| LoadHistory (data : value)          (* this.loadConversationHistory(data) *)
| KeepHistory (data : value)          (* this.pendingHistory = data *)
| Nothing.

(** The second class of the file has no [domReady]: it always loads. *)
Definition onMessage (domReady : bool) (type : string) (data : value) : reaction :=
  if String.eqb type "NEW_MESSAGE" then DisplayReceived data
  else if String.eqb type "CONVERSATION_HISTORY" then
    if domReady then LoadHistory data else KeepHistory data
  else Nothing.

(** What the overlay does with the calls of the background worker: only
    its notifications reach it. *)
Definition reactions (domReady : bool) (out : list WebSocketManager.effect) : list reaction :=
  omap (fun e => match e with
                 | WebSocketManager.Notify type data =>
                     match onMessage domReady type data with
                     | Nothing => None
                     | r => Some r
                     end
                 | _ => None
                 end) out.

Section Input.

(** [String.prototype.trim] *)
Variable trim : string -> string.

(** [sendMessage()], on the text of the input: the text shown as sent (if
    any), the new text of the input, and the messages to the worker. *)
Definition sendMessage (input : string)
  : option string * string * list WebSocketManager.request :=
  let message := trim input in
  if String.eqb message "" then (None, input, [])
  else (Some message, "", [WebSocketManager.SEND_MESSAGE (VStr message)]).

End Input.

(** [waitForDOMElement(elementId, maxAttempts)]: [present k] says whether
    the element is there at the check made after [k] waits of 100 ms;
    [checkElement] is the closure, [attempts] its counter.  The result is
    the number of waits before the promise is resolved, [None] when it is
    rejected. *)
Fixpoint checkElement (present : nat -> bool) (left : nat) (attempts : nat) : option nat :=
  if present attempts then Some attempts
  else
    match left with
    | S left' => checkElement present left' (S attempts)
    | O => None
    end.

Definition waitForDOMElement (present : nat -> bool) (maxAttempts : nat) : option nat :=
  checkElement present maxAttempts 0.

End FreelainceOverlay.

(** * Properties *)

(** ** The reconnection controller *)

Import JS WebSocketManager.

Lemma retry_delays_app out1 out2 :
  retry_delays (out1 ++ out2) = retry_delays out1 ++ retry_delays out2.
Proof. apply omap_app. Qed.

Lemma backoff_same w w' out :
  retry_delays out = [] -> attempts w' = attempts w -> backoff w w' out.
Proof.
  intros Hout Hatt. exists 0%nat. rewrite Hout, Hatt. simpl.
  repeat split; [lia | by left].
Qed.

Lemma backoff_trans w w1 w2 out1 out2 :
  backoff w w1 out1 -> backoff w1 w2 out2 -> backoff w w2 (out1 ++ out2).
Proof.
  intros (n1 & D1 & A1 & C1) (n2 & D2 & A2 & C2).
  exists (n1 + n2)%nat. rewrite retry_delays_app, D1, D2, A2, A1.
  split; [|split].
  - rewrite seq_app, fmap_app. f_equal.
    replace (1 + n1)%nat with (n1 + 1)%nat by lia.
    rewrite <- (fmap_add_seq n1 1 n2), <- list_fmap_compose.
    apply list_fmap_ext. intros _ k _. simpl. f_equal. lia.
  - lia.
  - destruct C2 as [->|C2]; [|right; lia].
    destruct C1 as [->|C1]; [by left|right; lia].
Qed.

Lemma respects_ret {A} (a : A) : respects (ret a).
Proof. intros w r w' out [= _ <- <-]. by apply backoff_same. Qed.

Lemma respects_throw {A} err : respects (@throw A err).
Proof. intros w r w' out [= _ <- <-]. by apply backoff_same. Qed.

Lemma respects_read {A} (f : world -> A) : respects (read f).
Proof. intros w r w' out [= _ <- <-]. by apply backoff_same. Qed.

Lemma respects_update f :
  (forall w, attempts (f w) = attempts w) -> respects (update f).
Proof. intros Hf w r w' out [= _ <- <-]. by apply backoff_same. Qed.

Lemma respects_emit e : retry_delays [e] = [] -> respects (emit e).
Proof. intros He w r w' out [= _ <- <-]. by apply backoff_same. Qed.

Lemma respects_bind {A B} (m : M A) (k : A -> M B) :
  respects m -> (forall a, respects (k a)) -> respects (bind m k).
Proof.
  intros Hm Hk w r w' out. unfold bind.
  destruct (m w) as [[[a|err] w1] out1] eqn:Em.
  - destruct (k a w1) as [[r2 w2] out2] eqn:Ek. intros [= _ <- <-].
    eapply backoff_trans; [by eapply Hm | by eapply Hk].
  - intros [= _ <- <-]. by eapply Hm.
Qed.

Lemma respects_try_catch (m handler : M unit) :
  respects m -> respects handler -> respects (try_catch m handler).
Proof.
  intros Hm Hh w r w' out. unfold try_catch.
  destruct (m w) as [[[a|err] w1] out1] eqn:Em.
  - intros [= _ <- <-]. by eapply Hm.
  - destruct (handler w1) as [[r2 w2] out2] eqn:Eh. intros [= _ <- <-].
    eapply backoff_trans; [by eapply Hm | by eapply Hh].
Qed.

Lemma respects_when b (m : M unit) : respects m -> respects (when b m).
Proof. destruct b; [done | intros _; apply respects_ret]. Qed.

Create HintDb respects.

#[local] Hint Resolve respects_ret respects_throw respects_read : respects.

Ltac respects_step :=
  first
    [ solve [auto with respects]
    | apply respects_bind; [|intros ?]
    | apply respects_try_catch
    | apply respects_when
    | apply respects_update; done
    | apply respects_emit; done
    | case_match ].

Ltac respects_all := repeat respects_step.

Lemma respects_console l text : respects (console l text).
Proof. unfold console. respects_all. Qed.

Lemma respects_notify type data : respects (notify type data).
Proof. unfold notify. respects_all. Qed.

Lemma respects_ws_close i : respects (ws_close i).
Proof. unfold ws_close. respects_all. Qed.

Lemma respects_set_ws i : respects (set_ws i).
Proof. unfold set_ws. respects_all. Qed.

Lemma respects_set_isConnected b : respects (set_isConnected b).
Proof. unfold set_isConnected. respects_all. Qed.

Lemma respects_set_apiUrl u : respects (set_apiUrl u).
Proof. unfold set_apiUrl. respects_all. Qed.

Lemma respects_delayed_connect d : respects (setTimeout DelayedConnect d).
Proof. unfold setTimeout. respects_all. Qed.

#[local] Hint Resolve respects_console respects_notify respects_ws_close
  respects_set_ws respects_set_isConnected respects_set_apiUrl
  respects_delayed_connect : respects.

(** The one place where a retry is scheduled. *)
Lemma attemptReconnect_cases w :
  let a := attempts w in
  (connected_or_connecting w = false /\ (a < maxReconnectAttempts)%Z /\
   attemptReconnect w =
     (Return tt,
      World (Manager (ws (mgr w)) (isConnected (mgr w)) (a + 1) (apiUrl (mgr w)))
            (sockets w) (timers w ++ [(RetryConnect, reconnectDelay * (a + 1))%Z]) (now w),
      [Console log "Attempting to reconnect...";
       SetTimeout RetryConnect (reconnectDelay * (a + 1))]))
  \/ ((connected_or_connecting w = true \/ (maxReconnectAttempts <= a)%Z) /\
      exists text, attemptReconnect w = (Return tt, w, [Console log text])).
Proof.
  unfold attemptReconnect, bind, read; simpl.
  destruct (connected_or_connecting w) eqn:Eb; simpl.
  { right. split; [by left | eauto]. }
  destruct (Z.ltb_spec (attempts w) maxReconnectAttempts) as [Hlt|Hge];
    fold (attempts w); unfold attempts in *.
  - left. repeat split; [done|].
    destruct (reconnectAttempts (mgr w) <? maxReconnectAttempts)%Z eqn:E; [done|lia].
  - right. split; [by right|].
    destruct (reconnectAttempts (mgr w) <? maxReconnectAttempts)%Z eqn:E; [lia|eauto].
Qed.

Lemma respects_attemptReconnect : respects attemptReconnect.
Proof.
  intros w r w' out E.
  destruct (attemptReconnect_cases w) as [(_ & Hlt & E')|(_ & text & E')];
    rewrite E' in E; injection E as _ <- <-.
  - exists 1%nat. unfold attempts in *. simpl. repeat split. right. lia.
  - by apply backoff_same.
Qed.

#[local] Hint Resolve respects_attemptReconnect : respects.

Section Backoff.

Variable v : version.
Variable JSON_parse : string -> option value.
Variable WebSocket_accepts : string -> bool.

Lemma respects_connect : respects (connect WebSocket_accepts).
Proof. unfold connect, close_existing, new_WebSocket. respects_all. Qed.

Lemma respects_sendMessage message type : respects (sendMessage v message type).
Proof. unfold sendMessage, reject_send. respects_all. Qed.

Lemma respects_prop k data : respects (prop k data).
Proof. unfold prop. respects_all. Qed.

Hint Resolve respects_connect respects_sendMessage respects_prop : respects.

Lemma respects_onmessage raw : respects (onmessage v JSON_parse raw).
Proof. unfold onmessage, handleServerMessage, handleTabOpen. respects_all. Qed.

Lemma respects_onclose : respects onclose.
Proof. unfold onclose. respects_all. Qed.

Lemma respects_onerror : respects onerror.
Proof. unfold onerror. respects_all. Qed.

Lemma respects_run_callback cb : respects (run_callback WebSocket_accepts cb).
Proof. unfold run_callback. respects_all. Qed.

Lemma respects_onRuntimeMessage req : respects (onRuntimeMessage v req).
Proof. unfold onRuntimeMessage, teardown_and_reconnect. respects_all. Qed.

Lemma backoff_handle (m : M unit) w0 w w' out :
  respects m -> attempts w = attempts w0 -> handle m w = (w', out) -> backoff w0 w' out.
Proof.
  intros Hm Ha. unfold handle.
  destruct (m w) as [[[[]|err] w1] out1] eqn:Em; intros [= <- <-];
    apply Hm in Em; destruct Em as (n & D & A & C); exists n;
    rewrite <- Ha; [done|].
  rewrite retry_delays_app, D. simpl. by rewrite app_nil_r.
Qed.

(** Every event but the opening of a socket follows the schedule. *)
Lemma backoff_step w e w' out :
  is_SocketOpen e = false ->
  step v JSON_parse WebSocket_accepts w e = Some (w', out) ->
  backoff w w' out.
Proof.
  destruct e as [i|i raw|i failed|n|req|dt|i]; simpl; [done|..]; intros _.
  - case_match; [|done]. intros [= E].
    eapply backoff_handle; [apply respects_onmessage|done|done].
  - destruct (sockets w !! i) as [s|]; [|done]. case_match; [done|]. intros [= E].
    eapply backoff_handle; [| |done]; [|done].
    apply respects_bind; [apply respects_when, respects_onerror|].
    intros _. apply respects_onclose.
  - destruct (timers w !! n) as [[cb d]|]; [|done]. intros [= E].
    eapply backoff_handle; [apply respects_run_callback| |done]. done.
  - intros [= E]. eapply backoff_handle; [apply respects_onRuntimeMessage|done|done].
  - case_match; [|done]. intros [= <- <-]. by apply backoff_same.
  - case_match; [|done]. intros [= <- <-]. by apply backoff_same.
Qed.

Lemma backoff_run es : forall w w' out,
  forallb (fun e => negb (is_SocketOpen e)) es = true ->
  run v JSON_parse WebSocket_accepts w es = Some (w', out) ->
  backoff w w' out.
Proof.
  induction es as [|e es IH]; simpl; intros w w' out Hes.
  - intros [= <- <-]. by apply backoff_same.
  - apply andb_prop in Hes as [He Hes]. apply negb_true_iff in He.
    destruct (step v JSON_parse WebSocket_accepts w e) as [[w1 out1]|] eqn:E1; [|done].
    destruct (run v JSON_parse WebSocket_accepts w1 es) as [[w2 out2]|] eqn:E2; [|done].
    intros [= <- <-].
    eapply backoff_trans; [by eapply backoff_step | by eapply IH].
Qed.

End Backoff.

Section Reconnection.

Variable v : version.
Variable JSON_parse : string -> option value.
Variable WebSocket_accepts : string -> bool.

Lemma state_of_set_state w i s s0 :
  sockets w !! i = Some s0 -> state_of (set_state i s w) i = s.
Proof.
  intros H. unfold state_of, set_state. simpl.
  rewrite list_lookup_insert_eq; [done|]. by eapply lookup_lt_Some.
Qed.

(** The close of the manager's own socket: one retry below the ceiling,
    none at the ceiling. *)
Lemma close_schedules w i failed s :
  ws (mgr w) = Some i -> sockets w !! i = Some s -> s <> CLOSED ->
  exists w1 out1,
    step v JSON_parse WebSocket_accepts w (SocketClose i failed) = Some (w1, out1) /\
    if (attempts w <? maxReconnectAttempts)%Z
    then retry_delays out1 = [(reconnectDelay * (attempts w + 1))%Z] /\
         attempts w1 = (attempts w + 1)%Z
    else retry_delays out1 = [] /\ attempts w1 = attempts w.
Proof.
  intros Hws Hs Hne. unfold step. rewrite Hs.
  rewrite bool_decide_eq_false_2 by done.
  unfold handle, onclose, onerror, bind, when, console, emit, set_isConnected,
    notify, update, with_mgr, ret.
  assert (Hidle : forall W, ws (mgr W) = Some i -> isConnected (mgr W) = false ->
            sockets W = <[i:=CLOSED]> (sockets w) -> connected_or_connecting W = false).
  { intros W HW1 HW2 HW3. unfold connected_or_connecting, ws_readyState, state_of.
    rewrite HW1, HW2, HW3, list_lookup_insert_eq by (by eapply lookup_lt_Some).
    done. }
  destruct failed; simpl;
    match goal with
    | |- context [attemptReconnect ?W] =>
        pose proof (Hidle W Hws eq_refl eq_refl) as HW;
        destruct (attemptReconnect_cases W) as [(_ & Hlt & E)|([Hb|Hge] & text & E)];
        [ | congruence | ]; rewrite E; clear E
    end;
    unfold attempts in *; simpl in *; do 2 eexists; (split; [reflexivity|]).
  all: destruct (Z.ltb_spec (reconnectAttempts (mgr w)) maxReconnectAttempts);
    try lia; done.
Qed.

(** C1. Between two openings of a socket (and whatever else happens:
    closes, errors, timers, messages, requests of the surfaces), starting
    with a retry counter at 0, the retries scheduled are the first [n] of
    the linear schedule, with [n <= maxReconnectAttempts = 5]: the k-th has
    delay [reconnectDelay * k = 1000 * k].  After them, the close of the
    manager's socket schedules retry number [n + 1] when [n < 5], and
    nothing once the counter has reached 5. *)
Theorem reconnect_schedule_linear_and_bounded w es w' out :
  attempts w = 0%Z ->
  forallb (fun e => negb (is_SocketOpen e)) es = true ->
  run v JSON_parse WebSocket_accepts w es = Some (w', out) ->
  (exists n : nat,
     (Z.of_nat n <= maxReconnectAttempts)%Z /\
     retry_delays out = (fun k => reconnectDelay * Z.of_nat k)%Z <$> seq 1 n /\
     attempts w' = Z.of_nat n) /\
  (forall i s failed,
     ws (mgr w') = Some i -> sockets w' !! i = Some s -> s <> CLOSED ->
     exists w1 out1,
       step v JSON_parse WebSocket_accepts w' (SocketClose i failed) = Some (w1, out1) /\
       if (attempts w' <? maxReconnectAttempts)%Z
       then retry_delays out1 = [(reconnectDelay * (attempts w' + 1))%Z] /\
            attempts w1 = (attempts w' + 1)%Z
       else retry_delays out1 = [] /\ attempts w1 = attempts w').
Proof.
  intros H0 Hes Hrun. split.
  - destruct (backoff_run v JSON_parse WebSocket_accepts es w w' out Hes Hrun)
      as (n & D & A & C).
    exists n. rewrite H0 in D, A. simpl in A. repeat split; [|done|done].
    destruct C as [->|C]; [done | lia].
  - intros i s failed. apply close_schedules.
Qed.

End Reconnection.

Lemma reconnect_schedule_witness :
  attempts started = 0%Z /\
  forallb (fun e => negb (is_SocketOpen e)) five_failures = true /\
  exists w' out,
    run Popup no_parse any_url started five_failures = Some (w', out) /\
    retry_delays out = [1000; 2000; 3000; 4000; 5000]%Z /\
    (exists n : nat,
       (Z.of_nat n <= maxReconnectAttempts)%Z /\
       retry_delays out = (fun k => reconnectDelay * Z.of_nat k)%Z <$> seq 1 n /\
       attempts w' = Z.of_nat n) /\
    (forall i s failed,
       ws (mgr w') = Some i -> sockets w' !! i = Some s -> s <> CLOSED ->
       exists w1 out1,
         step Popup no_parse any_url w' (SocketClose i failed) = Some (w1, out1) /\
         if (attempts w' <? maxReconnectAttempts)%Z
         then retry_delays out1 = [(reconnectDelay * (attempts w' + 1))%Z] /\
              attempts w1 = (attempts w' + 1)%Z
         else retry_delays out1 = [] /\ attempts w1 = attempts w').
Proof.
  split; [reflexivity|]. split; [reflexivity|].
  eexists _, _. split; [vm_compute; reflexivity|]. split; [reflexivity|].
  apply (reconnect_schedule_linear_and_bounded Popup no_parse any_url started five_failures);
    [reflexivity | reflexivity | vm_compute; reflexivity].
Defined.

(** ** The guards of [connect] and of [sendMessage] *)

Section Guards.

Variable v : version.
Variable JSON_parse : string -> option value.
Variable WebSocket_accepts : string -> bool.

(** C2. A send requested while the state is not Connected returns at once
    and leaves the manager and the browser's sockets and timers as they
    were (nothing is kept for later); nothing is handed to a socket; one
    notification, of type ERROR, is emitted.  The same holds of the
    SEND_MESSAGE request of a surface (the popup version also answers it). *)
Theorem send_rejected_when_not_connected w message type :
  connectionState w <> Connected ->
  (exists out,
     sendMessage v message type w = (Return tt, w, out) /\
     ws_sends out = [] /\
     length (notifications "ERROR" out) = 1%nat /\
     visible out =
       [Notify "ERROR" (VObj [("message", VStr "Connection lost. Trying to reconnect...")])]) /\
  (exists out,
     step v JSON_parse WebSocket_accepts w (RuntimeMessage (SEND_MESSAGE message))
       = Some (w, out) /\
     ws_sends out = [] /\
     length (notifications "ERROR" out) = 1%nat).
Proof.
  unfold connectionState. intros H.
  destruct (isConnected (mgr w)) eqn:Ec; [done|].
  assert (Es : forall type, sendMessage v message type w =
    (Return tt, w,
     [Console error "WebSocket is not connected";
      Notify "ERROR" (VObj [("message", VStr "Connection lost. Trying to reconnect...")])])).
  { intros type'. unfold sendMessage, bind, read. simpl. rewrite Ec. by destruct (ws (mgr w)). }
  split.
  - eexists. split; [apply Es|]. done.
  - unfold step, handle, onRuntimeMessage. destruct v; simpl.
    + rewrite Es. eexists. split; [reflexivity|]. done.
    + unfold bind. simpl. rewrite Es. simpl. eexists. split; [reflexivity|]. done.
Qed.

(** C5. In a state Connected or Connecting, [connect()] only logs that it
    skips: the manager (connection flag, retry counter, socket), the
    browser's sockets and the timers are what they were, and no socket is
    created.  So calling it twice is calling it once. *)
Theorem connect_is_idempotent w :
  connectionState w = Connected \/ connectionState w = Connecting ->
  exists out,
    connect WebSocket_accepts w = (Return tt, w, out) /\
    sockets_created out = [] /\
    visible out = [] /\
    (connect WebSocket_accepts ;; connect WebSocket_accepts)%js w
      = (Return tt, w, out ++ out).
Proof.
  intros H.
  assert (Hb : connected_or_connecting w = true).
  { unfold connectionState, connected_or_connecting in *.
    destruct (isConnected (mgr w)); [done|]. simpl.
    destruct (bool_decide (ws_readyState w = Some CONNECTING)); [done|].
    by destruct H. }
  assert (Ec : connect WebSocket_accepts w =
    (Return tt, w, [Console log "Already connected or connecting, skipping new connection"])).
  { unfold connect, bind, read. simpl. by rewrite Hb. }
  eexists. split; [apply Ec|]. repeat split.
  unfold bind. by rewrite Ec, Ec.
Qed.

End Guards.

Lemma send_rejected_witness :
  connectionState started <> Connected /\
  (exists out,
     sendMessage Overlay (VStr "hello") "user_message" started = (Return tt, started, out) /\
     ws_sends out = [] /\
     length (notifications "ERROR" out) = 1%nat /\
     visible out =
       [Notify "ERROR" (VObj [("message", VStr "Connection lost. Trying to reconnect...")])]) /\
  (exists out,
     step Overlay no_parse any_url started (RuntimeMessage (SEND_MESSAGE (VStr "hello")))
       = Some (started, out) /\
     ws_sends out = [] /\
     length (notifications "ERROR" out) = 1%nat).
Proof.
  split; [discriminate|].
  apply (send_rejected_when_not_connected Overlay no_parse any_url started).
  discriminate.
Defined.

Lemma connect_idempotent_witness :
  (connectionState (chatting Popup) = Connected \/
   connectionState (chatting Popup) = Connecting) /\
  exists out,
    connect any_url (chatting Popup) = (Return tt, chatting Popup, out) /\
    sockets_created out = [] /\
    visible out = [] /\
    (connect any_url ;; connect any_url)%js (chatting Popup)
      = (Return tt, chatting Popup, out ++ out).
Proof.
  split; [left; reflexivity|].
  apply (connect_is_idempotent any_url (chatting Popup)). left. reflexivity.
Defined.

(** ** The router of inbound messages *)

Lemma run_app v P A es1 es2 w :
  run v P A w (es1 ++ es2) =
    match run v P A w es1 with
    | Some (w1, out1) =>
        match run v P A w1 es2 with
        | Some (w2, out2) => Some (w2, out1 ++ out2)
        | None => None
        end
    | None => None
    end.
Proof.
  revert w. induction es1 as [|e es1 IH]; intros w; simpl.
  - by destruct (run v P A w es2) as [[w2 out2]|].
  - destruct (step v P A w e) as [[w1 out1]|]; [|done].
    rewrite IH. destruct (run v P A w1 es1) as [[w2 out2]|]; [|done].
    destruct (run v P A w2 es2) as [[w3 out3]|]; [|done].
    by rewrite app_assoc.
Qed.

Lemma visible_app out1 out2 : visible (out1 ++ out2) = visible out1 ++ visible out2.
Proof. apply filter_app. Qed.

Section Router.

Variable v : version.
Variable JSON_parse : string -> option value.
Variable WebSocket_accepts : string -> bool.

Lemma unroutable_onmessage raw w :
  unroutable JSON_parse raw = true ->
  exists out, onmessage v JSON_parse raw w = (Return tt, w, out) /\ visible out = [].
Proof.
  unfold unroutable, onmessage, try_catch, handleServerMessage, bind, prop, console, emit.
  destruct (JSON_parse raw) as [data|]; simpl; [|by eexists].
  destruct (get "type" data) as [type|]; simpl; [|by eexists].
  intros H. repeat (apply andb_prop in H as [?%negb_true_iff H]).
  repeat match goal with E : is_str _ type = false |- _ => rewrite E; clear E end.
  simpl. by eexists.
Qed.

(** C7. A message that does not parse or whose [type] is not registered is
    logged and dropped: its handler returns (no exception leaves it), the
    manager, the sockets and the timers are unchanged (so nothing is
    retried), and nothing but console lines is produced (no handler, no
    notification).  Hence a run of events with such a message in it ends in
    the same state, with the same calls outside the console, as the run
    without it. *)
Theorem unroutable_message_is_logged_and_dropped raw :
  unroutable JSON_parse raw = true ->
  (forall w, exists out,
     onmessage v JSON_parse raw w = (Return tt, w, out) /\ visible out = []) /\
  (forall w i es1 es2 w' out,
     run v JSON_parse WebSocket_accepts w (es1 ++ SocketMessage i raw :: es2)
       = Some (w', out) ->
     exists out',
       run v JSON_parse WebSocket_accepts w (es1 ++ es2) = Some (w', out') /\
       visible out' = visible out).
Proof.
  intros H. split; [intros w; by apply unroutable_onmessage|].
  intros w i es1 es2 w' out. rewrite !run_app.
  destruct (run v JSON_parse WebSocket_accepts w es1) as [[w1 out1]|]; [|done].
  simpl.
  destruct (bool_decide (sockets w1 !! i = Some OPEN)
            || bool_decide (sockets w1 !! i = Some CLOSING)); [|done].
  destruct (unroutable_onmessage raw w1 H) as (outm & Em & Vm).
  unfold handle. rewrite Em.
  destruct (run v JSON_parse WebSocket_accepts w1 es2) as [[w2 out2]|]; [|done].
  intros [= <- <-]. eexists. split; [done|].
  by rewrite !visible_app, Vm.
Qed.

End Router.

Lemma unroutable_message_witness :
  unroutable sample_parse "offers_data" = true /\
  (forall w, exists out,
     onmessage Overlay sample_parse "offers_data" w = (Return tt, w, out) /\
     visible out = []) /\
  (forall w i es1 es2 w' out,
     run Overlay sample_parse any_url w (es1 ++ SocketMessage i "offers_data" :: es2)
       = Some (w', out) ->
     exists out',
       run Overlay sample_parse any_url w (es1 ++ es2) = Some (w', out') /\
       visible out' = visible out).
Proof.
  split; [reflexivity|].
  apply (unroutable_message_is_logged_and_dropped Overlay sample_parse any_url "offers_data").
  reflexivity.
Defined.

(** ** No deduplication of chat messages *)

Lemma notifications_visible type out :
  notifications type (visible out) = notifications type out.
Proof.
  induction out as [|e out IH]; [done|].
  unfold visible. rewrite filter_cons. fold (visible out).
  assert (Hcons : forall l, notifications type (e :: l) =
            notifications type [e] ++ notifications type l).
  { intros l. unfold notifications. simpl. by case_match. }
  destruct (decide (is_console e = false)) as [H|H].
  - by rewrite Hcons, IH, <- Hcons.
  - destruct e; (done || by rewrite IH).
Qed.

Section Chat.

Variable v : version.
Variable JSON_parse : string -> option value.
Variable WebSocket_accepts : string -> bool.

Lemma sendMessage_connected v0 w i message type :
  isConnected (mgr w) = true -> ws (mgr w) = Some i -> state_of w i = OPEN ->
  sendMessage v0 message type w =
    (Return tt, w,
     WsSend i (envelope (match v0 with Overlay => "user_message" | Popup => type end)
                        message (now w))
     :: match v0 with Overlay => [] | Popup => [Console log "Sent message"] end).
Proof.
  intros Hc Hws Hs. unfold sendMessage, bind, read. simpl.
  rewrite Hc, Hws. simpl. rewrite Hs. simpl. by destruct v0.
Qed.

Lemma chat_answer_notified w raw data type message :
  JSON_parse raw = Some data ->
  get "type" data = Some type ->
  is_str "bot_response" type || is_str "chat_answer" type = true ->
  get "message" data = Some message ->
  exists out,
    onmessage v JSON_parse raw w = (Return tt, w, out) /\
    visible out = [Notify "NEW_MESSAGE" message].
Proof.
  intros Hp Ht Hs Hm.
  unfold onmessage, try_catch, handleServerMessage, bind, prop, console, emit, notify.
  rewrite Hp. simpl. rewrite Ht. simpl. rewrite Hs. simpl. rewrite Hm. simpl.
  by eexists.
Qed.

(** C6, as the code has it.  The manager keeps no window of fingerprints.
    While it is connected with an open socket, every request to send a chat
    message hands one envelope to the socket, the same message as often as
    it is requested, and leaves the manager unchanged; so a message with
    another content is never dropped either.  Inbound, every chat answer
    of the server is notified as often as it is received. *)
Theorem every_chat_message_is_dispatched w i n :
  isConnected (mgr w) = true -> ws (mgr w) = Some i -> state_of w i = OPEN ->
  (forall message, exists out,
     run v JSON_parse WebSocket_accepts w
       (replicate n (RuntimeMessage (SEND_MESSAGE message))) = Some (w, out) /\
     ws_sends out = replicate n (i, envelope "user_message" message (now w))) /\
  (forall raw data type message,
     JSON_parse raw = Some data ->
     get "type" data = Some type ->
     is_str "bot_response" type || is_str "chat_answer" type = true ->
     get "message" data = Some message ->
     sockets w !! i = Some OPEN ->
     exists out,
       run v JSON_parse WebSocket_accepts w (replicate n (SocketMessage i raw))
         = Some (w, out) /\
       notifications "NEW_MESSAGE" out = replicate n message).
Proof.
  intros Hc Hws Hs. split.
  - intros message. induction n as [|n (out & IH & IHs)]; [by eexists|].
    cbn [replicate run step]. unfold handle, onRuntimeMessage, bind, console, emit.
    destruct v; rewrite !(sendMessage_connected _ w i) by done; rewrite IH;
      (eexists; split; [reflexivity|]); simpl; by rewrite IHs.
  - intros raw data type message Hp Ht Hty Hm Hopen.
    destruct (chat_answer_notified w raw data type message Hp Ht Hty Hm)
      as (outm & Em & Vm).
    assert (Hn : notifications "NEW_MESSAGE" outm = [message]).
    { by rewrite <- notifications_visible, Vm. }
    induction n as [|n (out & IH & IHs)]; [by eexists|].
    simpl. rewrite Hopen. simpl. unfold handle. rewrite Em, IH.
    eexists. split; [reflexivity|].
    unfold notifications in *. by rewrite omap_app, Hn, IHs.
Qed.

End Chat.

(** C6 as stated fails: two identical messages sent at the same instant by
    the connected manager of the overlay version are both handed to the
    socket. *)
Lemma duplicate_chat_messages_both_sent :
  ~ deduplicated Overlay (chatting Overlay) (VStr "hello") /\
  exists w',
    run Overlay no_parse any_url (chatting Overlay)
      [RuntimeMessage (SEND_MESSAGE (VStr "hello"));
       RuntimeMessage (SEND_MESSAGE (VStr "hello"))]
    = Some (w', [WsSend 0 (envelope "user_message" (VStr "hello") 0);
                 WsSend 0 (envelope "user_message" (VStr "hello") 0)]).
Proof.
  split; [|eexists; vm_compute; reflexivity].
  intros (w' & out & E & L). vm_compute in E. injection E as <- <-. discriminate L.
Qed.

Lemma every_chat_message_witness :
  isConnected (mgr (chatting Overlay)) = true /\
  ws (mgr (chatting Overlay)) = Some 0%nat /\
  state_of (chatting Overlay) 0 = OPEN /\
  (forall message, exists out,
     run Overlay sample_parse any_url (chatting Overlay)
       (replicate 2 (RuntimeMessage (SEND_MESSAGE message))) = Some (chatting Overlay, out) /\
     ws_sends out
       = replicate 2 (0%nat, envelope "user_message" message (now (chatting Overlay)))) /\
  (forall raw data type message,
     sample_parse raw = Some data ->
     get "type" data = Some type ->
     is_str "bot_response" type || is_str "chat_answer" type = true ->
     get "message" data = Some message ->
     sockets (chatting Overlay) !! 0%nat = Some OPEN ->
     exists out,
       run Overlay sample_parse any_url (chatting Overlay) (replicate 2 (SocketMessage 0 raw))
         = Some (chatting Overlay, out) /\
       notifications "NEW_MESSAGE" out = replicate 2 message).
Proof.
  split; [reflexivity|]. split; [reflexivity|]. split; [reflexivity|].
  apply (every_chat_message_is_dispatched Overlay sample_parse any_url (chatting Overlay) 0 2);
    reflexivity.
Defined.

(** ** The socket of the manager *)

Lemma settles_refl w : settles w w.
Proof. by split. Qed.

Lemma settles_trans w1 w2 w3 : settles w1 w2 -> settles w2 w3 -> settles w1 w3.
Proof. intros [H1 H2] [H3 H4]. split; [congruence | auto]. Qed.

Lemma settles_one_connecting w w' : settles w w' -> one_connecting w -> one_connecting w'.
Proof. intros [H1 H2] H j Hj. rewrite H1. auto. Qed.

Lemma settles_none_connecting w w' : settles w w' -> none_connecting w -> none_connecting w'.
Proof. intros [H1 H2] H j Hj. by eapply H, H2. Qed.

Lemma none_one_connecting w : none_connecting w -> one_connecting w.
Proof. intros H j Hj. by destruct (H j). Qed.

Lemma settles_set_state w i s : s <> CONNECTING -> settles w (set_state i s w).
Proof.
  intros Hs. split; [done|]. intros j. simpl.
  intros [(-> & ? & _)|(_ & ?)]%list_lookup_insert_Some; done.
Qed.

Lemma calm_ret {A} (a : A) : calm (ret a).
Proof. intros w r w' out [= _ <- _]. apply settles_refl. Qed.

Lemma calm_throw {A} err : calm (@throw A err).
Proof. intros w r w' out [= _ <- _]. apply settles_refl. Qed.

Lemma calm_read {A} (f : world -> A) : calm (read f).
Proof. intros w r w' out [= _ <- _]. apply settles_refl. Qed.

Lemma calm_emit e : calm (emit e).
Proof. intros w r w' out [= _ <- _]. apply settles_refl. Qed.

Lemma calm_update f : (forall w, settles w (f w)) -> calm (update f).
Proof. intros Hf w r w' out [= _ <- _]. apply Hf. Qed.

Lemma calm_bind {A B} (m : M A) (k : A -> M B) :
  calm m -> (forall a, calm (k a)) -> calm (bind m k).
Proof.
  intros Hm Hk w r w' out. unfold bind.
  destruct (m w) as [[[a|err] w1] out1] eqn:Em.
  - destruct (k a w1) as [[r2 w2] out2] eqn:Ek. intros [= _ <- _].
    eapply settles_trans; [by eapply Hm | by eapply Hk].
  - intros [= _ <- _]. by eapply Hm.
Qed.

Lemma calm_try_catch (m handler : M unit) :
  calm m -> calm handler -> calm (try_catch m handler).
Proof.
  intros Hm Hh w r w' out. unfold try_catch.
  destruct (m w) as [[[a|err] w1] out1] eqn:Em.
  - intros [= _ <- _]. by eapply Hm.
  - destruct (handler w1) as [[r2 w2] out2] eqn:Eh. intros [= _ <- _].
    eapply settles_trans; [by eapply Hm | by eapply Hh].
Qed.

Lemma calm_when b (m : M unit) : calm m -> calm (when b m).
Proof. destruct b; [done | intros _; apply calm_ret]. Qed.

Create HintDb calm.

#[local] Hint Resolve calm_ret calm_throw calm_read calm_emit : calm.

Ltac calm_step :=
  first
    [ solve [auto with calm]
    | apply calm_bind; [|intros ?]
    | apply calm_try_catch
    | apply calm_when
    | apply calm_update; intros ?; first [by apply settles_set_state | by split]
    | case_match ].

Ltac calm_all := repeat calm_step.

Lemma calm_ws_close i : calm (ws_close i).
Proof. unfold ws_close. calm_all. Qed.

Lemma calm_setTimeout cb d : calm (setTimeout cb d).
Proof. unfold setTimeout. calm_all. Qed.

Lemma calm_set_isConnected b : calm (set_isConnected b).
Proof. unfold set_isConnected. calm_all. Qed.

Lemma calm_set_reconnectAttempts n : calm (set_reconnectAttempts n).
Proof. unfold set_reconnectAttempts. calm_all. Qed.

Lemma calm_set_apiUrl u : calm (set_apiUrl u).
Proof. unfold set_apiUrl. calm_all. Qed.

#[local] Hint Resolve calm_ws_close calm_setTimeout calm_set_isConnected
  calm_set_reconnectAttempts calm_set_apiUrl : calm.

Lemma calm_attemptReconnect : calm attemptReconnect.
Proof. unfold attemptReconnect, console. calm_all. Qed.

Lemma calm_sendMessage v message type : calm (sendMessage v message type).
Proof. unfold sendMessage, reject_send, console, notify. calm_all. Qed.

Lemma calm_prop k data : calm (prop k data).
Proof. unfold prop. calm_all. Qed.

#[local] Hint Resolve calm_attemptReconnect calm_sendMessage calm_prop : calm.

Lemma calm_onmessage v P raw : calm (onmessage v P raw).
Proof. unfold onmessage, handleServerMessage, handleTabOpen, console, notify. calm_all. Qed.

Lemma calm_onopen v : calm (onopen v).
Proof. unfold onopen, console, notify. calm_all. Qed.

Lemma calm_onclose : calm onclose.
Proof. unfold onclose, console, notify. calm_all. Qed.

Lemma calm_onerror : calm onerror.
Proof. unfold onerror, console. calm_all. Qed.

Lemma calm_onRuntimeMessage v req : calm (onRuntimeMessage v req).
Proof. unfold onRuntimeMessage, teardown_and_reconnect, console. calm_all. Qed.

Lemma bind_inv {A B} (m : M A) (k : A -> M B) w r w' out :
  bind m k w = (r, w', out) ->
  (exists a w1 out1 out2,
     m w = (Return a, w1, out1) /\ k a w1 = (r, w', out2) /\ out = out1 ++ out2) \/
  (exists err, m w = (Throw err, w', out)).
Proof.
  unfold bind. destruct (m w) as [[[a|err] w1] out1].
  - destruct (k a w1) as [[r2 w2] out2] eqn:Ek. intros [= <- <- <-].
    left. by exists a, w1, out1, out2.
  - intros [= <- <- <-]. right. by exists err.
Qed.

Section Sockets.

Variable v : version.
Variable JSON_parse : string -> option value.
Variable WebSocket_accepts : string -> bool.

Lemma not_busy_none_connecting w :
  one_connecting w -> connected_or_connecting w = false -> none_connecting w.
Proof.
  intros H Hb j Hj. pose proof (H j Hj) as Hws.
  unfold connected_or_connecting, ws_readyState, state_of in Hb.
  rewrite Hws, Hj in Hb. by destruct (isConnected (mgr w)).
Qed.

(** The [try ... catch] of [connect], once no socket is connecting. *)
Lemma create_or_retry w r w' out :
  none_connecting w ->
  try_catch
    (console log "Creating new WebSocket connection" ;; new_WebSocket WebSocket_accepts)%js
    (console error "Failed to create WebSocket connection" ;; attemptReconnect)%js w
    = (r, w', out) ->
  one_connecting w'.
Proof.
  intros Hn. unfold try_catch, bind at 1, console at 1, emit at 1, new_WebSocket.
  unfold bind at 1, read at 1.
  destruct (WebSocket_accepts (apiUrl (mgr w))).
  - unfold bind, read, update, emit, set_ws, with_mgr. simpl.
    intros [= _ <- _] j. simpl.
    intros [Hj|[Hle Hj]]%lookup_app_Some; [by destruct (Hn j)|].
    apply list_lookup_singleton_Some in Hj as [Hj _]. f_equal. lia.
  - unfold throw. simpl.
    destruct ((console error "Failed to create WebSocket connection" ;; attemptReconnect)%js w)
      as [[r2 w2] out2] eqn:E.
    intros [= _ <- _]. apply none_one_connecting.
    eapply settles_none_connecting; [|done].
    revert E. apply calm_bind; [apply calm_emit | intros _; apply calm_attemptReconnect].
Qed.

Lemma connect_one_connecting w r w' out :
  one_connecting w -> connect WebSocket_accepts w = (r, w', out) -> one_connecting w'.
Proof.
  intros H. unfold connect. unfold bind at 1, read at 1.
  destruct (connected_or_connecting w) eqn:Hb.
  { unfold console, emit. by intros [= _ <- _]. }
  pose proof (not_busy_none_connecting w H Hb) as Hn.
  match goal with
  | |- (let (_, _) := ?m in _) = _ -> _ => destruct m as [[r1 w1] out1] eqn:E
  end.
  intros [= _ <- _].
  assert (Hpre : calm close_existing).
  { unfold close_existing, console. calm_all. }
  apply bind_inv in E as [([] & w3 & out4 & out5 & E2 & E & _)|(err & E2)].
  - apply Hpre in E2. eapply create_or_retry; [|exact E].
    by eapply settles_none_connecting.
  - apply Hpre in E2. apply none_one_connecting.
    by eapply settles_none_connecting.
Qed.

Lemma handle_one_connecting (m : M unit) w w' out :
  (forall r w1 out1, m w = (r, w1, out1) -> one_connecting w1) ->
  handle m w = (w', out) -> one_connecting w'.
Proof.
  intros Hm. unfold handle. destruct (m w) as [[[[]|err] w1] out1] eqn:Em;
    intros [= <- _]; by eapply Hm.
Qed.

Lemma handle_calm (m : M unit) w w' out :
  calm m -> one_connecting w -> handle m w = (w', out) -> one_connecting w'.
Proof.
  intros Hm Hw. apply handle_one_connecting. intros r w1 out1 E.
  eapply settles_one_connecting; [by eapply Hm | done].
Qed.

(** Opening a socket leaves none connecting: the one that opens was the
    manager's, and the only one. *)
Lemma open_none_connecting w i :
  one_connecting w -> sockets w !! i = Some CONNECTING ->
  ws (mgr w) = Some i /\ none_connecting (set_state i OPEN w).
Proof.
  intros H Hi. split; [by apply H|]. intros j. simpl.
  intros [(_ & ? & _)|(Hne & Hj)]%list_lookup_insert_Some; [done|].
  apply H in Hj. apply H in Hi. congruence.
Qed.

Lemma step_one_connecting w e w' out :
  one_connecting w ->
  step v JSON_parse WebSocket_accepts w e = Some (w', out) ->
  one_connecting w'.
Proof.
  intros H. destruct e as [i|i raw|i failed|n|req|dt|i]; simpl.
  - case_bool_decide as Hi; [|done]. intros [= E].
    eapply handle_calm; [apply calm_onopen| |exact E].
    apply none_one_connecting. by apply open_none_connecting.
  - case_match; [|done]. intros [= E].
    eapply handle_calm; [apply calm_onmessage|done|exact E].
  - destruct (sockets w !! i) as [s|]; [|done]. case_match; [done|]. intros [= E].
    eapply handle_calm; [| |exact E].
    + apply calm_bind; [apply calm_when, calm_onerror | intros _; apply calm_onclose].
    + eapply settles_one_connecting; [by apply settles_set_state | done].
  - destruct (timers w !! n) as [[cb d]|]; [|done]. intros [= E].
    eapply handle_one_connecting; [|exact E]. intros r w1 out1.
    destruct cb; simpl.
    + unfold bind at 1, read at 1. simpl. destruct (isConnected (mgr w)); simpl.
      * unfold ret. by intros [= _ <- _].
      * destruct (connect WebSocket_accepts _) as [[r2 w2] out2] eqn:Ec.
        intros [= _ <- _]. eapply connect_one_connecting; [|exact Ec]. done.
    + apply connect_one_connecting. done.
  - intros [= E]. eapply handle_calm; [apply calm_onRuntimeMessage|done|exact E].
  - case_match; [|done]. by intros [= <- _].
  - case_match; [|done]. intros [= <- _].
    eapply settles_one_connecting; [by apply settles_set_state | done].
Qed.

Lemma run_one_connecting es : forall w w' out,
  one_connecting w ->
  run v JSON_parse WebSocket_accepts w es = Some (w', out) ->
  one_connecting w'.
Proof.
  induction es as [|e es IH]; simpl; intros w w' out H.
  - by intros [= <- _].
  - destruct (step v JSON_parse WebSocket_accepts w e) as [[w1 out1]|] eqn:E1; [|done].
    destruct (run v JSON_parse WebSocket_accepts w1 es) as [[w2 out2]|] eqn:E2; [|done].
    intros [= <- _]. eapply IH; [|exact E2]. by eapply step_one_connecting.
Qed.

Lemma constructor_one_connecting stored t0 :
  one_connecting (fst (constructor v WebSocket_accepts stored t0)).
Proof.
  unfold constructor.
  destruct (handle _ (fresh t0)) as [w out] eqn:E. simpl.
  eapply handle_one_connecting; [|exact E]. intros r w1 out1 Eb.
  apply bind_inv in Eb as [([] & w2 & out2 & out3 & E1 & E2 & _)|(err & E1)].
  - eapply connect_one_connecting; [|exact E2].
    eapply (settles_one_connecting (fresh t0)); [|by intros j].
    revert E1. destruct v, stored; try apply calm_ret. apply calm_when, calm_set_apiUrl.
  - eapply (settles_one_connecting (fresh t0)); [|by intros j].
    revert E1. destruct v, stored; try apply calm_ret. apply calm_when, calm_set_apiUrl.
Qed.

(** In every reachable world, a socket that is connecting is the manager's. *)
Lemma reachable_one_connecting w :
  reachable v JSON_parse WebSocket_accepts w -> one_connecting w.
Proof.
  intros (stored & t0 & es & out & E).
  eapply run_one_connecting; [|exact E]. apply constructor_one_connecting.
Qed.

End Sockets.

(** ** Opening, and changing the address *)

Section Opening.

Variable v : version.
Variable JSON_parse : string -> option value.
Variable WebSocket_accepts : string -> bool.

Lemma onopen_result w i :
  ws (mgr w) = Some i -> state_of w i = OPEN ->
  onopen v w =
    (Return tt,
     World (Manager (Some i) true 0 (apiUrl (mgr w))) (sockets w) (timers w) (now w),
     [Console log "WebSocket connected";
      Notify "CONNECTION_STATUS" (VObj [("connected", VBool true)])]
     ++ match v with
        | Overlay => []
        | Popup => [WsSend i (envelope "sync_history" (VStr "sync_history") (now w));
                    Console log "Sent message"]
        end).
Proof.
  intros Hws Hs. unfold onopen, bind, console, emit, set_isConnected,
    set_reconnectAttempts, notify, update, with_mgr. simpl. rewrite Hws.
  destruct v; [done|].
  erewrite (sendMessage_connected Popup _ i); [done|done|done|by apply Hs].
Qed.

(** C8, as the code has it.  When a connecting socket of a reachable world
    opens, both versions set the retry counter to 0, become Connected and
    emit one CONNECTION_STATUS notification with [connected: true]; the
    popup version then hands the [sync_history] request to the socket that
    opened; the overlay version sends nothing. *)
Theorem open_resets_notifies_and_popup_syncs w i :
  reachable v JSON_parse WebSocket_accepts w ->
  sockets w !! i = Some CONNECTING ->
  exists w' out,
    step v JSON_parse WebSocket_accepts w (SocketOpen i) = Some (w', out) /\
    attempts w' = 0%Z /\
    connectionState w' = Connected /\
    notifications "CONNECTION_STATUS" out = [VObj [("connected", VBool true)]] /\
    ws_sends out =
      match v with
      | Overlay => []
      | Popup => [(i, envelope "sync_history" (VStr "sync_history") (now w))]
      end.
Proof.
  intros Hr Hi. apply reachable_one_connecting in Hr.
  destruct (open_none_connecting w i Hr Hi) as [Hws _].
  unfold step. rewrite bool_decide_eq_true_2 by done. unfold handle.
  rewrite (onopen_result (set_state i OPEN w) i);
    [|done|by eapply state_of_set_state].
  eexists _, _. split; [reflexivity|]. by destruct v.
Qed.

End Opening.

(** C8 as stated fails on the overlay version: its first socket opens, the
    counter is reset and the status notified, and nothing is sent. *)
Lemma overlay_open_sends_no_sync :
  ~ syncs_on_open Overlay (fst (constructor Overlay any_url None 0)) 0 /\
  exists w',
    step Overlay no_parse any_url (fst (constructor Overlay any_url None 0)) (SocketOpen 0)
    = Some (w', [Console log "WebSocket connected";
                 Notify "CONNECTION_STATUS" (VObj [("connected", VBool true)])]).
Proof.
  split; [|eexists; vm_compute; reflexivity].
  intros (w' & out & E & _ & _ & Hs). vm_compute in E. injection E as <- <-. by apply Hs.
Qed.

Lemma started_reachable : reachable Popup no_parse any_url started.
Proof. by exists None, 0%Z, [], []. Qed.

Lemma open_witness :
  reachable Popup no_parse any_url started /\
  sockets started !! 0%nat = Some CONNECTING /\
  exists w' out,
    step Popup no_parse any_url started (SocketOpen 0) = Some (w', out) /\
    attempts w' = 0%Z /\
    connectionState w' = Connected /\
    notifications "CONNECTION_STATUS" out = [VObj [("connected", VBool true)]] /\
    ws_sends out = [(0%nat, envelope "sync_history" (VStr "sync_history") (now started))].
Proof.
  split; [apply started_reachable|]. split; [reflexivity|].
  apply (open_resets_notifies_and_popup_syncs Popup no_parse any_url started 0);
    [apply started_reachable | reflexivity].
Defined.

Section AddressUpdate.

Variable JSON_parse : string -> option value.
Variable WebSocket_accepts : string -> bool.

Lemma state_of_closing w i :
  state_of (set_state i CLOSING w) i <> CONNECTING.
Proof.
  unfold state_of, set_state. simpl.
  destruct (decide (i < length (sockets w))%nat).
  - by rewrite list_lookup_insert_eq.
  - rewrite list_insert_ge by lia. by rewrite lookup_ge_None_2 by lia.
Qed.

Lemma ws_close_result w i :
  exists w',
    ws_close i w = (Return tt, w', [WsClose i]) /\
    mgr w' = mgr w /\ timers w' = timers w /\ now w' = now w /\
    length (sockets w') = length (sockets w) /\
    state_of w' i <> CONNECTING.
Proof.
  unfold ws_close, emit, read, update, when, ret, bind.
  destruct (state_of w i) eqn:Hs; simpl; eexists; (split; [reflexivity|]);
    simpl; rewrite ?length_insert; repeat split;
    first [apply state_of_closing | congruence].
Qed.

(** What [teardown_and_reconnect] leaves behind. *)
Lemma teardown_result w :
  exists w' out,
    teardown_and_reconnect w = (Return tt, w', out) /\
    mgr w' = Manager (ws (mgr w)) false (reconnectAttempts (mgr w)) (apiUrl (mgr w)) /\
    timers w' = timers w ++ [(DelayedConnect, 100%Z)] /\
    length (sockets w') = length (sockets w) /\
    now w' = now w /\
    connected_or_connecting w' = false /\
    out = match ws (mgr w) with Some i => [WsClose i] | None => [] end
          ++ [SetTimeout DelayedConnect 100].
Proof.
  unfold teardown_and_reconnect, set_isConnected, setTimeout, update, with_mgr, read,
    emit, ret, bind, connected_or_connecting, ws_readyState.
  simpl. destruct (ws (mgr w)) as [i|] eqn:Hws; simpl; [|by eexists _, _].
  match goal with
  | |- context [ws_close i ?W] =>
      destruct (ws_close_result W i) as (w1 & -> & Hm & Ht & Hn & Hl & Hs)
  end.
  eexists _, _. split; [reflexivity|]. simpl. rewrite Hm, Ht, Hn, Hl. simpl.
  repeat split. apply bool_decide_eq_false_2. intros [= H]. apply Hs.
  unfold state_of in *. by simpl in *.
Qed.

Lemma close_existing_result w :
  exists w' out,
    close_existing w = (Return tt, w', out) /\
    mgr w' = mgr w /\ timers w' = timers w /\ now w' = now w /\
    length (sockets w') = length (sockets w) /\
    sockets_created out = [] /\ retry_delays out = [] /\
    (connected_or_connecting w = false -> connected_or_connecting w' = false).
Proof.
  unfold close_existing, bind at 1, read at 1.
  destruct (ws (mgr w)) as [i|] eqn:Hws; [|by eexists _, _].
  unfold bind at 1, read at 1, when.
  destruct (negb (bool_decide (state_of w i = CLOSED))); [|by eexists _, _].
  unfold bind, console, emit.
  destruct (ws_close_result w i) as (w1 & -> & Hm & Ht & Hn & Hl & Hs).
  eexists _, _. split; [reflexivity|]. split_and!; try done.
  unfold connected_or_connecting, ws_readyState. rewrite Hm, Hws.
  intros [-> _]%orb_false_elim. simpl.
  apply bool_decide_eq_false_2. by intros [= H].
Qed.

(** [connect()] when the manager is neither connected nor connecting: a
    socket to the current address, or, when the address is refused, what
    [attemptReconnect()] does. *)
Lemma connect_when_idle w :
  connected_or_connecting w = false ->
  exists w' out,
    connect WebSocket_accepts w = (Return tt, w', out) /\
    if WebSocket_accepts (apiUrl (mgr w))
    then attempts w' = attempts w /\
         sockets_created out = [length (sockets w)] /\
         ws (mgr w') = Some (length (sockets w)) /\
         sockets w' !! length (sockets w) = Some CONNECTING /\
         In (NewWebSocket (apiUrl (mgr w)) (length (sockets w))) out
    else sockets_created out = [] /\ ws (mgr w') = ws (mgr w) /\
         if (attempts w <? maxReconnectAttempts)%Z
         then attempts w' = (attempts w + 1)%Z /\
              retry_delays out = [(reconnectDelay * (attempts w + 1))%Z]
         else attempts w' = attempts w /\ retry_delays out = [].
Proof.
  intros Hb. unfold connect. unfold bind at 1, read at 1. rewrite Hb.
  unfold bind at 1.
  destruct (close_existing_result w) as (w1 & out1 & -> & Hm & Ht & Hn & Hl & Hc & Hr & Hi).
  specialize (Hi Hb).
  unfold try_catch, bind at 1, console at 1, emit at 1, new_WebSocket.
  unfold bind at 1, read at 1. rewrite Hm.
  destruct (WebSocket_accepts (apiUrl (mgr w))).
  - unfold bind, read, update, emit, set_ws, with_mgr. simpl.
    eexists _, _. split; [reflexivity|]. simpl.
    unfold attempts, sockets_created in *. rewrite omap_app, Hc, Hm, Hl. simpl.
    repeat split.
    + rewrite lookup_app_r by lia. by rewrite Hl, Nat.sub_diag.
    + apply in_or_app. right. simpl. auto.
  - unfold throw, bind, console, emit. simpl.
    destruct (attemptReconnect_cases w1) as [(_ & Hlt & ->)|([Hbusy|Hge] & text & ->)];
      [|congruence|]; simpl;
      eexists _, _; (split; [reflexivity|]); simpl;
      unfold attempts, sockets_created, retry_delays in *; rewrite !omap_app, ?Hc, ?Hr, Hm in *;
      simpl; (split; [done|]); (split; [done|]);
      destruct (Z.ltb_spec (reconnectAttempts (mgr w)) maxReconnectAttempts); try lia; done.
Qed.

End AddressUpdate.

(** ** The calendar: snapshots and conflicts *)

Import CalendarManager.

Lemma date_lt_before a b : date_lt a b = true <-> before a b.
Proof.
  unfold date_lt, before. split.
  - destruct a as [x|], b as [y|]; try done. intros H%Z.ltb_lt. by exists x, y.
  - intros (x & y & -> & -> & H). by apply Z.ltb_lt.
Qed.

Lemma strict_ne_differ same a b : strict_ne same a b = true <-> differ same a b.
Proof.
  unfold strict_ne, strict_eq, differ. rewrite negb_true_iff.
  destruct (primitive a || primitive b); [by rewrite bool_decide_eq_false|done].
Qed.

Lemma strict_eq_itself a : strict_eq true a a = true.
Proof.
  unfold strict_eq. destruct (primitive a || primitive a); [|done].
  by apply bool_decide_eq_true.
Qed.

Lemma strict_eq_primitive same a b :
  primitive a || primitive b = true -> strict_eq same a b = bool_decide (a = b).
Proof. unfold strict_eq. by intros ->. Qed.

(** C4, as the code has it.  The test of [hasConflicts] on a pair of
    events is true exactly when the first starts before the second ends,
    ends after the second starts, and their ids differ as [!==] has it: as
    values when one of them is a string, a number, a boolean or [null]
    (the ids the class draws are strings), as objects when both are arrays
    or objects.  Hence two events that share one endpoint do not conflict,
    no event conflicts with itself, and [hasConflicts] says whether some
    cached event passes the test against its argument. *)
Theorem conflict_is_open_overlap_of_distinct_events :
  (forall same A B,
     conflict same A B = true <->
     before (start A) (end_ B) /\ before (start B) (end_ A) /\
     differ same (id A) (id B)) /\
  (forall same A B,
     primitive (id A) || primitive (id B) = true ->
     (conflict same A B = true <->
      before (start A) (end_ B) /\ before (start B) (end_ A) /\ id A <> id B)) /\
  (forall same A B,
     end_ A = start B -> conflict same A B = false /\ conflict same B A = false) /\
  (forall A, conflict true A A = false) /\
  (forall same A, primitive (id A) = true -> conflict same A A = false) /\
  (forall c same T,
     hasConflicts c same T = true <->
     exists i E, events c !! i = Some E /\ conflict (same i) E T = true).
Proof.
  assert (Hiff : forall same A B,
    conflict same A B = true <->
    before (start A) (end_ B) /\ before (start B) (end_ A) /\ differ same (id A) (id B)).
  { intros same A B. unfold conflict, eventsOverlap, date_gt.
    rewrite !andb_true_iff, !date_lt_before, strict_ne_differ. tauto. }
  assert (Hirr : forall a, ~ before a a).
  { intros a (x & y & -> & [= <-] & H). lia. }
  split; [exact Hiff|]. split; [|split; [|split; [|split]]].
  - intros same A B Hprim. rewrite Hiff. unfold differ. by rewrite Hprim.
  - intros same A B HAB. split; apply not_true_is_false; rewrite Hiff.
    + intros (_ & H & _). rewrite HAB in H. by apply Hirr in H.
    + intros (H & _ & _). rewrite HAB in H. by apply Hirr in H.
  - intros A. unfold conflict, strict_ne. by rewrite strict_eq_itself.
  - intros same A HA. unfold conflict, strict_ne.
    rewrite strict_eq_primitive by (by rewrite HA).
    by rewrite bool_decide_eq_true_2.
  - intros c same T. unfold hasConflicts. rewrite existsb_exists. split.
    + intros ([i E] & Hin & Hc). apply list_elem_of_In, elem_of_lookup_imap in Hin.
      destruct Hin as (j & y & [= -> ->] & Hj). by exists j, y.
    + intros (i & E & Hi & Hc). exists (i, E). split; [|done].
      apply list_elem_of_In, elem_of_lookup_imap. by exists i, E.
Qed.

Example back_to_back_events_do_not_conflict :
  let ev i a b := Event (VStr i) (VStr "") (Some a) (Some b) (VStr "") (VStr "") (VNum 1) in
  let ten := 36000000%Z in let half_past_ten := 37800000%Z in
  let eleven := 39600000%Z in let half_past_eleven := 41400000%Z in
  let twelve := 43200000%Z in
  forall same,
    conflict same (ev "a" ten eleven) (ev "b" eleven twelve) = false /\
    conflict same (ev "a" ten eleven) (ev "b" half_past_ten half_past_eleven) = true /\
    conflict same (ev "a" ten eleven) (ev "a" ten eleven) = false.
Proof. intros ev ten half_past_ten eleven half_past_eleven twelve same. by vm_compute. Qed.

(** C4 as stated fails on ids that are not primitive values.  Two entries
    of a snapshot with the id [[1]] give two events whose ids are equal
    arrays, and two objects: when the events overlap, they conflict. *)
Lemma equal_array_ids_conflict :
  let ev a b := Event (VArr [VNum 1]) (VStr "") (Some a) (Some b) (VStr "") (VStr "") (VNum 1) in
  let A := ev 36000000%Z 39600000%Z in
  let B := ev 37800000%Z 41400000%Z in
  id A = id B /\
  conflict false A B = true /\
  hasConflicts (Calendar [A; B] (Some [A; B]) false disconnected 0)
               (fun i => Nat.eqb i 1) B = true.
Proof. by vm_compute. Qed.

Section Snapshot.

Variable new_Date : value -> Date.
Variable random_id : nat -> string.








End Snapshot.



(** ** Offers: a status changes only on the server's word *)

Import OffersManager.

Section Offers.

Variable JSON_parse : string -> option value.
Variable rerender_throws : list value -> bool.

Lemma resolved_settled run : forall s b,
  resolved s = Some b -> resolved (foldl (deliver JSON_parse) s run) = Some b.
Proof.
  induction run as [|e run IH]; intros s b Hs; [done|].
  simpl. apply IH.
  destruct e; simpl; unfold onmessage, unless_received, resolve; try done;
    repeat case_match; simpl in *; congruence.
Qed.

(** The promise takes the value of the first answer of the socket: an
    acknowledgement or not, for a message; [false] for an error, a close
    or the timeout. *)
Lemma syncStatusWithServer_first_answer constructed run :
  syncStatusWithServer JSON_parse constructed run =
    if constructed then
      match first_answer run with
      | None => None
      | Some (Received raw) => Some (is_acknowledgement JSON_parse raw)
      | Some _ => Some false
      end
    else Some false.
Proof.
  unfold syncStatusWithServer. destruct constructed; [|done].
  induction run as [|e run IH]; [done|].
  destruct e; simpl; try exact IH.
  all: apply resolved_settled.
  - unfold onmessage, is_acknowledgement, resolve.
    destruct (JSON_parse raw) as [response|]; [|done].
    by destruct (acknowledged response) as [[]|].
  - done.
  - done.
  - done.
Qed.

(** C10. When the synchronisation with the server does not succeed,
    [updateOfferStatus] leaves the offers and their cached copy as they
    were and shows no success.  Whenever it changes them, the socket was
    made and its first answer was an [offer_status_updated] with a truthy
    [success]; it then sets the status of the first offer with this id and
    caches the offers.  The synchronisation fails when the first answer of
    the socket is an error, a close, the timeout, a text that does not
    parse or any other message, and when no socket could be made. *)
Theorem offer_status_changes_only_when_acknowledged offerId newStatus constructed run m :
  syncStatusWithServer JSON_parse constructed run <> Some true ->
  (exists out,
     updateOfferStatus JSON_parse rerender_throws offerId newStatus constructed run m = (m, out) /\
     forall text, ShowSuccess text ∉ out) /\
  (forall run' m' out',
     updateOfferStatus JSON_parse rerender_throws offerId newStatus constructed run' m = (m', out') ->
     m' <> m ->
     constructed = true /\
     (exists raw, first_answer run' = Some (Received raw) /\ is_acknowledgement JSON_parse raw = true) /\
     exists i,
       find_offer offerId (offers m) = Some (Some i) /\
       offers m' = alter (set_status newStatus) i (offers m) /\
       freelaince_offers m' = Some (offers m')) /\
  (forall n e rest,
     match e with
     | Opened => False
     | Received raw => is_acknowledgement JSON_parse raw = false
     | Errored | Closed | TimedOut => True
     end ->
     syncStatusWithServer JSON_parse true (replicate n Opened ++ e :: rest) = Some false) /\
  syncStatusWithServer JSON_parse false run = Some false.
Proof.
  intros Hfail. split; [|split; [|split; [|done]]].
  - unfold updateOfferStatus.
    destruct (syncStatusWithServer JSON_parse constructed run) as [[]|]; [done| |];
      eexists; (split; [reflexivity|]); intros text H;
      repeat (apply elem_of_cons in H as [H|H]; [discriminate|]);
      by apply elem_of_nil in H.
  - intros run' m' out'. unfold updateOfferStatus.
    rewrite syncStatusWithServer_first_answer.
    destruct constructed; [|by intros [= <- _]].
    destruct (first_answer run') as [[]|] eqn:Hf; try by intros [= <- _].
    destruct (is_acknowledgement JSON_parse raw) eqn:Hack; [|by intros [= <- _]].
    destruct (find_offer offerId (offers m)) as [[i|]|] eqn:Hfind;
      try by intros [= <- _].
    intros [= <- _] _. split; [done|]. split; [by exists raw|]. by exists i.
  - intros n e rest He. rewrite syncStatusWithServer_first_answer.
    assert (first_answer (replicate n Opened ++ e :: rest) = Some e) as ->.
    { induction n as [|n IH]; [by destruct e | done]. }
    destruct e; try done. by rewrite He.
Qed.

End Offers.

Lemma offer_status_witness :
  syncStatusWithServer answers true [Opened; Received "error"; Closed] <> Some true /\
  (exists out,
     updateOfferStatus answers (fun _ => false) "12345678" "accepted" true
       [Opened; Received "error"; Closed] two_offers = (two_offers, out) /\
     forall text, OffersManager.ShowSuccess text ∉ out) /\
  (forall run' m' out',
     updateOfferStatus answers (fun _ => false) "12345678" "accepted" true run' two_offers = (m', out') ->
     m' <> two_offers ->
     true = true /\
     (exists raw, first_answer run' = Some (Received raw) /\
                  is_acknowledgement answers raw = true) /\
     exists i,
       find_offer "12345678" (offers two_offers) = Some (Some i) /\
       offers m' = alter (set_status "accepted") i (offers two_offers) /\
       freelaince_offers m' = Some (offers m')) /\
  (forall n e rest,
     match e with
     | Opened => False
     | Received raw => is_acknowledgement answers raw = false
     | Errored | Closed | TimedOut => True
     end ->
     syncStatusWithServer answers true (replicate n Opened ++ e :: rest) = Some false) /\
  syncStatusWithServer answers false [Opened; Received "error"; Closed] = Some false.
Proof.
  split; [discriminate|].
  apply (offer_status_changes_only_when_acknowledged answers (fun _ => false)
           "12345678" "accepted" true
           [Opened; Received "error"; Closed] two_offers).
  discriminate.
Defined.

Example acknowledged_update_is_applied :
  updateOfferStatus answers (fun _ => false) "12345678" "accepted" true
    [Opened; Received "updated"; Closed] two_offers
  = (let os := [VObj [("offer_id", VStr "12345678"); ("status", VStr "accepted")];
                VObj [("offer_id", VStr "87654321"); ("status", VStr "accepted")]] in
     OffersManager.Manager os (Some os),
     [SetButtonLoading "12345678" true; Rerender;
      OffersManager.ShowSuccess "Offer status updated to accepted";
      SetButtonLoading "12345678" false]).
Proof. reflexivity. Qed.

(** When the page cannot be rendered again, the status is set and cached
    all the same, and an error is shown instead of the success. *)
Example acknowledged_update_is_applied_before_the_render :
  updateOfferStatus answers (fun _ => true) "12345678" "accepted" true
    [Opened; Received "updated"; Closed] two_offers
  = (let os := [VObj [("offer_id", VStr "12345678"); ("status", VStr "accepted")];
                VObj [("offer_id", VStr "87654321"); ("status", VStr "accepted")]] in
     OffersManager.Manager os (Some os),
     [SetButtonLoading "12345678" true; Rerender;
      OffersManager.ShowError "Failed to update offer status";
      SetButtonLoading "12345678" false]).
Proof. reflexivity. Qed.


(** * Further properties of the background worker *)

Import JS WebSocketManager.

(** ** Reachable worlds, by induction on the events *)

Lemma reachable_constructor v P A stored t0 :
  reachable v P A (fst (constructor v A stored t0)).
Proof. by exists stored, t0, [], []. Qed.

Lemma reachable_step v P A w e w' out :
  reachable v P A w -> step v P A w e = Some (w', out) -> reachable v P A w'.
Proof.
  intros (stored & t0 & es & out0 & E) Hs.
  exists stored, t0, (es ++ [e]), (out0 ++ (out ++ [])).
  rewrite run_app, E. simpl. by rewrite Hs.
Qed.

Lemma reachable_ind v P A (Inv : world -> Prop) :
  (forall stored t0, Inv (fst (constructor v A stored t0))) ->
  (forall w e w' out,
     reachable v P A w -> Inv w -> step v P A w e = Some (w', out) -> Inv w') ->
  forall w, reachable v P A w -> Inv w.
Proof.
  intros Hinit Hstep w (stored & t0 & es & out & E).
  revert w out E. induction es as [|e es IH] using rev_ind; intros w out.
  - simpl. intros [= <- _]. apply Hinit.
  - rewrite run_app.
    destruct (run v P A (fst (constructor v A stored t0)) es) as [[w1 out1]|] eqn:E1; [|done].
    simpl. destruct (step v P A w1 e) as [[w2 out2]|] eqn:E2; [|done].
    intros [= <- _]. eapply Hstep; [|by eapply IH|exact E2].
    by exists stored, t0, es, out1.
Qed.

(** ** Handlers and relations between worlds *)

Section Tracks.

Variable R : world -> world -> list effect -> Prop.
Hypothesis R_nil : forall w, R w w [].
Hypothesis R_app : forall w1 w2 w3 out1 out2,
  R w1 w2 out1 -> R w2 w3 out2 -> R w1 w3 (out1 ++ out2).

Lemma tracks_ret {A} (a : A) : tracks R (ret a).
Proof. intros w r w' out [= _ <- <-]. apply R_nil. Qed.

Lemma tracks_throw {A} err : tracks R (@throw A err).
Proof. intros w r w' out [= _ <- <-]. apply R_nil. Qed.

Lemma tracks_read {A} (f : world -> A) : tracks R (read f).
Proof. intros w r w' out [= _ <- <-]. apply R_nil. Qed.

Lemma tracks_emit e : (forall w, R w w [e]) -> tracks R (emit e).
Proof. intros He w r w' out [= _ <- <-]. apply He. Qed.

Lemma tracks_update f : (forall w, R w (f w) []) -> tracks R (update f).
Proof. intros Hf w r w' out [= _ <- <-]. apply Hf. Qed.

Lemma tracks_bind {A B} (m : M A) (k : A -> M B) :
  tracks R m -> (forall a, tracks R (k a)) -> tracks R (bind m k).
Proof.
  intros Hm Hk w r w' out E.
  apply bind_inv in E as [(a & w1 & out1 & out2 & E1 & E2 & ->)|(err & E1)].
  - eapply R_app; [by eapply Hm | by eapply Hk].
  - by eapply Hm.
Qed.

Lemma tracks_try_catch (m handler : M unit) :
  tracks R m -> tracks R handler -> tracks R (try_catch m handler).
Proof.
  intros Hm Hh w r w' out. unfold try_catch.
  destruct (m w) as [[[a|err] w1] out1] eqn:Em.
  - intros [= _ <- <-]. by eapply Hm.
  - destruct (handler w1) as [[r2 w2] out2] eqn:Eh. intros [= _ <- <-].
    eapply R_app; [by eapply Hm | by eapply Hh].
Qed.

Lemma tracks_when b (m : M unit) : tracks R m -> tracks R (when b m).
Proof. destruct b; [done | intros _; apply tracks_ret]. Qed.

End Tracks.

Lemma keeps_handle R (m : M unit) w w' out :
  keeps R m -> handle m w = (w', out) -> R w w'.
Proof.
  intros Hm. unfold handle. destruct (m w) as [[[[]|err] w1] out1] eqn:Em;
    intros [= <- _]; by eapply Hm.
Qed.

Ltac tracks_step nil app known side :=
  first
    [ solve [known]
    | eapply tracks_ret; solve [apply nil]
    | eapply tracks_throw; solve [apply nil]
    | eapply tracks_read; solve [apply nil]
    | eapply tracks_emit; intros ?; solve [side]
    | eapply tracks_bind; [solve [apply app] | | intros ?]
    | eapply tracks_try_catch; [solve [apply app] | | ]
    | eapply tracks_when; [solve [apply nil] | ]
    | eapply tracks_update; intros ?; solve [side]
    | case_match ].

Ltac tracks_all nil app known side :=
  unfold keeps; repeat tracks_step nil app known side.

(** *** The link is untouched *)

Lemma link_untouched_refl w : link_untouched w w.
Proof. by repeat split. Qed.

Lemma link_untouched_trans w1 w2 w3 (out1 out2 : list effect) :
  link_untouched w1 w2 -> link_untouched w2 w3 -> link_untouched w1 w3.
Proof. intros (? & ? & ?) (? & ? & ?). repeat split; [congruence | congruence | auto]. Qed.

Ltac link_side := first [by repeat split | (repeat split; simpl; congruence)].

Ltac link_all known :=
  tracks_all link_untouched_refl link_untouched_trans known link_side.

Lemma link_setTimeout cb d : keeps link_untouched (setTimeout cb d).
Proof. unfold setTimeout. link_all fail. Qed.

Lemma link_attemptReconnect : keeps link_untouched attemptReconnect.
Proof.
  unfold attemptReconnect, set_reconnectAttempts.
  link_all ltac:(apply link_setTimeout).
Qed.

Lemma link_sendMessage v message type : keeps link_untouched (sendMessage v message type).
Proof. unfold sendMessage, reject_send. link_all fail. Qed.

Lemma link_onmessage v P raw : keeps link_untouched (onmessage v P raw).
Proof. unfold onmessage, handleServerMessage, handleTabOpen, prop. link_all fail. Qed.

(** *** Nothing but an opening socket connects the manager *)

Lemma stays_offline_refl w : stays_offline w w.
Proof. by intros ?. Qed.

Lemma stays_offline_trans w1 w2 w3 (out1 out2 : list effect) :
  stays_offline w1 w2 -> stays_offline w2 w3 -> stays_offline w1 w3.
Proof. unfold stays_offline. auto. Qed.

Ltac offline_all known :=
  tracks_all stays_offline_refl stays_offline_trans known ltac:(by intros ?).

Lemma offline_attemptReconnect : keeps stays_offline attemptReconnect.
Proof.
  unfold attemptReconnect, set_reconnectAttempts, setTimeout. offline_all fail.
Qed.

Lemma offline_connect A : keeps stays_offline (connect A).
Proof.
  unfold connect, close_existing, ws_close, new_WebSocket, set_ws.
  offline_all ltac:(apply offline_attemptReconnect).
Qed.

Lemma offline_onclose : keeps stays_offline onclose.
Proof.
  unfold onclose, set_isConnected. offline_all ltac:(apply offline_attemptReconnect).
Qed.

(** *** A connected manager has a socket that has opened *)

Lemma link_or_offline_refl w : link_or_offline w w.
Proof. left. apply link_untouched_refl. Qed.

Lemma link_or_offline_trans w1 w2 w3 (out1 out2 : list effect) :
  link_or_offline w1 w2 -> link_or_offline w2 w3 -> link_or_offline w1 w3.
Proof.
  intros [H1|H1] [H2|H2]; try by right.
  - left. by eapply link_untouched_trans.
  - right. destruct H2 as (_ & _ & H2).
    destruct (isConnected (mgr w3)); [|done]. rewrite H2 in H1; done.
Qed.

Lemma link_or_offline_keeps w w' :
  link_or_offline w w' -> connected_socket_opened w -> connected_socket_opened w'.
Proof.
  intros [(Hws & Hs & Hc)|Hoff] H Hc'; [|congruence].
  rewrite Hws, Hs. auto.
Qed.

Ltac link_or_offline_side :=
  first [ by (left; repeat split)
        | by right
        | (left; repeat split; simpl; congruence) ].

Ltac link_or_offline_all known :=
  tracks_all link_or_offline_refl link_or_offline_trans known link_or_offline_side.

Lemma connect_same_or_offline A : keeps link_or_offline (connect A).
Proof.
  intros w r w' out E.
  destruct (connected_or_connecting w) eqn:Hb.
  - left. revert E. unfold connect, bind at 1, read at 1. rewrite Hb.
    unfold console, emit. intros [= _ <- _]. apply link_untouched_refl.
  - right. eapply offline_connect; [exact E|].
    unfold connected_or_connecting in Hb. by apply orb_false_elim in Hb as [-> _].
Qed.

Lemma teardown_offline : keeps link_or_offline teardown_and_reconnect.
Proof.
  intros w r w' out E. right.
  destruct (teardown_result w) as (w1 & out1 & E1 & Hm & _).
  rewrite E1 in E. injection E as _ <- _. by rewrite Hm.
Qed.

Lemma link_or_offline_attemptReconnect : keeps link_or_offline attemptReconnect.
Proof. intros w r w' out E. left. by eapply link_attemptReconnect. Qed.

Lemma link_or_offline_sendMessage v message type :
  keeps link_or_offline (sendMessage v message type).
Proof. intros w r w' out E. left. by eapply link_sendMessage. Qed.

Lemma link_or_offline_onmessage v P raw : keeps link_or_offline (onmessage v P raw).
Proof. intros w r w' out E. left. by eapply link_onmessage. Qed.

Lemma link_or_offline_run_callback A cb : keeps link_or_offline (run_callback A cb).
Proof. unfold run_callback. link_or_offline_all ltac:(apply connect_same_or_offline). Qed.

Lemma link_or_offline_onRuntimeMessage v req : keeps link_or_offline (onRuntimeMessage v req).
Proof.
  unfold onRuntimeMessage, set_apiUrl.
  link_or_offline_all ltac:(first [apply teardown_offline | apply link_or_offline_sendMessage]).
Qed.

Lemma onclose_offline w failed r w' out :
  (when failed onerror ;; onclose)%js w = (r, w', out) -> isConnected (mgr w') = false.
Proof.
  intros E.
  apply bind_inv in E as [([] & w1 & o1 & o2 & _ & E & _)|(err & E)].
  2: { destruct failed; [|discriminate E]. revert E.
       unfold when, onerror, bind, console, emit, set_isConnected, update. discriminate. }
  unfold onclose in E.
  apply bind_inv in E as [([] & w2 & o3 & o4 & _ & E & _)|(err & E)]; [|discriminate E].
  apply bind_inv in E as [([] & w3 & o5 & o6 & E3 & E & _)|(err & E)]; [|discriminate E].
  injection E3 as <- _.
  apply bind_inv in E as [([] & w4 & o7 & o8 & E4 & E & _)|(err & E)]; [|discriminate E].
  injection E4 as <- _.
  by eapply offline_attemptReconnect.
Qed.

Section ConnectedOpen.

Variable v : version.
Variable JSON_parse : string -> option value.
Variable WebSocket_accepts : string -> bool.

Lemma constructor_connected_socket_opened stored t0 :
  connected_socket_opened (fst (constructor v WebSocket_accepts stored t0)).
Proof.
  unfold constructor.
  destruct (handle _ (fresh t0)) as [w out] eqn:E. simpl.
  eapply (link_or_offline_keeps (fresh t0)); [|done].
  eapply keeps_handle; [|exact E].
  unfold set_apiUrl.
  link_or_offline_all ltac:(apply connect_same_or_offline).
Qed.

Lemma step_connected_socket_opened w e w' out :
  one_connecting w -> connected_socket_opened w ->
  step v JSON_parse WebSocket_accepts w e = Some (w', out) ->
  connected_socket_opened w'.
Proof.
  intros H1 H2. destruct e as [i|i raw|i failed|n|req|dt|i]; simpl.
  - case_bool_decide as Hi; [|done]. intros [= E].
    destruct (open_none_connecting w i H1 Hi) as [Hws _].
    unfold handle in E.
    rewrite (onopen_result v (set_state i OPEN w) i) in E;
      [|done|by eapply state_of_set_state].
    injection E as <- _. intros _. exists i. split; [done|]. left. simpl.
    apply list_lookup_insert_eq. by eapply lookup_lt_Some.
  - case_match; [|done]. intros [= E].
    eapply link_or_offline_keeps; [|done].
    eapply keeps_handle; [apply link_or_offline_onmessage|exact E].
  - destruct (sockets w !! i) as [s|]; [|done]. case_match; [done|]. intros [= E].
    intros Hc. unfold handle in E.
    destruct ((when failed onerror ;; onclose)%js (set_state i CLOSED w))
      as [[[[]|err] w1] out1] eqn:Em; injection E as <- _;
      apply onclose_offline in Em; congruence.
  - destruct (timers w !! n) as [[cb d]|]; [|done]. intros [= E].
    eapply link_or_offline_keeps; [|exact H2].
    apply (keeps_handle link_or_offline) in E; [|apply link_or_offline_run_callback].
    destruct E as [(? & ? & ?)|?]; [left; by repeat split | by right].
  - intros [= E]. eapply link_or_offline_keeps; [|done].
    eapply keeps_handle; [apply link_or_offline_onRuntimeMessage|exact E].
  - case_match; [|done]. by intros [= <- _].
  - case_match; [|done]. intros [= <- _] Hc.
    destruct (H2 Hc) as (j & Hws & Hj). exists j. split; [done|]. simpl.
    destruct (decide (j = i)) as [->|Hne].
    + right. apply list_lookup_insert_eq.
      destruct Hj as [Hj|Hj]; by eapply lookup_lt_Some.
    + by rewrite list_lookup_insert_ne.
Qed.

(** In every reachable world, a manager whose flag says connected has a
    socket, which is open or closing. *)
Lemma reachable_connected_socket_opened w :
  reachable v JSON_parse WebSocket_accepts w -> connected_socket_opened w.
Proof.
  apply reachable_ind.
  - apply constructor_connected_socket_opened.
  - intros w0 e w' out Hr H. apply step_connected_socket_opened; [|done].
    by eapply reachable_one_connecting.
Qed.

End ConnectedOpen.

(** *** No exception leaves a handler *)

Lemma nothing_uncaught_nil (w : world) : nothing_uncaught w w [].
Proof. done. Qed.

Lemma nothing_uncaught_app (w1 w2 w3 : world) out1 out2 :
  nothing_uncaught w1 w2 out1 -> nothing_uncaught w2 w3 out2 ->
  nothing_uncaught w1 w3 (out1 ++ out2).
Proof. unfold nothing_uncaught. intros H1 H2. by rewrite omap_app, H1, H2. Qed.

Ltac uncaught_all known :=
  tracks_all nothing_uncaught_nil nothing_uncaught_app known ltac:(reflexivity).

Lemma uncaught_attemptReconnect : tracks nothing_uncaught attemptReconnect.
Proof. unfold attemptReconnect, set_reconnectAttempts, setTimeout. uncaught_all fail. Qed.

Lemma uncaught_connect A : tracks nothing_uncaught (connect A).
Proof.
  unfold connect, close_existing, ws_close, new_WebSocket, set_ws.
  uncaught_all ltac:(apply uncaught_attemptReconnect).
Qed.

Lemma uncaught_sendMessage v message type :
  tracks nothing_uncaught (sendMessage v message type).
Proof. unfold sendMessage, reject_send. uncaught_all fail. Qed.

Lemma uncaught_onmessage v P raw : tracks nothing_uncaught (onmessage v P raw).
Proof. unfold onmessage, handleServerMessage, handleTabOpen, prop. uncaught_all fail. Qed.

Lemma uncaught_onopen v : tracks nothing_uncaught (onopen v).
Proof.
  unfold onopen, set_isConnected, set_reconnectAttempts.
  uncaught_all ltac:(apply uncaught_sendMessage).
Qed.

Lemma uncaught_close_handlers failed :
  tracks nothing_uncaught (when failed onerror ;; onclose)%js.
Proof.
  unfold onerror, onclose, set_isConnected.
  uncaught_all ltac:(apply uncaught_attemptReconnect).
Qed.

Lemma uncaught_run_callback A cb : tracks nothing_uncaught (run_callback A cb).
Proof. unfold run_callback. uncaught_all ltac:(apply uncaught_connect). Qed.

Lemma uncaught_onRuntimeMessage v req : tracks nothing_uncaught (onRuntimeMessage v req).
Proof.
  unfold onRuntimeMessage, teardown_and_reconnect, set_apiUrl, set_isConnected,
    ws_close, setTimeout.
  uncaught_all ltac:(apply uncaught_sendMessage).
Qed.

Lemma returns_bind (m k : M unit) w w1 out1 :
  m w = (Return tt, w1, out1) -> returns k w1 -> returns (m ;; k)%js w.
Proof.
  intros Em (w2 & out2 & Ek). unfold returns, bind. rewrite Em, Ek. by eexists _, _.
Qed.

Lemma returns_attemptReconnect w : returns attemptReconnect w.
Proof.
  destruct (attemptReconnect_cases w) as [(_ & _ & E)|(_ & text & E)];
    unfold returns; rewrite E; by eexists _, _.
Qed.

Lemma returns_connect A w : returns (connect A) w.
Proof.
  destruct (connected_or_connecting w) eqn:Hb.
  - unfold returns, connect, bind at 1, read at 1. rewrite Hb. by eexists _, _.
  - destruct (connect_when_idle A w Hb) as (w' & out & E & _). by exists w', out.
Qed.

Lemma returns_close_handlers failed w : returns (when failed onerror ;; onclose)%js w.
Proof.
  unfold returns, onclose, onerror, bind, when, console, emit, set_isConnected,
    notify, update, with_mgr, ret.
  destruct failed; simpl;
    match goal with
    | |- context [attemptReconnect ?W] =>
        destruct (returns_attemptReconnect W) as (w' & out & ->)
    end; by eexists _, _.
Qed.

Lemma returns_onmessage v P raw w : returns (onmessage v P raw) w.
Proof.
  unfold returns, onmessage, try_catch, console, emit.
  match goal with |- context [match ?m w with _ => _ end] =>
    destruct (m w) as [[[[]|err] w1] out1] end; by eexists _, _.
Qed.

Lemma returns_sendMessage v message type w :
  (isConnected (mgr w) = true -> ws (mgr w) <> None) ->
  returns (sendMessage v message type) w.
Proof.
  intros H. unfold returns, sendMessage, reject_send, bind, read, console, notify, emit.
  simpl. destruct (isConnected (mgr w)); [|by eexists _, _].
  destruct (ws (mgr w)) as [i|]; [|by destruct H].
  destruct (bool_decide (state_of w i = OPEN)), v; by eexists _, _.
Qed.

Lemma returns_run_callback A cb w : returns (run_callback A cb) w.
Proof.
  unfold run_callback. destruct cb; [|apply returns_connect].
  unfold returns, bind, read, when. simpl.
  destruct (isConnected (mgr w)); simpl; [by eexists _, _|].
  destruct (returns_connect A w) as (w' & out & ->). by eexists _, _.
Qed.

Lemma returns_onRuntimeMessage v req w :
  (isConnected (mgr w) = true -> ws (mgr w) <> None) ->
  returns (onRuntimeMessage v req) w.
Proof.
  intros H.
  assert (Hs : forall message type, returns (sendMessage v message type) w)
    by (intros; by apply returns_sendMessage).
  assert (Ht : forall w0, returns teardown_and_reconnect w0).
  { intros w0. destruct (teardown_result w0) as (w1 & out1 & E & _). by exists w1, out1. }
  unfold returns, onRuntimeMessage.
  destruct v, req; unfold bind, console, emit, read, set_apiUrl, update, ret; simpl;
    try (by eexists _, _);
    try (match goal with |- context [sendMessage ?a ?b ?c w] =>
           destruct (Hs b c) as (w1 & out1 & ->) end; by eexists _, _);
    try (match goal with |- context [teardown_and_reconnect ?W] =>
           destruct (Ht W) as (w1 & out1 & ->) end; by eexists _, _).
Qed.

Lemma handle_returns (m : M unit) w w' out :
  returns m w -> tracks nothing_uncaught m -> handle m w = (w', out) ->
  uncaught out = [].
Proof.
  intros (w1 & out1 & E) Hm. unfold handle. rewrite E. intros [= _ <-].
  by eapply Hm.
Qed.

Section NothingUncaught.

Variable v : version.
Variable JSON_parse : string -> option value.
Variable WebSocket_accepts : string -> bool.

(** X1. In every reachable world, whatever the browser delivers next, the
    handler it runs returns: no exception leaves it.  The exceptions of the
    handlers are the TypeError of a property read on [null] (a parsed
    [null], [this.ws.readyState] without a socket) and the errors thrown by
    [JSON.parse] and by [new WebSocket]; the first cannot occur in
    [sendMessage], since a connected manager has a socket, and the others
    are caught where they are thrown. *)
Theorem no_exception_leaves_a_handler w e w' out :
  reachable v JSON_parse WebSocket_accepts w ->
  step v JSON_parse WebSocket_accepts w e = Some (w', out) ->
  uncaught out = [].
Proof.
  intros Hr.
  pose proof (reachable_one_connecting v _ _ w Hr) as H1.
  pose proof (reachable_connected_socket_opened v _ _ w Hr) as H2.
  assert (H3 : isConnected (mgr w) = true -> ws (mgr w) <> None).
  { intros Hc. destruct (H2 Hc) as (i & -> & _). done. }
  destruct e as [i|i raw|i failed|n|req|dt|i]; simpl.
  - case_bool_decide as Hi; [|done]. intros [= E].
    destruct (open_none_connecting w i H1 Hi) as [Hws _].
    eapply handle_returns; [|apply uncaught_onopen|exact E].
    unfold returns. rewrite (onopen_result v (set_state i OPEN w) i);
      [by eexists _, _|done|by eapply state_of_set_state].
  - case_match; [|done]. intros [= E].
    eapply handle_returns; [apply returns_onmessage|apply uncaught_onmessage|exact E].
  - destruct (sockets w !! i) as [s|]; [|done]. case_match; [done|]. intros [= E].
    eapply handle_returns;
      [apply returns_close_handlers|apply uncaught_close_handlers|exact E].
  - destruct (timers w !! n) as [[cb d]|]; [|done]. intros [= E].
    eapply handle_returns;
      [apply returns_run_callback|apply uncaught_run_callback|exact E].
  - intros [= E].
    eapply handle_returns;
      [by apply returns_onRuntimeMessage|apply uncaught_onRuntimeMessage|exact E].
  - case_match; [|done]. by intros [= _ <-].
  - case_match; [|done]. by intros [= _ <-].
Qed.

(** X2. In every reachable world in which the manager says it is connected
    (the answer to GET_CONNECTION_STATUS), its socket exists and has opened.
    While the socket is open, a SEND_MESSAGE request hands exactly one
    envelope to it, with no ERROR notification.  Once the closing handshake
    has started and until the close event is handled, the manager still
    says it is connected, but the request sends nothing and the surfaces
    get one ERROR notification. *)
Theorem connected_manager_sends w message :
  reachable v JSON_parse WebSocket_accepts w ->
  isConnected (mgr w) = true ->
  exists i out,
    ws (mgr w) = Some i /\
    step v JSON_parse WebSocket_accepts w (RuntimeMessage GET_CONNECTION_STATUS)
      = Some (w, match v with
                 | Overlay => []
                 | Popup => [Console log "Background received message"]
                 end ++ [SendResponse (VObj [("connected", VBool true)])]) /\
    step v JSON_parse WebSocket_accepts w (RuntimeMessage (SEND_MESSAGE message))
      = Some (w, out) /\
    (sockets w !! i = Some OPEN /\
     ws_sends out = [(i, envelope "user_message" message (now w))] /\
     notifications "ERROR" out = []
     \/
     sockets w !! i = Some CLOSING /\
     ws_sends out = [] /\
     notifications "ERROR" out
       = [VObj [("message", VStr "Connection lost. Trying to reconnect...")]]).
Proof.
  intros Hr Hc.
  destruct (reachable_connected_socket_opened v _ _ w Hr Hc) as (i & Hws & [Hi|Hi]).
  - assert (Hs : state_of w i = OPEN) by (unfold state_of; by rewrite Hi).
    destruct v; exists i; eexists; (split; [done|]); split.
    all: try (unfold step, handle, onRuntimeMessage, bind, console, emit, read;
              simpl; by rewrite Hc).
    all: unfold step, handle, onRuntimeMessage, bind, console, emit;
      rewrite !(sendMessage_connected _ w i) by done; (split; [reflexivity|]);
      left; done.
  - assert (Hs : state_of w i = CLOSING) by (unfold state_of; by rewrite Hi).
    destruct v; exists i; eexists; (split; [done|]); split.
    all: try (unfold step, handle, onRuntimeMessage, bind, console, emit, read;
              simpl; by rewrite Hc).
    all: unfold step, handle, onRuntimeMessage, sendMessage, reject_send, notify,
           bind, console, emit, read; simpl;
      rewrite Hc, Hws; simpl; rewrite Hs; simpl; (split; [reflexivity|]);
      right; done.
Qed.

End NothingUncaught.

Lemma started_worlds_reachable :
  reachable Popup no_parse any_url started /\
  reachable Popup no_parse any_url (chatting Popup) /\
  reachable Overlay no_parse any_url (chatting Overlay) /\
  reachable Popup no_parse any_url exhausted.
Proof.
  split; [apply reachable_constructor|]. split; [|split].
  - exists None, 0%Z, [SocketOpen 0]. eexists. vm_compute. reflexivity.
  - exists None, 0%Z, [SocketOpen 0]. eexists. vm_compute. reflexivity.
  - exists None, 0%Z, (five_failures ++ [SocketClose 5 true]). eexists.
    vm_compute. reflexivity.
Qed.

Lemma no_exception_witness :
  reachable Popup no_parse any_url exhausted /\
  match step Popup no_parse any_url exhausted (RuntimeMessage (SEND_MESSAGE (VStr "hello"))) with
  | Some (w', out) => uncaught out = []
  | None => False
  end.
Proof.
  split; [apply started_worlds_reachable|].
  destruct (step Popup no_parse any_url exhausted (RuntimeMessage (SEND_MESSAGE (VStr "hello"))))
    as [[w' out]|] eqn:E; [|discriminate E].
  eapply (no_exception_leaves_a_handler Popup no_parse any_url exhausted);
    [apply started_worlds_reachable | exact E].
Defined.

Lemma connected_manager_sends_witness :
  reachable Overlay no_parse any_url (chatting Overlay) /\
  isConnected (mgr (chatting Overlay)) = true /\
  exists i out,
    ws (mgr (chatting Overlay)) = Some i /\
    step Overlay no_parse any_url (chatting Overlay) (RuntimeMessage GET_CONNECTION_STATUS)
      = Some (chatting Overlay, [] ++ [SendResponse (VObj [("connected", VBool true)])]) /\
    step Overlay no_parse any_url (chatting Overlay)
      (RuntimeMessage (SEND_MESSAGE (VStr "hello"))) = Some (chatting Overlay, out) /\
    (sockets (chatting Overlay) !! i = Some OPEN /\
     ws_sends out = [(i, envelope "user_message" (VStr "hello") (now (chatting Overlay)))] /\
     notifications "ERROR" out = []
     \/
     sockets (chatting Overlay) !! i = Some CLOSING /\
     ws_sends out = [] /\
     notifications "ERROR" out
       = [VObj [("message", VStr "Connection lost. Trying to reconnect...")]]).
Proof.
  split; [apply started_worlds_reachable|]. split; [reflexivity|].
  apply (connected_manager_sends Overlay no_parse any_url (chatting Overlay) (VStr "hello"));
    [apply started_worlds_reachable | reflexivity].
Defined.

(** A socket that is closing: the manager answers that it is connected and
    rejects the message. *)
Example closing_socket_rejects_send :
  match run Overlay no_parse any_url (chatting Overlay) [SocketClosing 0] with
  | Some (w, _) =>
      reachable Overlay no_parse any_url w /\
      isConnected (mgr w) = true /\ sockets w = [CLOSING] /\
      step Overlay no_parse any_url w (RuntimeMessage GET_CONNECTION_STATUS)
        = Some (w, [SendResponse (VObj [("connected", VBool true)])]) /\
      step Overlay no_parse any_url w (RuntimeMessage (SEND_MESSAGE (VStr "hello")))
        = Some (w, [Console error "WebSocket is not connected";
                    Notify "ERROR"
                      (VObj [("message", VStr "Connection lost. Trying to reconnect...")])])
  | None => False
  end.
Proof.
  vm_compute. split; [|done].
  exists None, 0%Z, [SocketOpen 0; SocketClosing 0]. eexists. vm_compute. reflexivity.
Qed.

(** *** One live socket *)

Lemma no_new_life_refl w : no_new_life w w.
Proof. by split. Qed.

Lemma no_new_life_trans w1 w2 w3 (out1 out2 : list effect) :
  no_new_life w1 w2 -> no_new_life w2 w3 -> no_new_life w1 w3.
Proof. intros [H1 H2] [H3 H4]. split; [congruence | auto]. Qed.

Lemma no_new_life_set_state w i s : live s = false -> no_new_life w (set_state i s w).
Proof.
  intros Hs. split; [done|]. intros j s'. simpl.
  intros [(-> & <- & _)|(_ & ?)]%list_lookup_insert_Some; [congruence | done].
Qed.

Lemma no_new_life_single w w' :
  no_new_life w w' -> single_live_socket w -> single_live_socket w'.
Proof. intros [H1 H2] H j s Hj Hs. rewrite H1. eauto. Qed.

Lemma no_new_life_none w w' : no_new_life w w' -> none_live w -> none_live w'.
Proof.
  intros [H1 H2] H j s Hj. destruct (live s) eqn:Hs; [|done].
  rewrite <- Hs. eapply H. eauto.
Qed.

Lemma none_single_live w : none_live w -> single_live_socket w.
Proof. intros H j s Hj Hs. rewrite (H j s Hj) in Hs. done. Qed.

Ltac life_side := first [by apply no_new_life_set_state | by split].

Ltac life_all known := tracks_all no_new_life_refl no_new_life_trans known life_side.

Lemma life_attemptReconnect : keeps no_new_life attemptReconnect.
Proof. unfold attemptReconnect, set_reconnectAttempts, setTimeout. life_all fail. Qed.

Lemma life_sendMessage v message type : keeps no_new_life (sendMessage v message type).
Proof. unfold sendMessage, reject_send. life_all fail. Qed.

Lemma life_onmessage v P raw : keeps no_new_life (onmessage v P raw).
Proof. unfold onmessage, handleServerMessage, handleTabOpen, prop. life_all fail. Qed.

Lemma life_onopen v : keeps no_new_life (onopen v).
Proof.
  unfold onopen, set_isConnected, set_reconnectAttempts.
  life_all ltac:(apply life_sendMessage).
Qed.

Lemma life_close_handlers failed : keeps no_new_life (when failed onerror ;; onclose)%js.
Proof.
  unfold onerror, onclose, set_isConnected. life_all ltac:(apply life_attemptReconnect).
Qed.

Lemma life_ws_close i : keeps no_new_life (ws_close i).
Proof. unfold ws_close. life_all fail. Qed.

Lemma life_onRuntimeMessage v req : keeps no_new_life (onRuntimeMessage v req).
Proof.
  unfold onRuntimeMessage, teardown_and_reconnect, set_apiUrl, set_isConnected, setTimeout.
  life_all ltac:(first [apply life_sendMessage | apply life_ws_close]).
Qed.

(** After "close existing connection if any" no socket is live. *)
Lemma close_existing_none_live w r w' out :
  single_live_socket w -> close_existing w = (r, w', out) -> none_live w'.
Proof.
  intros H. unfold close_existing, ws_close, when, console, emit, read, update, ret, bind.
  destruct (ws (mgr w)) as [i|] eqn:Hws.
  2: { intros [= _ <- _] j s Hj. destruct (live s) eqn:Hs; [|done].
       specialize (H j s Hj Hs). congruence. }
  assert (Hother : forall j s, sockets w !! j = Some s -> live s = true -> j = i).
  { intros j s Hj Hs. specialize (H j s Hj Hs). congruence. }
  assert (Hdead : live (state_of w i) = false -> none_live w).
  { intros Hd j s Hj. destruct (live s) eqn:Hl; [|done].
    pose proof (Hother j s Hj Hl) as ->. unfold state_of in Hd. rewrite Hj in Hd.
    simpl in Hd. congruence. }
  assert (Hclosing : none_live (set_state i CLOSING w)).
  { intros j s. simpl.
    intros [(? & ? & ?)|(Hne & Hj)]%list_lookup_insert_Some; [by subst|].
    destruct (live s) eqn:Hl; [|done]. by destruct Hne, (Hother j s Hj Hl). }
  destruct (state_of w i) eqn:Hs; simpl; intros E; rewrite ?Hs in E; simpl in E;
    inversion E; subst; auto.
Qed.

Lemma create_or_retry_single A w r w' out :
  none_live w ->
  try_catch
    (console log "Creating new WebSocket connection" ;; new_WebSocket A)%js
    (console error "Failed to create WebSocket connection" ;; attemptReconnect)%js w
    = (r, w', out) ->
  single_live_socket w'.
Proof.
  intros Hn. unfold try_catch, bind at 1, console at 1, emit at 1, new_WebSocket.
  unfold bind at 1, read at 1.
  destruct (A (apiUrl (mgr w))).
  - unfold bind, read, update, emit, set_ws, with_mgr. simpl.
    intros [= _ <- _] j s. simpl.
    intros [Hj|[Hle Hj]]%lookup_app_Some Hs; [by rewrite (Hn j s Hj) in Hs|].
    apply list_lookup_singleton_Some in Hj as [Hj _]. f_equal. lia.
  - unfold throw. simpl.
    destruct ((console error "Failed to create WebSocket connection" ;; attemptReconnect)%js w)
      as [[r2 w2] out2] eqn:E.
    intros [= _ <- _]. apply none_single_live.
    eapply no_new_life_none; [|done].
    revert E. generalize w r2 w2 out2.
    change (keeps no_new_life
      (console error "Failed to create WebSocket connection" ;; attemptReconnect)%js).
    life_all ltac:(apply life_attemptReconnect).
Qed.

Lemma connect_single_live A w r w' out :
  single_live_socket w -> connect A w = (r, w', out) -> single_live_socket w'.
Proof.
  intros H. unfold connect. unfold bind at 1, read at 1.
  destruct (connected_or_connecting w) eqn:Hb.
  { unfold console, emit. by intros [= _ <- _]. }
  match goal with
  | |- (let (_, _) := ?m in _) = _ -> _ => destruct m as [[r1 w1] out1] eqn:E
  end.
  intros [= _ <- _].
  apply bind_inv in E as [([] & w3 & out4 & out5 & E2 & E & _)|(err & E2)].
  - eapply create_or_retry_single; [|exact E]. by eapply close_existing_none_live.
  - apply none_single_live. by eapply close_existing_none_live.
Qed.

Section SingleSocket.

Variable v : version.
Variable JSON_parse : string -> option value.
Variable WebSocket_accepts : string -> bool.

Lemma handle_single_live (m : M unit) w w' out :
  (forall r w1 out1, m w = (r, w1, out1) -> single_live_socket w1) ->
  handle m w = (w', out) -> single_live_socket w'.
Proof.
  intros Hm. unfold handle. destruct (m w) as [[[[]|err] w1] out1] eqn:Em;
    intros [= <- _]; by eapply Hm.
Qed.

Lemma step_single_live w e w' out :
  single_live_socket w ->
  step v JSON_parse WebSocket_accepts w e = Some (w', out) ->
  single_live_socket w'.
Proof.
  intros H. destruct e as [i|i raw|i failed|n|req|dt|i]; simpl.
  - case_bool_decide as Hi; [|done]. intros [= E].
    eapply no_new_life_single; [eapply keeps_handle; [apply life_onopen|exact E]|].
    pose proof (H i CONNECTING Hi eq_refl) as Hws.
    intros j s. simpl.
    intros [(<- & _)|(_ & Hj)]%list_lookup_insert_Some Hs; [done | eauto].
  - case_match; [|done]. intros [= E].
    eapply no_new_life_single; [eapply keeps_handle; [apply life_onmessage|exact E]|done].
  - destruct (sockets w !! i) as [s|]; [|done]. case_match; [done|]. intros [= E].
    eapply no_new_life_single;
      [eapply keeps_handle; [apply life_close_handlers|exact E]|].
    eapply no_new_life_single; [by apply no_new_life_set_state | done].
  - destruct (timers w !! n) as [[cb d]|]; [|done]. intros [= E].
    eapply handle_single_live; [|exact E]. intros r w1 out1.
    destruct cb; simpl.
    + unfold bind at 1, read at 1. simpl. destruct (isConnected (mgr w)); simpl.
      * unfold ret. by intros [= _ <- _].
      * destruct (connect WebSocket_accepts _) as [[r2 w2] out2] eqn:Ec.
        intros [= _ <- _]. eapply connect_single_live; [|exact Ec]. done.
    + apply connect_single_live. done.
  - intros [= E].
    eapply no_new_life_single;
      [eapply keeps_handle; [apply life_onRuntimeMessage|exact E]|done].
  - case_match; [|done]. by intros [= <- _].
  - case_match; [|done]. intros [= <- _].
    eapply no_new_life_single; [by apply no_new_life_set_state | done].
Qed.

Lemma constructor_single_live stored t0 :
  single_live_socket (fst (constructor v WebSocket_accepts stored t0)).
Proof.
  unfold constructor.
  destruct (handle _ (fresh t0)) as [w out] eqn:E. simpl.
  eapply handle_single_live; [|exact E]. intros r w1 out1 Eb.
  assert (Hpre : keeps no_new_life
    match v, stored with
    | Popup, Some url => when (negb (String.eqb url "")) (set_apiUrl url)
    | _, _ => ret tt
    end).
  { unfold set_apiUrl. life_all fail. }
  assert (H0 : single_live_socket (fresh t0)) by (by intros j s).
  apply bind_inv in Eb as [([] & w2 & out2 & out3 & E1 & E2 & _)|(err & E1)].
  - eapply connect_single_live; [|exact E2].
    eapply no_new_life_single; [by eapply Hpre | done].
  - eapply no_new_life_single; [by eapply Hpre | done].
Qed.

(** X3. In every reachable world at most one socket is connecting or open,
    and it is the socket the manager holds: every other socket ever created
    is closing or closed. *)
Theorem one_live_socket w j s :
  reachable v JSON_parse WebSocket_accepts w ->
  sockets w !! j = Some s ->
  ws (mgr w) <> Some j ->
  s = CLOSING \/ s = CLOSED.
Proof.
  intros Hr Hj Hne.
  assert (H : single_live_socket w).
  { revert Hr. apply reachable_ind.
    - apply constructor_single_live.
    - intros w0 e w' out _. apply step_single_live. }
  specialize (H j s Hj). destruct s; auto; by destruct Hne, H.
Qed.

End SingleSocket.

Lemma one_live_socket_witness :
  reachable Popup no_parse any_url exhausted /\
  sockets exhausted !! 2%nat = Some CLOSED /\
  ws (mgr exhausted) <> Some 2%nat /\
  (CLOSED = CLOSING \/ CLOSED = CLOSED).
Proof.
  split; [apply started_worlds_reachable|].
  split; [vm_compute; reflexivity|]. split; [vm_compute; discriminate|].
  apply (one_live_socket Popup no_parse any_url exhausted 2 CLOSED);
    [apply started_worlds_reachable | vm_compute; reflexivity | vm_compute; discriminate].
Defined.

(** *** The counter and the timers stay within the schedule *)

Lemma stays_within_schedule_refl w : stays_within_schedule w w.
Proof. by intros ?. Qed.

Lemma stays_within_schedule_trans w1 w2 w3 (out1 out2 : list effect) :
  stays_within_schedule w1 w2 -> stays_within_schedule w2 w3 -> stays_within_schedule w1 w3.
Proof. unfold stays_within_schedule. auto. Qed.

Lemma within_schedule_timer w cb d :
  timer_in_schedule (cb, d) -> within_schedule w ->
  within_schedule (World (mgr w) (sockets w) (timers w ++ [(cb, d)]) (now w)).
Proof.
  intros Ht [Ha Hts]. split; [done|]. simpl. apply Forall_app. split; [done|].
  by apply Forall_singleton.
Qed.

Ltac schedule_side :=
  first
    [ by intros ?
    | by (intros [? ?]; split)
    | by (intros [? ?]; split; [unfold attempts, maxReconnectAttempts; simpl; lia | done])
    | by (unfold stays_within_schedule; cbn beta; apply within_schedule_timer) ].

Ltac schedule_all known :=
  tracks_all stays_within_schedule_refl stays_within_schedule_trans known schedule_side.

Lemma schedule_attemptReconnect : keeps stays_within_schedule attemptReconnect.
Proof.
  intros w r w' out E [Ha Hts].
  destruct (attemptReconnect_cases w) as [(_ & Hlt & E')|(_ & text & E')];
    rewrite E' in E; injection E as _ <- _; [|done].
  split; [unfold attempts in *; simpl; lia|]. simpl.
  apply Forall_app. split; [done|]. apply Forall_singleton.
  exists (attempts w + 1)%Z. split; [lia | done].
Qed.

Lemma schedule_sendMessage v message type :
  keeps stays_within_schedule (sendMessage v message type).
Proof. unfold sendMessage, reject_send. schedule_all fail. Qed.

Lemma schedule_onmessage v P raw : keeps stays_within_schedule (onmessage v P raw).
Proof. unfold onmessage, handleServerMessage, handleTabOpen, prop. schedule_all fail. Qed.

Lemma schedule_onopen v : keeps stays_within_schedule (onopen v).
Proof.
  unfold onopen, set_isConnected, set_reconnectAttempts.
  schedule_all ltac:(apply schedule_sendMessage).
Qed.

Lemma schedule_close_handlers failed :
  keeps stays_within_schedule (when failed onerror ;; onclose)%js.
Proof.
  unfold onerror, onclose, set_isConnected.
  schedule_all ltac:(apply schedule_attemptReconnect).
Qed.

Lemma schedule_connect A : keeps stays_within_schedule (connect A).
Proof.
  unfold connect, close_existing, ws_close, new_WebSocket, set_ws.
  schedule_all ltac:(apply schedule_attemptReconnect).
Qed.

Lemma schedule_run_callback A cb : keeps stays_within_schedule (run_callback A cb).
Proof. unfold run_callback. schedule_all ltac:(apply schedule_connect). Qed.

Lemma schedule_onRuntimeMessage v req :
  keeps stays_within_schedule (onRuntimeMessage v req).
Proof.
  unfold onRuntimeMessage, teardown_and_reconnect, set_apiUrl, set_isConnected,
    ws_close, setTimeout.
  schedule_all ltac:(apply schedule_sendMessage).
Qed.

Section Schedule.

Variable v : version.
Variable JSON_parse : string -> option value.
Variable WebSocket_accepts : string -> bool.

Lemma constructor_within_schedule stored t0 :
  within_schedule (fst (constructor v WebSocket_accepts stored t0)).
Proof.
  unfold constructor.
  destruct (handle _ (fresh t0)) as [w out] eqn:E. simpl.
  eapply (keeps_handle stays_within_schedule) in E.
  - apply E. split; [done | constructor].
  - unfold set_apiUrl. schedule_all ltac:(apply schedule_connect).
Qed.

Lemma step_within_schedule w e w' out :
  within_schedule w ->
  step v JSON_parse WebSocket_accepts w e = Some (w', out) ->
  within_schedule w'.
Proof.
  intros H. destruct e as [i|i raw|i failed|n|req|dt|i]; simpl.
  - case_bool_decide; [|done]. intros [= E].
    eapply (keeps_handle stays_within_schedule); [apply schedule_onopen|exact E|done].
  - case_match; [|done]. intros [= E].
    eapply (keeps_handle stays_within_schedule); [apply schedule_onmessage|exact E|done].
  - destruct (sockets w !! i) as [s|]; [|done]. case_match; [done|]. intros [= E].
    eapply (keeps_handle stays_within_schedule);
      [apply schedule_close_handlers|exact E|done].
  - destruct (timers w !! n) as [[cb d]|]; [|done]. intros [= E].
    eapply (keeps_handle stays_within_schedule); [apply schedule_run_callback|exact E|].
    destruct H as [Ha Hts]. split; [done|]. simpl. by apply Forall_delete.
  - intros [= E].
    eapply (keeps_handle stays_within_schedule);
      [apply schedule_onRuntimeMessage|exact E|done].
  - case_match; [|done]. by intros [= <- _].
  - case_match; [|done]. by intros [= <- _].
Qed.

(** X4. In every reachable world the retry counter lies between 0 and the
    ceiling of 5, and every pending timer is either the delayed [connect()]
    of a reconnection request, at 100 ms, or a retry at 1000 * k ms with
    1 <= k <= 5: no delay exceeds 5000 ms. *)
Theorem counter_and_timers_within_schedule w :
  reachable v JSON_parse WebSocket_accepts w ->
  (0 <= attempts w <= maxReconnectAttempts)%Z /\
  Forall timer_in_schedule (timers w) /\
  Forall (fun t => (100 <= t.2 <= 5000)%Z) (timers w).
Proof.
  intros Hr.
  assert (H : within_schedule w).
  { revert Hr. apply reachable_ind.
    - apply constructor_within_schedule.
    - intros w0 e w' out _. apply step_within_schedule. }
  destruct H as [Ha Hts]. repeat split; try done; try apply Ha.
  eapply Forall_impl; [exact Hts|]. intros [[] d]; simpl.
  - intros (k & Hk & ->). unfold reconnectDelay, maxReconnectAttempts in *. lia.
  - intros ->. lia.
Qed.

End Schedule.

Lemma counter_and_timers_witness :
  reachable Popup no_parse any_url exhausted /\
  (0 <= attempts exhausted <= maxReconnectAttempts)%Z /\
  Forall timer_in_schedule (timers exhausted) /\
  Forall (fun t => (100 <= t.2 <= 5000)%Z) (timers exhausted).
Proof.
  split; [apply started_worlds_reachable|].
  apply (counter_and_timers_within_schedule Popup no_parse any_url exhausted).
  apply started_worlds_reachable.
Defined.

(** *** The address a manager dials *)

Lemma dials_nil url (w : world) : dials url w w [].
Proof. intros H. split; [done | constructor]. Qed.

Lemma dials_app url (w1 w2 w3 : world) out1 out2 :
  dials url w1 w2 out1 -> dials url w2 w3 out2 ->
  dials url w1 w3 (out1 ++ out2).
Proof.
  intros H1 H2 H. destruct (H1 H) as [Hu Ho]. destruct (H2 Hu) as [Hu' Ho'].
  split; [done|]. unfold urls_dialled. rewrite omap_app. by apply Forall_app.
Qed.

Ltac dials_side := first [by apply dials_nil | by (intros ?; split; [|constructor])].

Ltac dials_all known := tracks_all dials_nil dials_app known dials_side.

Lemma dials_new_WebSocket url A : tracks (dials url) (new_WebSocket A).
Proof.
  intros w r w' out. unfold new_WebSocket, bind, read, update, emit, set_ws, throw.
  simpl. destruct (A (apiUrl (mgr w))); intros [= _ <- <-] H; simpl.
  - split; [done|]. rewrite H. by apply Forall_singleton.
  - split; [done | constructor].
Qed.

Lemma dials_attemptReconnect url : tracks (dials url) attemptReconnect.
Proof. unfold attemptReconnect, set_reconnectAttempts, setTimeout. dials_all fail. Qed.

Lemma dials_connect url A : tracks (dials url) (connect A).
Proof.
  unfold connect, close_existing, ws_close.
  dials_all ltac:(first [apply dials_new_WebSocket | apply dials_attemptReconnect]).
Qed.

Lemma dials_sendMessage url v message type : tracks (dials url) (sendMessage v message type).
Proof. unfold sendMessage, reject_send. dials_all fail. Qed.

Lemma dials_onmessage url v P raw : tracks (dials url) (onmessage v P raw).
Proof. unfold onmessage, handleServerMessage, handleTabOpen, prop. dials_all fail. Qed.

Lemma dials_onopen url v : tracks (dials url) (onopen v).
Proof.
  unfold onopen, set_isConnected, set_reconnectAttempts.
  dials_all ltac:(apply dials_sendMessage).
Qed.

Lemma dials_close_handlers url failed :
  tracks (dials url) (when failed onerror ;; onclose)%js.
Proof.
  unfold onerror, onclose, set_isConnected. dials_all ltac:(apply dials_attemptReconnect).
Qed.

Lemma dials_run_callback url A cb : tracks (dials url) (run_callback A cb).
Proof. unfold run_callback. dials_all ltac:(apply dials_connect). Qed.

Lemma dials_overlay_request url req : tracks (dials url) (onRuntimeMessage Overlay req).
Proof.
  unfold onRuntimeMessage, teardown_and_reconnect, set_isConnected, ws_close, setTimeout.
  dials_all ltac:(apply dials_sendMessage).
Qed.

Lemma dials_popup_request url req :
  changes_address (RuntimeMessage req) = false ->
  tracks (dials url) (onRuntimeMessage Popup req).
Proof.
  intros Hreq. destruct req; try discriminate Hreq;
    unfold onRuntimeMessage, teardown_and_reconnect, set_isConnected, ws_close, setTimeout;
    dials_all ltac:(apply dials_sendMessage).
Qed.

Lemma dials_handle url (m : M unit) w w' out :
  tracks (dials url) m -> handle m w = (w', out) -> dials url w w' out.
Proof.
  intros Hm. unfold handle. destruct (m w) as [[[[]|err] w1] out1] eqn:Em;
    intros [= <- <-]; [by eapply Hm|].
  intros H. destruct (Hm _ _ _ _ Em H) as [Hu Ho]. split; [done|].
  unfold urls_dialled. rewrite omap_app. simpl. by rewrite app_nil_r.
Qed.

Section OverlayAddress.

Variable JSON_parse : string -> option value.
Variable WebSocket_accepts : string -> bool.

Lemma step_dials url v w e w' out :
  (forall req, e = RuntimeMessage req -> tracks (dials url) (onRuntimeMessage v req)) ->
  step v JSON_parse WebSocket_accepts w e = Some (w', out) ->
  dials url w w' out.
Proof.
  intros Hreq. destruct e as [i|i raw|i failed|n|req|dt|i]; simpl.
  - case_bool_decide; [|done]. intros [= E].
    intros Hu. by eapply (dials_handle _ _ _ _ _ (dials_onopen url v) E).
  - case_match; [|done]. intros [= E]. by eapply dials_handle; [apply dials_onmessage|].
  - destruct (sockets w !! i) as [s|]; [|done]. case_match; [done|]. intros [= E].
    intros Hu. by eapply (dials_handle _ _ _ _ _ (dials_close_handlers url failed) E).
  - destruct (timers w !! n) as [[cb d]|]; [|done]. intros [= E].
    intros Hu. by eapply (dials_handle _ _ _ _ _ (dials_run_callback url _ cb) E).
  - intros [= E]. by eapply dials_handle; [by apply Hreq|].
  - case_match; [|done]. intros [= <- <-]. intros Hu. split; [done | constructor].
  - case_match; [|done]. intros [= <- <-]. intros Hu. split; [done | constructor].
Qed.

Lemma step_dials_default w e w' out :
  step Overlay JSON_parse WebSocket_accepts w e = Some (w', out) ->
  dials default_url w w' out.
Proof. apply step_dials. intros req _. apply dials_overlay_request. Qed.

(** X5. The overlay version has one address: in every reachable world
    [apiUrl] is ws://localhost:8080, every socket it creates is created for
    that address, and an UPDATE_API_URL request (which the settings popup
    sends) changes nothing and is not answered. *)
Theorem overlay_address_is_fixed w url :
  reachable Overlay JSON_parse WebSocket_accepts w ->
  apiUrl (mgr w) = default_url /\
  step Overlay JSON_parse WebSocket_accepts w (RuntimeMessage (UPDATE_API_URL url))
    = Some (w, []) /\
  forall e w' out,
    step Overlay JSON_parse WebSocket_accepts w e = Some (w', out) ->
    Forall (eq default_url) (urls_dialled out).
Proof.
  intros Hr.
  assert (H : apiUrl (mgr w) = default_url).
  { revert Hr. apply (reachable_ind _ _ _ (fun w0 => apiUrl (mgr w0) = default_url)).
    - intros stored t0. unfold constructor.
      destruct (handle _ (fresh t0)) as [w0 out0] eqn:E. simpl.
      eapply dials_handle in E; [by apply E|].
      dials_all ltac:(apply dials_connect).
    - intros w0 e w' out _ H0 E. by apply (step_dials_default _ _ _ _ E). }
  split; [done|]. split; [by destruct w|].
  intros e w' out E. by apply (step_dials_default _ _ _ _ E).
Qed.

End OverlayAddress.

Lemma overlay_address_witness :
  reachable Overlay no_parse any_url (chatting Overlay) /\
  apiUrl (mgr (chatting Overlay)) = default_url /\
  step Overlay no_parse any_url (chatting Overlay)
    (RuntimeMessage (UPDATE_API_URL "ws://example.org")) = Some (chatting Overlay, []) /\
  forall e w' out,
    step Overlay no_parse any_url (chatting Overlay) e = Some (w', out) ->
    Forall (eq default_url) (urls_dialled out).
Proof.
  split; [apply started_worlds_reachable|].
  apply (overlay_address_is_fixed no_parse any_url (chatting Overlay) "ws://example.org").
  apply started_worlds_reachable.
Defined.

(** ** Changing the address *)

Lemma sendMessage_world v message type w :
  exists r out, sendMessage v message type w = (r, w, out).
Proof.
  unfold sendMessage, reject_send, bind, read, console, notify, emit, throw, ret.
  destruct (isConnected (mgr w)), (ws (mgr w)) as [i|]; simpl; try by eexists _, _.
  destruct (bool_decide (state_of w i = OPEN)), v; simpl; by eexists _, _.
Qed.

Lemma onopen_resets v w r w' out :
  onopen v w = (r, w', out) -> attempts w' = 0%Z.
Proof.
  unfold onopen, bind at 1, console at 1, emit at 1.
  unfold bind at 1, set_isConnected at 1, update at 1.
  unfold bind at 1, set_reconnectAttempts at 1, update at 1.
  unfold bind at 1, notify at 1, emit at 1.
  destruct v; [by intros [= _ <- _]|].
  match goal with
  | |- context [sendMessage ?a ?b ?c ?W] =>
      destruct (sendMessage_world a b c W) as (r1 & out1 & ->)
  end.
  by intros [= _ <- _].
Qed.

Section AddressChange.

Variable JSON_parse : string -> option value.
Variable WebSocket_accepts : string -> bool.

Lemma step_open_resets v w i w' out :
  step v JSON_parse WebSocket_accepts w (SocketOpen i) = Some (w', out) ->
  attempts w' = 0%Z.
Proof.
  simpl. case_bool_decide; [|done]. unfold handle.
  destruct (onopen v _) as [[r w1] out1] eqn:E. apply onopen_resets in E.
  by destruct r; intros [= <- _].
Qed.

Lemma run_dials url es : forall w w' out,
  forallb (fun e => negb (changes_address e)) es = true ->
  run Popup JSON_parse WebSocket_accepts w es = Some (w', out) ->
  dials url w w' out.
Proof.
  induction es as [|e es IH]; simpl; intros w w' out Hes.
  - intros [= <- <-]. apply dials_nil.
  - apply andb_prop in Hes as [He Hes]. apply negb_true_iff in He.
    destruct (step Popup JSON_parse WebSocket_accepts w e) as [[w1 out1]|] eqn:E1; [|done].
    destruct (run Popup JSON_parse WebSocket_accepts w1 es) as [[w2 out2]|] eqn:E2; [|done].
    intros [= <- <-]. eapply dials_app; [|by eapply IH].
    eapply step_dials; [|exact E1]. intros req ->. by apply dials_popup_request.
Qed.

(** The delayed [connect()] of a reconnection request, in any world. *)
Lemma delayed_connect_outcome v w n d :
  timers w !! n = Some (DelayedConnect, d) ->
  exists w' out,
    step v JSON_parse WebSocket_accepts w (TimerFires n) = Some (w', out) /\
    connect_outcome WebSocket_accepts w w' out.
Proof.
  intros Hn. unfold step. rewrite Hn. unfold handle, run_callback, connect_outcome.
  set (W := World (mgr w) (sockets w) (delete n (timers w)) (now w)).
  assert (Hb : connected_or_connecting W = connected_or_connecting w) by done.
  destruct (connected_or_connecting w) eqn:Hbusy.
  - unfold connect, bind at 1, read at 1. rewrite Hb. unfold console, emit.
    by eexists _, _.
  - destruct (connect_when_idle WebSocket_accepts W Hb) as (w' & out & -> & H).
    eexists _, _. split; [reflexivity|]. simpl in H.
    destruct (WebSocket_accepts (apiUrl (mgr w))); [tauto|].
    destruct H as (Hc & _ & H). split; [done|]. unfold failure_counted.
    change (attempts W) with (attempts w) in H.
    destruct (attempts w <? maxReconnectAttempts)%Z; tauto.
Qed.

(** C9, as the code has it.  On UPDATE_API_URL the popup version stores
    the new address, marks itself disconnected, closes its socket if it has
    one and schedules [connect()] 100 ms later; it does not assign the
    retry counter.  In every world reached afterwards, whatever the browser
    delivers in between: as long as no socket opens, the counter is the one
    before the request plus the number of retries scheduled since, and a
    socket that opens sets it to 0; the close event of the manager's socket
    (that of the socket just closed, for one) counts one failure; as long
    as the address is not changed again, every socket created is created
    for the new address; and the delayed [connect()] creates one when it
    finds the manager neither connected nor connecting, does nothing when
    it finds it connected or connecting, and counts one failure when
    [new WebSocket] throws. *)
Theorem address_update_reconnects_and_keeps_counter w url :
  exists w1 out1,
    step Popup JSON_parse WebSocket_accepts w (RuntimeMessage (UPDATE_API_URL url))
      = Some (w1, out1) /\
    mgr w1 = Manager (ws (mgr w)) false (reconnectAttempts (mgr w)) url /\
    timers w1 = timers w ++ [(DelayedConnect, 100%Z)] /\
    connectionState w1 = Disconnected /\
    visible out1 = match ws (mgr w) with Some i => [WsClose i] | None => [] end
                   ++ [SetTimeout DelayedConnect 100; SendResponse success] /\
    forall es w' out,
      run Popup JSON_parse WebSocket_accepts w1 es = Some (w', out) ->
      (forallb (fun e => negb (is_SocketOpen e)) es = true ->
       attempts w' = (attempts w + Z.of_nat (length (retry_delays out)))%Z) /\
      (forallb (fun e => negb (changes_address e)) es = true ->
       apiUrl (mgr w') = url /\ Forall (eq url) (urls_dialled out)) /\
      (forall i w2 out2,
         step Popup JSON_parse WebSocket_accepts w' (SocketOpen i) = Some (w2, out2) ->
         attempts w2 = 0%Z) /\
      (forall i s failed,
         ws (mgr w') = Some i -> sockets w' !! i = Some s -> s <> CLOSED ->
         exists w2 out2,
           step Popup JSON_parse WebSocket_accepts w' (SocketClose i failed)
             = Some (w2, out2) /\
           failure_counted w' w2 out2) /\
      (forall n d,
         timers w' !! n = Some (DelayedConnect, d) ->
         exists w2 out2,
           step Popup JSON_parse WebSocket_accepts w' (TimerFires n) = Some (w2, out2) /\
           connect_outcome WebSocket_accepts w' w2 out2).
Proof.
  unfold step at 1, handle, onRuntimeMessage.
  unfold bind at 1, console at 1, emit at 1.
  unfold bind at 1, console at 1, emit at 1.
  unfold bind at 1, set_apiUrl, update at 1, with_mgr at 1.
  unfold bind at 1.
  match goal with
  | |- context [teardown_and_reconnect ?W] =>
      destruct (teardown_result W) as (w1 & out & -> & Hm & Ht & Hl & Hn & Hb & ->)
  end.
  unfold emit. cbn [mgr ws reconnectAttempts apiUrl timers sockets now] in *.
  eexists _, _. split; [reflexivity|]. split; [done|]. split; [done|].
  split. { unfold connectionState. unfold connected_or_connecting in Hb.
           apply orb_false_elim in Hb as [-> ->]. done. }
  split. { by destruct (ws (mgr w)). }
  intros es w' out Hrun. split_and!.
  - intros Hes.
    destruct (backoff_run Popup JSON_parse WebSocket_accepts es w1 w' out Hes Hrun)
      as (n & -> & -> & _).
    rewrite length_fmap, length_seq. unfold attempts. by rewrite Hm.
  - intros Hes. apply (run_dials url es w1 w' out Hes Hrun). by rewrite Hm.
  - intros i w2 out2. apply step_open_resets.
  - intros i s failed Hws Hs Hne.
    destruct (close_schedules Popup JSON_parse WebSocket_accepts w' i failed s Hws Hs Hne)
      as (w2 & out2 & E & H).
    by exists w2, out2.
  - intros n d. apply delayed_connect_outcome.
Qed.

End AddressChange.

(** C9 as stated fails.  After five failed sockets and a sixth, the address
    is changed; the old socket is closed already, the delayed [connect()]
    creates a socket to the new address, and this one fails too: the
    counter is still 5 and no retry follows. *)
Lemma address_update_does_not_reset_counter :
  ~ update_resets_counter exhausted "ws://localhost:9000" [TimerFires 0] /\
  ~ update_resets_counter exhausted "ws://localhost:9000"
      [TimerFires 0; SocketClose 6 true] /\
  exists w' out,
    run Popup no_parse any_url exhausted
      [RuntimeMessage (UPDATE_API_URL "ws://localhost:9000"); TimerFires 0;
       SocketClose 6 true] = Some (w', out) /\
    attempts w' = 5%Z /\ retry_delays out = [] /\ timers w' = [].
Proof.
  split; [|split].
  - intros (w' & out & E & H). vm_compute in E. injection E as <- <-. discriminate H.
  - intros (w' & out & E & H). vm_compute in E. injection E as <- <-. discriminate H.
  - eexists _, _. split; [vm_compute; reflexivity|]. done.
Qed.

(** The address is changed while the manager is connected, and the close
    event of the old socket comes before the delayed [connect()]: the
    counter is 1, a socket for the new address is connecting, and the retry
    of 1000 ms is pending. *)
Example address_update_then_close_counts_a_failure :
  exists w' out,
    run Popup no_parse any_url (chatting Popup)
      [RuntimeMessage (UPDATE_API_URL "ws://localhost:9000"); SocketClose 0 false;
       TimerFires 0] = Some (w', out) /\
    attempts (chatting Popup) = 0%Z /\ attempts w' = 1%Z /\
    retry_delays out = [1000%Z] /\ timers w' = [(RetryConnect, 1000%Z)] /\
    urls_dialled out = ["ws://localhost:9000"] /\
    sockets w' = [CLOSED; CONNECTING].
Proof. eexists _, _. split; [vm_compute; reflexivity|]. done. Qed.

(** ** Inbound messages *)

Lemma onmessage_result v P raw w :
  exists out,
    onmessage v P raw w = (Return tt, w, out) /\
    ws_sends out = [] /\ sockets_created out = [] /\ retry_delays out = [] /\
    uncaught out = [] /\
    (length (visible out) <= 1)%nat.
Proof.
  unfold onmessage, try_catch, handleServerMessage, handleTabOpen, prop, bind, console,
    notify, emit, ret, throw.
  destruct (P raw) as [data|]; simpl.
  2: { eexists. split; [reflexivity|]. repeat split; simpl; lia. }
  destruct (get "type" data) as [type|]; simpl.
  2: { eexists. split; [reflexivity|]. repeat split; simpl; lia. }
  destruct (is_str "bot_response" type || is_str "chat_answer" type),
    (is_str "open_tab" type), (is_str "conversation_history" type),
    (is_str "system_message" type), (get "message" data), (get "url" data),
    (get "history" data) as [history|], v; simpl;
    try destruct (get "length" history); simpl;
    (eexists; split; [reflexivity|]; repeat split; simpl; lia).
Qed.

(** X6. A message from the server never changes the manager, the sockets
    or the timers, whatever it holds: its handler returns in the same
    world, hands nothing to a socket, creates no socket, schedules no
    retry, and makes at most one call outside the console (a notification
    or the creation of a tab). *)
Theorem inbound_message_only_notifies v P A w i raw :
  sockets w !! i = Some OPEN \/ sockets w !! i = Some CLOSING ->
  exists out,
    step v P A w (SocketMessage i raw) = Some (w, out) /\
    ws_sends out = [] /\ sockets_created out = [] /\ retry_delays out = [] /\
    uncaught out = [] /\
    (length (visible out) <= 1)%nat.
Proof.
  intros Hi. destruct (onmessage_result v P raw w) as (out & E & H).
  exists out. split; [|done].
  unfold step, handle. rewrite E.
  by destruct Hi as [->| ->].
Qed.

Lemma inbound_message_witness :
  exists out,
    step Popup sample_parse any_url (chatting Popup) (SocketMessage 0 "bot_response hi")
      = Some (chatting Popup, out) /\
    ws_sends out = [] /\ sockets_created out = [] /\ retry_delays out = [] /\
    uncaught out = [] /\
    (length (visible out) <= 1)%nat.
Proof.
  apply (inbound_message_only_notifies Popup sample_parse any_url (chatting Popup) 0).
  left. reflexivity.
Defined.

(** X7. The two versions show the same for every message, except for a
    [conversation_history] whose [history] is [null] or missing: the
    overlay version reads [data.history.length], which throws, and drops
    the message; the popup version forwards it. *)
Theorem versions_differ_on_missing_history P raw data w :
  P raw = Some data ->
  if history_missing data
  then routed Overlay P raw w = [] /\
       exists history, get "history" data = Some history /\
         routed Popup P raw w = [Notify "CONVERSATION_HISTORY" history]
  else routed Overlay P raw w = routed Popup P raw w.
Proof.
  intros HP.
  unfold routed, history_missing, handle, onmessage, try_catch, handleServerMessage,
    handleTabOpen, prop, bind, console, notify, emit, ret, throw.
  rewrite HP. simpl.
  destruct (get "type" data) as [type|] eqn:Ht; simpl; [|done].
  destruct (is_str "conversation_history" type) eqn:Hc.
  - destruct type as [| | | |s| |]; try discriminate Hc. simpl in Hc.
    apply String.eqb_eq in Hc as ->. simpl.
    destruct (get "history" data) as [history|]; simpl; [|done].
    destruct history; simpl; try done; eauto.
  - destruct (is_str "bot_response" type || is_str "chat_answer" type),
      (is_str "open_tab" type), (is_str "system_message" type),
      (get "message" data), (get "url" data), (get "history" data); simpl; try done.
Qed.

Lemma versions_differ_witness :
  let P := parse_one "history" (VObj [("type", VStr "conversation_history")]) in
  routed Overlay P "history" (chatting Overlay) = [] /\
  exists history,
    get "history" (VObj [("type", VStr "conversation_history")]) = Some history /\
    routed Popup P "history" (chatting Overlay) = [Notify "CONVERSATION_HISTORY" history].
Proof.
  apply (versions_differ_on_missing_history
           (parse_one "history" (VObj [("type", VStr "conversation_history")]))
           "history" (VObj [("type", VStr "conversation_history")]) (chatting Overlay)).
  reflexivity.
Defined.

(** ** A close event that arrives late *)

Lemma connect_closes_open_socket A w i :
  isConnected (mgr w) = false -> ws (mgr w) = Some i -> sockets w !! i = Some OPEN ->
  exists r w' out, connect A w = (r, w', out) /\ In (WsClose i) out.
Proof.
  intros Hc Hws Hi.
  assert (Hs : state_of w i = OPEN) by (unfold state_of; by rewrite Hi).
  unfold connect, bind at 1, read at 1, connected_or_connecting, ws_readyState.
  rewrite Hc, Hws, Hs. simpl.
  unfold bind at 1, close_existing, bind at 1, read at 1. rewrite Hws.
  unfold bind at 1, read at 1. rewrite Hs. simpl.
  unfold bind at 1, console at 1, emit at 1.
  destruct (ws_close_result w i) as (w1 & -> & _).
  match goal with
  | |- context [try_catch ?m ?h ?w0] => destruct (try_catch m h w0) as [[r w'] out]
  end.
  eexists _, _, _. split; [reflexivity|]. simpl. auto.
Qed.

Lemma retry_runs_connect A w :
  isConnected (mgr w) = false ->
  handle (run_callback A RetryConnect) w = handle (connect A) w.
Proof.
  intros H. unfold handle, run_callback, bind, read. rewrite H. simpl.
  by destruct (connect A w) as [[[[]|err] w'] out].
Qed.

Section LateClose.

Variable v : version.
Variable JSON_parse : string -> option value.
Variable WebSocket_accepts : string -> bool.

(** X8. The handlers of a socket do not check that it is still the
    manager's.  When the close event of a superseded socket (still closing)
    arrives after the manager's current socket has opened, the manager is
    marked disconnected although its socket is open, a retry is scheduled,
    and when that retry fires [connect()] closes the open socket. *)
Theorem late_close_disconnects_open_manager w i j failed :
  ws (mgr w) = Some i ->
  sockets w !! i = Some OPEN ->
  sockets w !! j = Some CLOSING ->
  (attempts w < maxReconnectAttempts)%Z ->
  exists w1 out1 w2 out2,
    step v JSON_parse WebSocket_accepts w (SocketClose j failed) = Some (w1, out1) /\
    isConnected (mgr w1) = false /\
    ws (mgr w1) = Some i /\ sockets w1 !! i = Some OPEN /\
    notifications "CONNECTION_STATUS" out1 = [VObj [("connected", VBool false)]] /\
    timers w1 = timers w ++ [(RetryConnect, reconnectDelay * (attempts w + 1))%Z] /\
    step v JSON_parse WebSocket_accepts w1 (TimerFires (length (timers w))) = Some (w2, out2) /\
    In (WsClose i) out2.
Proof.
  intros Hws Hi Hj Ha.
  assert (Hne : j <> i) by (intros ->; congruence).
  set (w0 := World (Manager (Some i) false (reconnectAttempts (mgr w)) (apiUrl (mgr w)))
               (<[j := CLOSED]> (sockets w)) (timers w) (now w)).
  assert (Hi0 : sockets w0 !! i = Some OPEN) by (simpl; by rewrite list_lookup_insert_ne).
  assert (Hb : connected_or_connecting w0 = false).
  { unfold connected_or_connecting, ws_readyState, state_of. simpl.
    rewrite list_lookup_insert_ne by done. by rewrite Hi. }
  destruct (attemptReconnect_cases w0) as [(_ & _ & Er)|([Hx|Hx] & _)];
    [|congruence|unfold attempts in *; simpl in Hx; lia].
  set (w1 := World (Manager (Some i) false (reconnectAttempts (mgr w) + 1) (apiUrl (mgr w)))
               (<[j := CLOSED]> (sockets w))
               (timers w ++ [(RetryConnect, reconnectDelay * (attempts w + 1))%Z]) (now w)).
  assert (E1 : exists out1,
    handle (when failed onerror ;; onclose)%js (set_state j CLOSED w) = (w1, out1) /\
    notifications "CONNECTION_STATUS" out1 = [VObj [("connected", VBool false)]]).
  { unfold handle, when, onerror, onclose, bind, console, notify, emit, set_isConnected,
      update, with_mgr, ret, set_state.
    destruct failed; simpl; rewrite Hws; fold w0; rewrite Er; by eexists. }
  destruct E1 as (out1 & E1 & Hn).
  set (w1' := World (mgr w1) (sockets w1) (timers w) (now w1)).
  destruct (connect_closes_open_socket WebSocket_accepts w1' i)
    as (r & w2 & out & Ec & Hin); [done|done|done|].
  destruct (handle (connect WebSocket_accepts) w1') as [w2' out2] eqn:Eh.
  exists w1, out1, w2', out2.
  split; [simpl; by rewrite Hj, E1|].
  repeat split; try done.
  - unfold step. replace (timers w1 !! length (timers w))
      with (Some (RetryConnect, reconnectDelay * (attempts w + 1))%Z)
      by (symmetry; apply list_lookup_middle; done).
    replace (delete (length (timers w)) (timers w1)) with (timers w)
      by (unfold w1; simpl; by rewrite (delete_middle (timers w) []), app_nil_r).
    fold w1'. by rewrite retry_runs_connect, Eh.
  - revert Eh. unfold handle. rewrite Ec. destruct r; intros [= _ <-]; [done|].
    apply in_or_app. by left.
Qed.

End LateClose.

Lemma late_close_witness :
  exists w1 out1 w2 out2,
    step Overlay no_parse any_url overtaken (SocketClose 0 false) = Some (w1, out1) /\
    isConnected (mgr w1) = false /\
    ws (mgr w1) = Some 1%nat /\ sockets w1 !! 1%nat = Some OPEN /\
    notifications "CONNECTION_STATUS" out1 = [VObj [("connected", VBool false)]] /\
    timers w1 = timers overtaken ++ [(RetryConnect, reconnectDelay * (attempts overtaken + 1))%Z] /\
    step Overlay no_parse any_url w1 (TimerFires (length (timers overtaken))) = Some (w2, out2) /\
    In (WsClose 1) out2.
Proof.
  apply (late_close_disconnects_open_manager Overlay no_parse any_url overtaken 1 0 false);
    vm_compute; congruence.
Defined.

(** ** After the ceiling *)

Section GivenUp.

Variable v : version.
Variable JSON_parse : string -> option value.
Variable WebSocket_accepts : string -> bool.

Lemma given_up_step w e w' out :
  given_up w -> revives e = false ->
  step v JSON_parse WebSocket_accepts w e = Some (w', out) ->
  given_up w' /\ sockets_created out = [] /\ ws_sends out = [] /\ retry_delays out = [].
Proof.
  intros (Ha & Ht & Hc & Hs) Hr.
  assert (Hsend : forall message type, sendMessage v message type w =
    (Return tt, w,
     [Console error "WebSocket is not connected";
      Notify "ERROR" (VObj [("message", VStr "Connection lost. Trying to reconnect...")])])).
  { intros message type. unfold sendMessage, bind, read. simpl. rewrite Hc.
    by destruct (ws (mgr w)). }
  destruct e as [i|i raw|i failed|n|req|dt|i]; simpl.
  - case_bool_decide as Hi; [|done]. by apply Hs in Hi.
  - destruct (sockets w !! i) as [s|] eqn:Hi; [|done].
    rewrite (Hs i s Hi). done.
  - destruct (sockets w !! i) as [s|] eqn:Hi; [|done].
    rewrite (Hs i s Hi). done.
  - by rewrite Ht.
  - unfold handle, onRuntimeMessage, bind, console, emit, read, ret.
    destruct v, req; try discriminate Hr; rewrite ?Hsend; simpl;
      intros [= <- <-]; done.
  - case_match; [|done]. by intros [= <- <-].
  - case_bool_decide as Hi; [|done]. by apply Hs in Hi.
Qed.

(** X9. Once the manager has given up (the counter at the ceiling, no
    timer pending, every socket closed), nothing but a RECONNECT or an
    UPDATE_API_URL request brings it back: whatever else the browser
    delivers, it stays in that state, creates no socket, sends nothing and
    schedules no retry. *)
Theorem given_up_until_asked w es w' out :
  given_up w ->
  forallb (fun e => negb (revives e)) es = true ->
  run v JSON_parse WebSocket_accepts w es = Some (w', out) ->
  given_up w' /\ sockets_created out = [] /\ ws_sends out = [] /\ retry_delays out = [].
Proof.
  revert w out. induction es as [|e es IH]; intros w out Hg Hes; simpl.
  - by intros [= <- <-].
  - simpl in Hes. apply andb_prop in Hes as [He Hes]. apply negb_true_iff in He.
    destruct (step v JSON_parse WebSocket_accepts w e) as [[w1 out1]|] eqn:E1; [|done].
    destruct (run v JSON_parse WebSocket_accepts w1 es) as [[w2 out2]|] eqn:E2; [|done].
    intros [= <- <-].
    destruct (given_up_step _ _ _ _ Hg He E1) as (Hg1 & H1 & H2 & H3).
    destruct (IH _ _ Hg1 Hes E2) as (Hg2 & H4 & H5 & H6).
    split; [done|].
    unfold sockets_created, ws_sends, retry_delays in *.
    rewrite !omap_app, H1, H2, H3, H4, H5, H6. done.
Qed.

End GivenUp.

Lemma exhausted_given_up : given_up exhausted.
Proof.
  repeat split; try (vm_compute; reflexivity).
  intros j s Hj. apply list_elem_of_lookup_2 in Hj.
  replace (sockets exhausted) with (replicate 6 CLOSED) in Hj by (vm_compute; reflexivity).
  by apply elem_of_replicate in Hj as [-> _].
Qed.

Lemma given_up_witness :
  match run Popup no_parse any_url exhausted
          [RuntimeMessage (SEND_MESSAGE (VStr "hello")); ClockTick 60000;
           RuntimeMessage REQUEST_HISTORY] with
  | Some (w', out) =>
      given_up w' /\ sockets_created out = [] /\ ws_sends out = [] /\ retry_delays out = []
  | None => False
  end.
Proof.
  destruct (run Popup no_parse any_url exhausted
              [RuntimeMessage (SEND_MESSAGE (VStr "hello")); ClockTick 60000;
               RuntimeMessage REQUEST_HISTORY]) as [[w' out]|] eqn:E.
  - apply (given_up_until_asked Popup no_parse any_url exhausted
             [RuntimeMessage (SEND_MESSAGE (VStr "hello")); ClockTick 60000;
              RuntimeMessage REQUEST_HISTORY] w' out);
      [apply exhausted_given_up | reflexivity | exact E].
  - vm_compute in E. discriminate E.
Defined.

(** * Further properties of the calendar *)

Import CalendarManager.

Section CalendarMessages.

Variable new_Date : value -> Date.
Variable random_id : nat -> string.

(** X10. Only a snapshot changes the calendar.  Any other message (an
    acknowledgement, an error, an unknown type, a text that does not parse,
    [null]) leaves the events, the cache and the connection fields as they
    were; and the events are requested again ([get_schedule]) exactly when
    the message acknowledges a write with a truthy [success] and the socket
    is open. *)
Theorem calendar_changes_only_on_snapshot parsed c :
  is_snapshot parsed = false ->
  fst (onmessage new_Date random_id parsed c) = c /\
  sends (snd (onmessage new_Date random_id parsed c))
    = if confirms parsed && socket_open c then ["get_schedule"] else [].
Proof.
  unfold is_snapshot, confirms, onmessage, handleServerMessage, acknowledge, requestEvents.
  destruct parsed as [data|]; simpl; [|done].
  destruct (get "type" data) as [type|]; simpl; [|done].
  intros ->.
  destruct (is_str "event_added" type), (is_str "event_updated" type),
    (is_str "event_deleted" type), (is_str "error" type),
    (get "success" data) as [ok|]; simpl; try done;
    destruct (truthy ok), (socket_open c); done.
Qed.

End CalendarMessages.

Lemma calendar_changes_witness :
  let c := Calendar [dentist] (Some [dentist]) true connected 0 in
  let parsed := Some (VObj [("type", VStr "event_added"); ("success", VBool true)]) in
  fst (onmessage millis sample_id parsed c) = c /\
  sends (snd (onmessage millis sample_id parsed c))
    = if confirms parsed && socket_open c then ["get_schedule"] else [].
Proof.
  apply (calendar_changes_only_on_snapshot millis sample_id
           (Some (VObj [("type", VStr "event_added"); ("success", VBool true)]))
           (Calendar [dentist] (Some [dentist]) true connected 0)).
  reflexivity.
Defined.

(** ** Writing events *)

Lemma findIndex_Some {A} (p : A -> bool) l i :
  findIndex p l = Some i ->
  exists x, l !! i = Some x /\ p x = true /\
            forall j y, (j < i)%nat -> l !! j = Some y -> p y = false.
Proof.
  revert i. induction l as [|x l IH]; intros i; simpl; [done|].
  destruct (p x) eqn:Hx.
  - intros [= <-]. exists x. repeat split; [done|]. intros j y Hj. lia.
  - destruct (findIndex p l) as [k|]; [|done]. simpl. intros [= <-].
    destruct (IH k eq_refl) as (y & Hy & Hp & Hbefore). exists y. repeat split; [done..|].
    intros [|j] z Hj; simpl; [by intros [= <-]|]. apply Hbefore. lia.
Qed.

Lemma findIndex_None {A} (p : A -> bool) l :
  findIndex p l = None -> forall x, x ∈ l -> p x = false.
Proof.
  induction l as [|x l IH]; simpl; [by intros _ y ?%elem_of_nil|].
  destruct (p x) eqn:Hx; [done|].
  destruct (findIndex p l); [done|]. intros _ y [->|Hy]%elem_of_cons; auto.
Qed.

Lemma lookup_indexed {A} (l : list A) i p :
  imap pair l !! i = Some p <-> p.1 = i /\ l !! i = Some p.2.
Proof.
  rewrite list_lookup_imap. destruct (l !! i) as [x|]; simpl.
  - split; [by intros [= <-] | destruct p; simpl; by intros [<- [= <-]]].
  - split; [done | by intros [_ ?]].
Qed.

Lemma snd_indexed {A} (l : list A) : (imap pair l).*2 = l.
Proof.
  apply list_eq. intros i. rewrite list_lookup_fmap, list_lookup_imap.
  by destruct (l !! i).
Qed.

(** The first event with the id, if any, as [findIndex] finds it. *)
Lemma findIndex_id same_id eventId (l : list CalendarEvent) :
  match findIndex (fun p => strict_eq (same_id p.1) (id p.2) eventId) (imap pair l) with
  | Some i =>
      exists e0, l !! i = Some e0 /\ strict_eq (same_id i) (id e0) eventId = true /\
        forall j e1, (j < i)%nat -> l !! j = Some e1 ->
                     strict_eq (same_id j) (id e1) eventId = false
  | None => no_id_of same_id eventId l
  end.
Proof.
  destruct (findIndex _ _) as [i|] eqn:Hi.
  - apply findIndex_Some in Hi as ([i' e0] & Hl & Hp & Hbefore).
    apply lookup_indexed in Hl as [Hi Hl]. simpl in *. subst i'.
    exists e0. split_and!; [done..|]. intros j e1 Hj Hl1.
    by apply (Hbefore j (j, e1) Hj), lookup_indexed.
  - intros i e0 Hl.
    apply (findIndex_None _ _ Hi (i, e0)), list_elem_of_lookup. exists i.
    by apply lookup_indexed.
Qed.

Section CalendarWrites.

Variable new_Date : value -> Date.
Variable random_id : nat -> string.
Variable viewType : view.
Variable same_id : nat -> bool.

(** X11. While the socket is open, writing never touches the calendar: a
    submitted form whose times are valid and in order, and a deletion, are
    each one request to the server ([add_event], [update_event],
    [delete_event]) and leave the events and the cache as they were; the
    change becomes visible only through the snapshot that follows. *)
Theorem connected_writes_are_requests selectedEvent f c x y :
  socket_open c = true ->
  start (Editing.eventData new_Date random_id selectedEvent f c) = Some x ->
  end_ (Editing.eventData new_Date random_id selectedEvent f c) = Some y ->
  (x < y)%Z ->
  exists c' out,
    Editing.saveEvent new_Date random_id viewType same_id selectedEvent f c
      = (c', out, Returned) /\
    events c' = events c /\ freelaince_calendar c' = freelaince_calendar c /\
    out = [Send (match selectedEvent with
                 | Some _ => "update_event"
                 | None => "add_event"
                 end)] /\
    forall same_id' eventId,
      Editing.deleteEventById viewType same_id' eventId c'
        = (c', [Send "delete_event"], Returned).
Proof.
  intros Hopen Hs He Hlt.
  unfold Editing.saveEvent, Editing.updateEvent, Editing.addEvent, Editing.request,
    Editing.iso_times, Editing.deleteEventById.
  rewrite Hs, He. simpl.
  destruct (Z.leb_spec y x) as [?|_]; [lia|].
  destruct selectedEvent; simpl; rewrite Hopen; simpl; eexists _, _;
    (split; [reflexivity|]); simpl; by rewrite ?Hopen.
Qed.

(** X12. What [saveEvent] stores has passed the validation: every event of
    the calendar after the call, however the call ends, was there before,
    or is the event of the form, stored while the socket is not open, and
    then its times, when both are valid, are in order (start before end). *)
Theorem saved_events_passed_validation selectedEvent f c c' out r e :
  Editing.saveEvent new_Date random_id viewType same_id selectedEvent f c = (c', out, r) ->
  e ∈ events c' ->
  e ∈ events c \/
  (e = Editing.eventData new_Date random_id selectedEvent f c /\ socket_open c = false /\
   freelaince_calendar c' = Some (events c') /\
   forall x y, start e = Some x -> end_ e = Some y -> (x < y)%Z).
Proof.
  unfold Editing.saveEvent.
  destruct (date_ge _ _) eqn:Hge.
  { intros [= <- _ _]. left. by destruct selectedEvent. }
  assert (Horder : forall x y,
    start (Editing.eventData new_Date random_id selectedEvent f c) = Some x ->
    end_ (Editing.eventData new_Date random_id selectedEvent f c) = Some y -> (x < y)%Z).
  { intros x y Hx Hy. unfold date_ge in Hge. rewrite Hx, Hy in Hge.
    apply Z.leb_gt in Hge. lia. }
  destruct selectedEvent as [sel|]; simpl.
  - unfold Editing.updateEvent, Editing.request, Editing.store.
    destruct (socket_open c) eqn:Hopen.
    { destruct (Editing.iso_times _); simpl; intros [= <- _ _]; by left. }
    destruct (findIndex _ _) as [i|] eqn:Hi; [|intros [= <- _ _]; by left].
    assert (Hlt : (i < length (events c))%nat).
    { apply findIndex_Some in Hi as (z & Hz%lookup_indexed & _).
      destruct Hz as [_ Hz]. by eapply lookup_lt_Some. }
    intros Hr He.
    assert (events c' = <[i := Editing.eventData new_Date random_id (Some sel) f c]> (events c)
            /\ freelaince_calendar c' = Some (events c')) as [Hev Hcache].
    { by destruct (render_throws _ _); injection Hr as <- _ _. }
    rewrite Hev in He. apply list_elem_of_lookup in He as [j Hj].
    destruct (decide (i = j)) as [<-|Hne].
    + rewrite list_lookup_insert_eq in Hj by done.
      injection Hj as <-. right. split_and!; first [exact Horder | done].
    + rewrite list_lookup_insert_ne in Hj by done. left. by eapply list_elem_of_lookup_2.
  - unfold Editing.addEvent, Editing.request, Editing.store. simpl.
    destruct (socket_open c) eqn:Hopen.
    { destruct (Editing.iso_times _); simpl; intros [= <- _ _]; by left. }
    intros Hr He.
    assert (events c' = events c ++ [Editing.eventData new_Date random_id None f c]
            /\ freelaince_calendar c' = Some (events c')) as [Hev Hcache].
    { by destruct (render_throws _ _); injection Hr as <- _ _. }
    rewrite Hev in He.
    apply elem_of_app in He as [He|He%list_elem_of_singleton]; [by left|].
    subst e. right. split_and!; first [exact Horder | done].
Qed.

(** X13. The validation compares two dates with [>=], which is false as
    soon as one of them is invalid: a form whose time does not parse passes
    it.  While the socket is open the call then ends in the RangeError of
    [toISOString()], before anything is sent, and the calendar is as it
    was.  Otherwise a new event is stored, in the calendar and in the
    cache, with its Invalid Date; what follows depends on the view: the
    month and the week view are rendered, the sidebar is closed and the
    success is shown; in the list view, when the start is the invalid one,
    [renderCalendar()] ends in the RangeError of [formatDate], and the
    sidebar stays open with nothing shown. *)
Theorem unparsable_time_passes_validation selectedEvent f c :
  let data := Editing.eventData new_Date random_id selectedEvent f c in
  start data = None \/ end_ data = None ->
  if socket_open c
  then
    exists c',
      Editing.saveEvent new_Date random_id viewType same_id selectedEvent f c
        = (c', [], Thrown "RangeError") /\
      events c' = events c /\ freelaince_calendar c' = freelaince_calendar c
  else
    selectedEvent = None ->
    exists c',
      events c' = events c ++ [Editing.eventData new_Date random_id None f c] /\
      freelaince_calendar c' = Some (events c') /\
      Editing.saveEvent new_Date random_id viewType same_id None f c
        = (if render_throws viewType (events c')
           then (c', [RenderCalendar], Thrown "RangeError")
           else (c', [RenderCalendar; CloseSidebar; ShowSuccess "Event added (offline)"],
                 Returned)) /\
      (viewType <> list_view -> render_throws viewType (events c') = false) /\
      (viewType = list_view ->
       start (Editing.eventData new_Date random_id None f c) = None ->
       render_throws viewType (events c') = true).
Proof.
  intros data Hinv. subst data.
  assert (Hge : date_ge (start (Editing.eventData new_Date random_id selectedEvent f c))
                        (end_ (Editing.eventData new_Date random_id selectedEvent f c)) = false).
  { unfold date_ge. destruct Hinv as [-> | ->]; [done|]. by destruct (start _). }
  assert (Hiso : Editing.iso_times (Editing.eventData new_Date random_id selectedEvent f c) = None).
  { unfold Editing.iso_times. destruct Hinv as [-> | ->]; [done|]. by destruct (start _). }
  destruct (socket_open c) eqn:Hopen.
  - unfold Editing.saveEvent. rewrite Hge.
    destruct selectedEvent; unfold Editing.updateEvent, Editing.addEvent, Editing.request;
      simpl; rewrite Hopen; simpl in *; rewrite Hiso; by eexists.
  - intros ->. unfold Editing.saveEvent. rewrite Hge.
    unfold Editing.addEvent, Editing.store. simpl. rewrite Hopen.
    eexists (with_events _ _). split; [reflexivity|]. split; [reflexivity|].
    split; [by destruct (render_throws _ _)|]. split.
    + by destruct viewType.
    + intros -> Hs. simpl. rewrite existsb_app. simpl. rewrite Hs. simpl.
      by rewrite orb_true_r.
Qed.

End CalendarWrites.

Lemma connected_writes_witness :
  let c := Calendar [dentist] (Some [dentist]) true connected 0 in
  exists c' out,
    Editing.saveEvent sample_Date sample_id month_view (fun _ => false) None ten_to_eleven c
      = (c', out, Returned) /\
    events c' = events c /\ freelaince_calendar c' = freelaince_calendar c /\
    out = [Send "add_event"] /\
    forall same_id' eventId,
      Editing.deleteEventById month_view same_id' eventId c'
        = (c', [Send "delete_event"], Returned).
Proof.
  apply (connected_writes_are_requests sample_Date sample_id month_view (fun _ => false)
           None ten_to_eleven
           (Calendar [dentist] (Some [dentist]) true connected 0)
           1736935200000 1736938800000); reflexivity.
Defined.

Lemma saved_events_witness :
  let c := Calendar [] None false disconnected 0 in
  let e := Editing.eventData sample_Date sample_id None ten_to_eleven c in
  e ∈ events c \/
  (e = Editing.eventData sample_Date sample_id None ten_to_eleven c /\
   socket_open c = false /\
   freelaince_calendar (with_events [e] c) = Some (events (with_events [e] c)) /\
   forall x y, start e = Some x -> end_ e = Some y -> (x < y)%Z).
Proof.
  apply (saved_events_passed_validation sample_Date sample_id month_view (fun _ => false)
           None ten_to_eleven
           (Calendar [] None false disconnected 0)
           (Calendar [Editing.eventData sample_Date sample_id None ten_to_eleven
                        (Calendar [] None false disconnected 0)]
                     (Some [Editing.eventData sample_Date sample_id None ten_to_eleven
                              (Calendar [] None false disconnected 0)])
                     false disconnected 1)
           [RenderCalendar; CloseSidebar; ShowSuccess "Event added (offline)"] Returned).
  - reflexivity.
  - apply list_elem_of_singleton. reflexivity.
Defined.

Lemma unparsable_time_witness :
  let f := Form (VStr "Dentist") "2025-01-15" "" "11:00" (VStr "") (VStr "") (VNum 3) in
  let c := Calendar [dentist] (Some [dentist]) false disconnected 0 in
  exists c',
    events c' = events c ++ [Editing.eventData sample_Date sample_id None f c] /\
    freelaince_calendar c' = Some (events c') /\
    Editing.saveEvent sample_Date sample_id list_view (fun _ => false) None f c
      = (if render_throws list_view (events c')
         then (c', [RenderCalendar], Thrown "RangeError")
         else (c', [RenderCalendar; CloseSidebar; ShowSuccess "Event added (offline)"],
               Returned)) /\
    (list_view <> list_view -> render_throws list_view (events c') = false) /\
    (list_view = list_view ->
     start (Editing.eventData sample_Date sample_id None f c) = None ->
     render_throws list_view (events c') = true).
Proof.
  intros f c.
  apply (unparsable_time_passes_validation sample_Date sample_id list_view (fun _ => false)
           None f c); [left|]; reflexivity.
Defined.

(** The form without start time, submitted in each view while the socket
    is not open: the event is stored in both; the list view ends in the
    exception. *)
Example unparsable_time_in_each_view :
  let f := Form (VStr "Dentist") "2025-01-15" "" "11:00" (VStr "") (VStr "") (VNum 3) in
  let c := Calendar [] None false disconnected 0 in
  let e := Event (VStr "k3j9x0q1z") (VStr "Dentist") None (Some 1736938800000%Z)
                 (VStr "") (VStr "") (VNum 3) in
  Editing.saveEvent sample_Date sample_id month_view (fun _ => false) None f c
    = (Calendar [e] (Some [e]) false disconnected 1,
       [RenderCalendar; CloseSidebar; ShowSuccess "Event added (offline)"], Returned) /\
  Editing.saveEvent sample_Date sample_id list_view (fun _ => false) None f c
    = (Calendar [e] (Some [e]) false disconnected 1, [RenderCalendar], Thrown "RangeError").
Proof. by vm_compute. Qed.

(** ** Editing while the socket is not open *)

Lemma filter_all {A} (P : A -> Prop) `{!forall x, Decision (P x)} (l : list A) :
  Forall P l -> filter P l = l.
Proof.
  induction 1 as [|x l Hx Hl IH]; [done|]. rewrite filter_cons_True by done. by rewrite IH.
Qed.

Section CalendarOffline.

Variable viewType : view.
Variable same_id : nat -> bool.

(** X14. While the socket is not open, adding an event whose id no cached
    event has and then deleting by that id gives back the events that were
    there, however the two calls end.  The cache then holds these events:
    the calendar is as before the two calls exactly when the cache mirrored
    the events before (a cache that was empty now holds them).  In general
    a deletion keeps the events whose id differs from the one given, as
    [!==] has it, and only them. *)
Theorem offline_add_then_delete_restores c e :
  socket_open c = false ->
  no_id_of same_id (id e) (events c) ->
  strict_eq (same_id (length (events c))) (id e) (id e) = true ->
  let c1 := (Editing.addEvent viewType e c).1.1 in
  let c2 := (Editing.deleteEventById viewType same_id (id e) c1).1.1 in
  events c1 = events c ++ [e] /\ freelaince_calendar c1 = Some (events c1) /\
  events c2 = events c /\ freelaince_calendar c2 = Some (events c) /\
  (c2 = c <-> freelaince_calendar c = Some (events c)) /\
  forall same_id' eventId e',
    e' ∈ events (Editing.deleteEventById viewType same_id' eventId c1).1.1 <->
    exists i, events c1 !! i = Some e' /\ strict_ne (same_id' i) (id e') eventId = true.
Proof.
  intros Hopen Hfresh Hsame c1 c2.
  assert (H1 : c1 = with_events (events c ++ [e]) c).
  { unfold c1, Editing.addEvent, Editing.store. rewrite Hopen.
    by destruct (render_throws _ _). }
  assert (H2 : forall same_id' eventId,
    (Editing.deleteEventById viewType same_id' eventId c1).1.1
    = with_events
        (filter (fun p => strict_ne (same_id' p.1) (id p.2) eventId = true)
                (imap pair (events c1))).*2 c1).
  { intros same_id' eventId. unfold Editing.deleteEventById, Editing.store.
    rewrite H1. simpl. rewrite Hopen. by destruct (render_throws _ _). }
  assert (Hf : (filter (fun p => strict_ne (same_id p.1) (id p.2) (id e) = true)
                       (imap pair (events c ++ [e]))).*2 = events c).
  { rewrite imap_app, filter_app, filter_all.
    - simpl. rewrite filter_cons_False, filter_nil, app_nil_r; [apply snd_indexed|].
      simpl. rewrite Nat.add_0_r. unfold strict_ne. by rewrite Hsame.
    - apply Forall_forall. intros [i e0] [j Hj]%list_elem_of_lookup.
      apply lookup_indexed in Hj as [<- Hj]. simpl in *.
      unfold strict_ne. by rewrite (Hfresh _ _ Hj). }
  assert (H3 : c2 = with_events (events c) c).
  { unfold c2. rewrite H2, H1. simpl. by rewrite Hf. }
  split_and!.
  - by rewrite H1.
  - by rewrite H1.
  - by rewrite H3.
  - by rewrite H3.
  - rewrite H3. unfold with_events. destruct c as [ev cache so cs dr]; simpl. split.
    + by intros [= <-].
    + by intros ->.
  - intros same_id' eventId e'. rewrite H2. simpl.
    rewrite list_elem_of_fmap. split.
    + intros ([i e0] & -> & [Hp [j Hj]%list_elem_of_lookup]%list_elem_of_filter).
      apply lookup_indexed in Hj as [<- Hj]. by exists i.
    + intros (i & Hi & Hp). exists (i, e'). split; [done|].
      apply list_elem_of_filter. split; [done|].
      apply list_elem_of_lookup. exists i. by apply lookup_indexed.
Qed.

(** X15. While the socket is not open, [updateEvent] replaces the first
    event whose id is that of its argument, as [===] has it, by its
    argument: the other events stay where they are, and the new list is
    written to the cache.  Then the calendar is rendered, the sidebar
    closed and the success shown, unless [renderCalendar()] throws (the
    list view, on an event whose start is an Invalid Date): the call then
    ends in that exception with the event stored.  When no event has the
    id, nothing happens at all: the calendar is as it was and no call is
    made (nothing is shown, the sidebar stays open). *)
Theorem offline_update_replaces_or_does_nothing c e c' out r :
  socket_open c = false ->
  Editing.updateEvent viewType same_id e c = (c', out, r) ->
  length (events c') = length (events c) /\
  ((exists i e0, events c !! i = Some e0 /\ strict_eq (same_id i) (id e0) (id e) = true) ->
   exists i e0,
     events c !! i = Some e0 /\ strict_eq (same_id i) (id e0) (id e) = true /\
     (forall j e1, (j < i)%nat -> events c !! j = Some e1 ->
                   strict_eq (same_id j) (id e1) (id e) = false) /\
     events c' = <[i := e]> (events c) /\
     freelaince_calendar c' = Some (events c') /\
     (out, r) = if render_throws viewType (events c')
                then ([RenderCalendar], Thrown "RangeError")
                else ([RenderCalendar; CloseSidebar; ShowSuccess "Event updated (offline)"],
                      Returned)) /\
  (no_id_of same_id (id e) (events c) -> c' = c /\ out = [] /\ r = Returned).
Proof.
  intros Hopen. unfold Editing.updateEvent, Editing.store. rewrite Hopen.
  pose proof (findIndex_id same_id (id e) (events c)) as Hfind.
  destruct (findIndex _ _) as [i|].
  - destruct Hfind as (e0 & Hi & Hp & Hbefore). intros Hr.
    assert (c' = with_events (<[i := e]> (events c)) c) as ->.
    { by destruct (render_throws _ _); injection Hr as <- _ _. }
    simpl. split_and!.
    + by rewrite length_insert.
    + intros _. exists i, e0. split_and!; [done..|].
      by destruct (render_throws _ _); injection Hr as <- <-.
    + intros Hnone. by rewrite (Hnone _ _ Hi) in Hp.
  - intros [= <- <- <-]. split_and!; [done| |done].
    intros (i & e0 & Hi & Hp). by rewrite (Hfind _ _ Hi) in Hp.
Qed.

End CalendarOffline.

Lemma offline_add_then_delete_witness :
  let c := Calendar [] None false disconnected 0 in
  let c1 := (Editing.addEvent list_view dentist c).1.1 in
  let c2 := (Editing.deleteEventById list_view (fun _ => false) (id dentist) c1).1.1 in
  events c1 = events c ++ [dentist] /\ freelaince_calendar c1 = Some (events c1) /\
  events c2 = events c /\ freelaince_calendar c2 = Some (events c) /\
  (c2 = c <-> freelaince_calendar c = Some (events c)) /\
  forall same_id' eventId e',
    e' ∈ events (Editing.deleteEventById list_view same_id' eventId c1).1.1 <->
    exists i, events c1 !! i = Some e' /\ strict_ne (same_id' i) (id e') eventId = true.
Proof.
  apply (offline_add_then_delete_restores list_view (fun _ => false)
           (Calendar [] None false disconnected 0) dentist).
  - reflexivity.
  - intros i e' He'. discriminate He'.
  - reflexivity.
Defined.

(** On a page that never wrote, the cache is empty before the two calls and
    holds the empty list after them. *)
Example offline_add_then_delete_fills_the_cache :
  let c := Calendar [] None false disconnected 0 in
  let c1 := (Editing.addEvent month_view dentist c).1.1 in
  (Editing.deleteEventById month_view (fun _ => false) (id dentist) c1).1.1
    = Calendar [] (Some []) false disconnected 0.
Proof. by vm_compute. Qed.

Lemma offline_update_witness :
  let c := offline_calendar in
  let e := Event (VStr "k3j9x0q1z") (VStr "Dentist, moved") (Some 50400000%Z)
                 (Some 54000000%Z) (VStr "") (VStr "") (VNum 3) in
  let c' := with_events [e] c in
  let out := [RenderCalendar; CloseSidebar; ShowSuccess "Event updated (offline)"] in
  length (events c') = length (events c) /\
  ((exists i e0, events c !! i = Some e0 /\ strict_eq false (id e0) (id e) = true) ->
   exists i e0,
     events c !! i = Some e0 /\ strict_eq false (id e0) (id e) = true /\
     (forall j e1, (j < i)%nat -> events c !! j = Some e1 ->
                   strict_eq false (id e1) (id e) = false) /\
     events c' = <[i := e]> (events c) /\
     freelaince_calendar c' = Some (events c') /\
     (out, Returned)
       = if render_throws list_view (events c')
         then ([RenderCalendar], Thrown "RangeError")
         else ([RenderCalendar; CloseSidebar; ShowSuccess "Event updated (offline)"],
               Returned)) /\
  (no_id_of (fun _ => false) (id e) (events c) -> c' = c /\ out = [] /\ Returned = Returned).
Proof.
  apply (offline_update_replaces_or_does_nothing list_view (fun _ => false) offline_calendar
           (Event (VStr "k3j9x0q1z") (VStr "Dentist, moved") (Some 50400000%Z)
                  (Some 54000000%Z) (VStr "") (VStr "") (VNum 3)));
    reflexivity.
Defined.

(** Two events whose ids are arrays of the same contents, and an update
    whose id is the array of the second: the second is replaced. *)
Example update_finds_the_same_object :
  let ev t := Event (VArr [VNum 1]) (VStr t) (Some 0%Z) (Some 1%Z) (VStr "") (VStr "") (VNum 1) in
  let c := Calendar [ev "a"; ev "b"] None false disconnected 0 in
  (Editing.updateEvent month_view (fun i => Nat.eqb i 1) (ev "c") c).1.1
    = Calendar [ev "a"; ev "c"] (Some [ev "a"; ev "c"]) false disconnected 0.
Proof. by vm_compute. Qed.

(** ** Loading the page *)

Section CalendarLoading.

Variable local_time : Z -> Z -> Z.

Lemma revive_valid e : valid_dates e -> Editing.revive e = e.
Proof. destruct e as [i t [s|] [e|] d l p]; intros [[? ?] [? ?]]; by simplify_eq/=. Qed.

(** X16. A page that loads while the server answers takes up the cached
    events and asks the server for the events once.  The events it takes up
    all have valid dates: an event cached with valid dates comes back as it
    was stored, an Invalid Date comes back as the epoch.  The cache itself
    is not rewritten by the load. *)
Theorem page_load_takes_up_the_cache stored :
  let cached := default [] stored in
  let c := fst (Editing.init local_time Opens (Editing.constructor stored)) in
  let out := snd (Editing.init local_time Opens (Editing.constructor stored)) in
  length (events c) = length cached /\
  Forall valid_dates (events c) /\
  (Forall valid_dates cached -> events c = cached) /\
  (forall i e, cached !! i = Some e -> start e = None ->
     exists e', events c !! i = Some e' /\ start e' = Some 0%Z /\ id e' = id e) /\
  freelaince_calendar c = stored /\
  sends out = ["get_schedule"] /\
  socket_open c = true /\ connectionStatus c = connected.
Proof.
  unfold Editing.init, Editing.loadEvents, Editing.constructor, requestEvents.
  destruct stored as [cached|]; simpl.
  2: { split_and!; done. }
  split_and!; try done.
  - by rewrite length_fmap.
  - apply Forall_fmap, Forall_forall. intros e _. split; by eexists.
  - intros Hv. induction Hv as [|e l He Hl IH]; [done|].
    rewrite fmap_cons. f_equal; [by apply revive_valid | done].
  - intros i e Hi Hs. exists (Editing.revive e). rewrite list_lookup_fmap, Hi. simpl.
    by rewrite Hs.
Qed.

(** X17. A page that loads while the server does not answer (the socket
    errors, the 5 second timer fires first, or the constructor throws)
    shows the three sample events and writes them over the cache: whatever
    was cached is gone.  In particular an event added while the socket was
    not open, which [addEvent] had put in the cache, is neither shown nor
    cached after such a load, unless its id is one of the sample ids. *)
Theorem failed_page_load_overwrites_the_cache viewType o c e :
  o <> Opens ->
  socket_open c = false ->
  id e ∉ [VStr "1"; VStr "2"; VStr "3"] ->
  exists c1 out1 r,
    Editing.addEvent viewType e c = (c1, out1, r) /\
    freelaince_calendar c1 = Some (events c ++ [e]) /\
    let c2 := fst (Editing.init local_time o (Editing.constructor (freelaince_calendar c1))) in
    events c2 = Editing.sampleData local_time /\
    freelaince_calendar c2 = Some (Editing.sampleData local_time) /\
    (forall e', e' ∈ events c2 -> id e' <> id e) /\
    socket_open c2 = false.
Proof.
  intros Ho Hopen Hid. unfold Editing.addEvent, Editing.store. rewrite Hopen.
  destruct (render_throws _ _); (eexists _, _, _; split; [reflexivity|]; split; [done|]).
  all: destruct o; [done|..]; simpl; (split_and!; [done|done| |done]);
    intros e' He' Heq; apply Hid; rewrite <- Heq;
    repeat (apply elem_of_cons in He' as [->|He']; [apply list_elem_of_In; simpl; tauto|]);
    by apply elem_of_nil in He'.
Qed.

End CalendarLoading.

Lemma page_load_witness :
  let local_time := fun days hours => (days * 86400000 + hours * 3600000)%Z in
  let stored := Some [dentist] in
  let cached := default [] stored in
  let c := fst (Editing.init local_time Opens (Editing.constructor stored)) in
  let out := snd (Editing.init local_time Opens (Editing.constructor stored)) in
  Forall valid_dates cached /\ events c = cached.
Proof.
  intros local_time stored cached c out.
  assert (H : Forall valid_dates cached).
  { apply Forall_singleton. split; by eexists. }
  split; [exact H|].
  by apply (page_load_takes_up_the_cache local_time stored).
Defined.

Lemma failed_page_load_witness :
  let local_time := fun days hours => (days * 86400000 + hours * 3600000)%Z in
  let c := Calendar [] None false disconnected 0 in
  exists c1 out1 r,
    Editing.addEvent month_view dentist c = (c1, out1, r) /\
    freelaince_calendar c1 = Some (events c ++ [dentist]) /\
    let c2 := fst (Editing.init local_time TimesOut
                     (Editing.constructor (freelaince_calendar c1))) in
    events c2 = Editing.sampleData local_time /\
    freelaince_calendar c2 = Some (Editing.sampleData local_time) /\
    (forall e', e' ∈ events c2 -> id e' <> id dentist) /\
    socket_open c2 = false.
Proof.
  apply (failed_page_load_overwrites_the_cache
           (fun days hours => (days * 86400000 + hours * 3600000)%Z) month_view TimesOut
           (Calendar [] None false disconnected 0) dentist).
  - discriminate.
  - reflexivity.
  - vm_compute. intros H. repeat (apply elem_of_cons in H as [H|H]; [discriminate H|]).
    by apply elem_of_nil in H.
Defined.

(** * Further properties of the offers page *)

Import OffersManager.

Lemma assoc_set_field_eq k x fields : assoc k (set_field k x fields) = x.
Proof.
  induction fields as [|[k' y] fields IH]; simpl.
  - by rewrite String.eqb_refl.
  - destruct (String.eqb k k') eqn:E; simpl; [by rewrite String.eqb_refl | by rewrite E].
Qed.

Lemma assoc_set_field_ne k k' x fields :
  k' <> k -> assoc k' (set_field k x fields) = assoc k' fields.
Proof.
  intros Hne. induction fields as [|[k0 y] fields IH]; simpl.
  - by apply String.eqb_neq in Hne as ->.
  - destruct (String.eqb k k0) eqn:E; simpl.
    + apply String.eqb_eq in E as <-. by apply String.eqb_neq in Hne as ->.
    + by rewrite IH.
Qed.

Lemma get_set_status_ne newStatus k o :
  k <> "status" -> get k (set_status newStatus o) = get k o.
Proof. intros Hne. destruct o; simpl; try done. by rewrite assoc_set_field_ne. Qed.

Lemma find_offer_Some offerId os i :
  find_offer offerId os = Some (Some i) ->
  exists fields,
    os !! i = Some (VObj fields) /\ assoc "offer_id" fields = VStr offerId.
Proof.
  revert i. induction os as [|o os IH]; intros i; simpl; [done|].
  destruct (get "offer_id" o) as [x|] eqn:Hx; simpl; [|done].
  destruct (is_str offerId x) eqn:Hs.
  - intros [= <-]. destruct o; simpl in Hx; simplify_eq/=.
    destruct (assoc "offer_id" fields) eqn:Ha; try done. simpl in Hs.
    apply String.eqb_eq in Hs as ->. by exists fields.
  - destruct (find_offer offerId os) as [[j|]|]; simpl; try done.
    intros [= <-]. by apply IH.
Qed.

Lemma find_offer_alter offerId newStatus os i :
  find_offer offerId os = Some (Some i) ->
  find_offer offerId (alter (set_status newStatus) i os) = Some (Some i).
Proof.
  revert i. induction os as [|o os IH]; intros i; simpl; [done|].
  destruct (get "offer_id" o) as [x|] eqn:Hx; simpl; [|done].
  destruct (is_str offerId x) eqn:Hs.
  - intros [= <-]. simpl. rewrite get_set_status_ne by done. rewrite Hx. simpl. by rewrite Hs.
  - destruct (find_offer offerId os) as [[j|]|] eqn:Hf; simpl; try done.
    intros [= <-]. pose proof (IH j eq_refl) as IHj.
    change (alter (set_status newStatus) (S j) (o :: os))
      with (o :: alter (set_status newStatus) j os).
    cbn [find_offer]. rewrite Hx. simpl. by rewrite Hs, IHj.
Qed.

Section OfferUpdate.

Variable JSON_parse : string -> option value.
Variable rerender_throws : list value -> bool.

(** X18. An acknowledged status update changes one field of one offer:
    the first offer with the id gets the new status, its other fields and
    all other offers are as before, the number of offers is the same, the
    offer is still found at its place, and the cache holds the offers. *)
Theorem acknowledged_update_sets_only_the_status offerId newStatus run raw m i :
  first_answer run = Some (Received raw) ->
  is_acknowledgement JSON_parse raw = true ->
  find_offer offerId (offers m) = Some (Some i) ->
  exists m' out o o',
    updateOfferStatus JSON_parse rerender_throws offerId newStatus true run m = (m', out) /\
    length (offers m') = length (offers m) /\
    (forall j, j <> i -> offers m' !! j = offers m !! j) /\
    offers m !! i = Some o /\ offers m' !! i = Some o' /\
    get "offer_id" o = Some (VStr offerId) /\
    get "status" o' = Some (VStr newStatus) /\
    (forall k, k <> "status" -> get k o' = get k o) /\
    find_offer offerId (offers m') = Some (Some i) /\
    freelaince_offers m' = Some (offers m').
Proof.
  intros Hrun Hack Hfind. unfold updateOfferStatus.
  rewrite syncStatusWithServer_first_answer, Hrun, Hack, Hfind.
  destruct (find_offer_Some _ _ _ Hfind) as (fields & Hi & Hid).
  eexists _, _, (VObj fields), (set_status newStatus (VObj fields)).
  split; [reflexivity|]. simpl. split_and!.
  - by rewrite length_alter.
  - intros j Hne. by rewrite list_lookup_alter_ne.
  - done.
  - by rewrite list_lookup_alter_eq, Hi.
  - by rewrite Hid.
  - by rewrite assoc_set_field_eq.
  - intros k Hne. by rewrite assoc_set_field_ne.
  - by apply find_offer_alter.
  - done.
Qed.

End OfferUpdate.

Lemma acknowledged_update_witness :
  exists m' out o o',
    updateOfferStatus answers (fun _ => false) "12345678" "declined" true acknowledged_run two_offers
      = (m', out) /\
    length (offers m') = length (offers two_offers) /\
    (forall j, j <> 0%nat -> offers m' !! j = offers two_offers !! j) /\
    offers two_offers !! 0%nat = Some o /\ offers m' !! 0%nat = Some o' /\
    get "offer_id" o = Some (VStr "12345678") /\
    get "status" o' = Some (VStr "declined") /\
    (forall k, k <> "status" -> get k o' = get k o) /\
    find_offer "12345678" (offers m') = Some (Some 0%nat) /\
    freelaince_offers m' = Some (offers m').
Proof.
  apply (acknowledged_update_sets_only_the_status answers (fun _ => false)
           "12345678" "declined"
           acknowledged_run "updated" two_offers 0); reflexivity.
Defined.

(** ** Filters *)

Lemma filter_offers_sublist p os fs :
  filter_offers p os = Some fs ->
  sublist fs os /\ forall o, o ∈ fs <-> o ∈ os /\ p o = Some true.
Proof.
  revert fs. induction os as [|o os IH]; intros fs; simpl.
  - intros [= <-]. split; [done|]. intros o. split; [by intros ?%elem_of_nil|].
    by intros [?%elem_of_nil _].
  - destruct (p o) as [b|] eqn:Hp; [|done].
    destruct (filter_offers p os) as [kept|]; [|done]. intros [= <-].
    destruct (IH kept eq_refl) as [Hsub Hiff]. destruct b.
    + split; [by apply sublist_skip|]. intros o'. rewrite !elem_of_cons, Hiff.
      split; [intros [->|[? ?]]; auto | intros [[->|?] ?]; auto].
    + split; [by apply sublist_cons|]. intros o'. rewrite elem_of_cons, Hiff.
      split; [intros [? ?]; auto | intros [[->|?] ?]; [congruence | auto]].
Qed.

Lemma filter_offers_all p os :
  (forall o, o ∈ os -> p o = Some true) -> filter_offers p os = Some os.
Proof.
  induction os as [|o os IH]; intros H; simpl; [done|].
  rewrite (H o) by apply elem_of_cons, or_introl, eq_refl.
  rewrite IH; [done|]. intros o' Ho'. apply H, elem_of_cons. by right.
Qed.

Lemma filter_offers_throws p os o :
  o ∈ os -> p o = None -> filter_offers p os = None.
Proof.
  induction os as [|o' os IH]; [by intros ?%elem_of_nil|].
  intros [->|Ho]%elem_of_cons Hp; simpl.
  - by rewrite Hp.
  - rewrite (IH Ho Hp). by destruct (p o').
Qed.

Lemma matches_exactly_true k filter o :
  matches_exactly k filter o = Some true -> filter <> "" ->
  get k o = Some (VStr filter).
Proof.
  unfold matches_exactly. intros H Hne%String.eqb_neq. rewrite Hne in H.
  destruct (get k o) as [[]|]; simplify_eq/=. by apply String.eqb_eq in H as ->.
Qed.

Section OfferFilters.

Variable toLowerCase : string -> string.
Hypothesis toLowerCase_empty : toLowerCase "" = "".

(** X20. The filters only narrow the view.  With the four inputs empty
    [applyFilters] shows every offer, as [clearFilters] does, and reads no
    property of any offer.  Otherwise what it shows is a sub-list of the
    offers, in their order, made of the offers that have the chosen status
    and job title.  When a client is typed and some offer has no
    [client_name] that is a string, the call ends in a TypeError and the
    view keeps what it showed. *)
Theorem filters_only_narrow statusFilter typeFilter clientInput locationInput m :
  applyFilters toLowerCase "" "" "" "" m = Some (offers m) /\
  (forall shown,
     applyFilters toLowerCase statusFilter typeFilter clientInput locationInput m
       = Some shown ->
     sublist shown (offers m) /\
     forall o, o ∈ shown ->
       (statusFilter <> "" -> get "status" o = Some (VStr statusFilter)) /\
       (typeFilter <> "" -> get "job_title" o = Some (VStr typeFilter))) /\
  (forall o,
     toLowerCase clientInput <> "" ->
     o ∈ offers m ->
     (forall s, get "client_name" o <> Some (VStr s)) ->
     applyFilters toLowerCase statusFilter typeFilter clientInput locationInput m = None).
Proof.
  unfold applyFilters. split_and!.
  - apply filter_offers_all. intros o _.
    unfold matches, matches_exactly, matches_text. by rewrite toLowerCase_empty.
  - intros shown Hs. apply filter_offers_sublist in Hs as [Hsub Hiff].
    split; [done|]. intros o [_ Hm]%Hiff. unfold matches in Hm.
    destruct (matches_exactly "status" statusFilter o) as [b1|] eqn:H1; simpl in Hm; [|done].
    destruct (matches_exactly "job_title" typeFilter o) as [b2|] eqn:H2; simpl in Hm; [|done].
    destruct (matches_text _ "client_name" _ o) as [b3|]; simpl in Hm; [|done].
    destruct (matches_text _ "location" _ o) as [b4|]; simpl in Hm; [|done].
    injection Hm as Hm. apply andb_prop in Hm as [Hm _]. apply andb_prop in Hm as [Hm _].
    apply andb_prop in Hm as [-> ->]. split; by apply matches_exactly_true.
  - intros o Hne%String.eqb_neq Ho Hname. eapply filter_offers_throws; [exact Ho|].
    unfold matches, matches_text. rewrite Hne.
    destruct (matches_exactly "status" _ o); simpl; [|done].
    destruct (matches_exactly "job_title" _ o); simpl; [|done].
    destruct (get "client_name" o) as [[]|]; simpl; try done. by destruct (Hname s).
Qed.

End OfferFilters.

Lemma filters_witness :
  applyFilters lower "" "" "" "" two_offers = Some (offers two_offers) /\
  (forall shown,
     applyFilters lower "accepted" "" "" "" two_offers = Some shown ->
     sublist shown (offers two_offers) /\
     forall o, o ∈ shown ->
       ("accepted" <> "" -> get "status" o = Some (VStr "accepted")) /\
       ("" <> "" -> get "job_title" o = Some (VStr ""))) /\
  (forall o,
     lower "" <> "" ->
     o ∈ offers two_offers ->
     (forall s, get "client_name" o <> Some (VStr s)) ->
     applyFilters lower "accepted" "" "" "" two_offers = None).
Proof.
  apply (filters_only_narrow lower eq_refl "accepted" "" "" "" two_offers).
Defined.

(** * Further properties of the surfaces *)

Import WebSocketManager.

(** ** The settings popup and the worker *)







Section SavedAddress.

Variable mirrors : bool.
Variable trim : string -> string.
Variable JSON_parse : string -> option value.
Variable WebSocket_accepts : string -> bool.


End SavedAddress.


(** ** The state of the chat panel *)

Import FreelainceOverlay.

(** X22. The storage mirrors the chat panel, and a new page takes the
    panel up where it was left.  After the constructor has read the
    storage and after any clicks on the toggle, close and minimize buttons,
    the entries [chatVisible] and [chatMinimized] say what [isVisible] and
    [isMinimized] are; and an overlay constructed on that storage ends with
    the same panel and the same storage.  This is the panel of one page on
    its own: the listener of [setupStateSync] is left out, that is, no
    other page writes the storage meanwhile, and the change events of the
    page's own writes arrive before the next click (they then find the
    panel as the storage says, and do nothing). *)
Theorem chat_panel_is_restored s clicks :
  let state := foldl (fun st b => on_click b st) (FreelainceOverlay.constructor s) clicks in
  is_set (chatVisible (snd state)) = isVisible (fst state) /\
  is_set (chatMinimized (snd state)) = isMinimized (fst state) /\
  fst (FreelainceOverlay.constructor (snd state)) = fst state /\
  (clicks <> [] -> FreelainceOverlay.constructor (snd state) = state).
Proof.
  induction clicks as [|b clicks IH] using rev_ind.
  - simpl. destruct s as [[[]|] [[]|]]; by vm_compute.
  - rewrite foldl_app. simpl.
    destruct (foldl _ _ clicks) as [[v m] st]. simpl in *.
    destruct b, v, m; vm_compute; split_and!; done.
Qed.

(** ** What the overlay shows of the worker *)

Section OverlayFeedback.

Variable trim : string -> string.
Variable JSON_parse : string -> option value.
Variable WebSocket_accepts : string -> bool.

(** X23. In the overlay version a message typed while the worker is not
    connected is lost without a word: the overlay shows it as sent and
    hands it to the worker, the worker sends nothing and answers with its
    ERROR notification, and the overlay's listener, which acts on
    NEW_MESSAGE and CONVERSATION_HISTORY only, does nothing with it. *)
Theorem overlay_shows_no_error input w domReady :
  trim input <> "" ->
  isConnected (mgr w) = false ->
  exists out,
    FreelainceOverlay.sendMessage trim input
      = (Some (trim input), "", [SEND_MESSAGE (VStr (trim input))]) /\
    step Overlay JSON_parse WebSocket_accepts w
      (RuntimeMessage (SEND_MESSAGE (VStr (trim input)))) = Some (w, out) /\
    ws_sends out = [] /\
    notifications "ERROR" out
      = [VObj [("message", VStr "Connection lost. Trying to reconnect...")]] /\
    reactions domReady out = [].
Proof.
  intros Hne%String.eqb_neq Hc.
  unfold FreelainceOverlay.sendMessage. rewrite Hne.
  unfold step, handle, onRuntimeMessage, WebSocketManager.sendMessage, bind, read.
  simpl. rewrite Hc. eexists. split; [done|].
  destruct (ws (mgr w)); simpl; by split_and!.
Qed.

End OverlayFeedback.

Lemma overlay_shows_no_error_witness :
  exists out,
    FreelainceOverlay.sendMessage (fun s => s) "hello"
      = (Some "hello", "", [SEND_MESSAGE (VStr "hello")]) /\
    step Overlay no_parse any_url (fresh 0) (RuntimeMessage (SEND_MESSAGE (VStr "hello")))
      = Some (fresh 0, out) /\
    ws_sends out = [] /\
    notifications "ERROR" out
      = [VObj [("message", VStr "Connection lost. Trying to reconnect...")]] /\
    reactions true out = [].
Proof.
  apply (overlay_shows_no_error (fun s => s) no_parse any_url "hello" (fresh 0) true).
  - discriminate.
  - reflexivity.
Defined.

(** ** Waiting for an element *)

Lemma checkElement_spec present left attempts :
  match checkElement present left attempts with
  | Some k =>
      (attempts <= k <= attempts + left)%nat /\ present k = true /\
      forall j, (attempts <= j < k)%nat -> present j = false
  | None => forall j, (attempts <= j <= attempts + left)%nat -> present j = false
  end.
Proof.
  revert attempts. induction left as [|left IH]; intros attempts; simpl.
  - destruct (present attempts) eqn:Hp.
    + split_and!; [lia|lia|done|]. intros j Hj. lia.
    + intros j Hj. by replace j with attempts by lia.
  - destruct (present attempts) eqn:Hp.
    + split_and!; [lia|lia|done|]. intros j Hj. lia.
    + specialize (IH (S attempts)).
      destruct (checkElement present left (S attempts)) as [k|].
      * destruct IH as ([? ?] & ? & Hbefore). split_and!; [lia|lia|done|].
        intros j Hj. destruct (decide (j = attempts)) as [->|]; [done|].
        apply Hbefore. lia.
      * intros j Hj. destruct (decide (j = attempts)) as [->|]; [done|].
        apply IH. lia.
Qed.

(** X24. [waitForDOMElement] looks for the element at most
    [maxAttempts + 1] times, 100 ms apart.  It resolves after [k] waits
    exactly when the element is there at the check number [k], was there
    at none of the earlier ones, and [k <= maxAttempts]; it rejects exactly
    when the element is there at none of the [maxAttempts + 1] checks. *)
Theorem waitForDOMElement_finds_the_first present maxAttempts :
  (forall k,
     waitForDOMElement present maxAttempts = Some k <->
     (k <= maxAttempts)%nat /\ present k = true /\
     forall j, (j < k)%nat -> present j = false) /\
  (waitForDOMElement present maxAttempts = None <->
   forall j, (j <= maxAttempts)%nat -> present j = false).
Proof.
  unfold waitForDOMElement.
  pose proof (checkElement_spec present maxAttempts 0) as H.
  destruct (checkElement present maxAttempts 0) as [k0|].
  - destruct H as ([_ Hle] & Hp & Hbefore). split.
    + intros k. split.
      * intros [= <-]. split_and!; [lia|done|]. intros j Hj. apply Hbefore. lia.
      * intros (Hk & Hpk & Hbk). f_equal.
        destruct (Nat.lt_trichotomy k0 k) as [Hlt|[->|Hgt]]; [|done|].
        -- rewrite (Hbk k0 Hlt) in Hp. done.
        -- rewrite Hbefore in Hpk by lia. done.
    + split; [done|]. intros Hnone. rewrite Hnone in Hp by lia. done.
  - split.
    + intros k. split; [done|]. intros (Hk & Hpk & _). rewrite H in Hpk by lia. done.
    + split; [|done]. intros _ j Hj. apply H. lia.
Qed.

(** ** The connection status that is announced *)

Lemma announced_app out1 out2 : announced (out1 ++ out2) = announced out1 ++ announced out2.
Proof. unfold announced, notifications. apply omap_app. Qed.

Lemma silent_nil (w : world) : silent w w [].
Proof. done. Qed.

Lemma silent_app (w1 w2 w3 : world) out1 out2 :
  silent w1 w2 out1 -> silent w2 w3 out2 -> silent w1 w3 (out1 ++ out2).
Proof. unfold silent. intros H1 H2. by rewrite announced_app, H1, H2. Qed.

Lemma quiet_nil (w : world) : quiet w w [].
Proof. done. Qed.

Lemma quiet_app (w1 w2 w3 : world) out1 out2 :
  quiet w1 w2 out1 -> quiet w2 w3 out2 -> quiet w1 w3 (out1 ++ out2).
Proof.
  unfold quiet. intros [H1 H2] [H3 H4]. rewrite announced_app, H1, H3. split; [done|congruence].
Qed.

Ltac silent_all known := tracks_all silent_nil silent_app known ltac:(reflexivity).
Ltac quiet_all known := tracks_all quiet_nil quiet_app known ltac:(by split).

Lemma quiet_attemptReconnect : tracks quiet attemptReconnect.
Proof. unfold attemptReconnect, set_reconnectAttempts, setTimeout. quiet_all fail. Qed.

Lemma quiet_sendMessage v message type :
  tracks quiet (WebSocketManager.sendMessage v message type).
Proof. unfold WebSocketManager.sendMessage, reject_send. quiet_all fail. Qed.

Lemma quiet_silent {A} (m : M A) : tracks quiet m -> tracks silent m.
Proof. intros H w r w' out E. by destruct (H w r w' out E). Qed.

Lemma silent_onmessage v P raw : tracks silent (WebSocketManager.onmessage v P raw).
Proof.
  unfold WebSocketManager.onmessage, WebSocketManager.handleServerMessage, handleTabOpen, prop.
  silent_all fail.
Qed.

Lemma silent_connect A : tracks silent (connect A).
Proof.
  unfold connect, close_existing, ws_close, new_WebSocket, set_ws.
  silent_all ltac:(apply quiet_silent, quiet_attemptReconnect).
Qed.

Lemma silent_run_callback A cb : tracks silent (run_callback A cb).
Proof. unfold run_callback. silent_all ltac:(apply silent_connect). Qed.

Lemma silent_onRuntimeMessage v req : tracks silent (onRuntimeMessage v req).
Proof.
  unfold onRuntimeMessage, teardown_and_reconnect, set_apiUrl, set_isConnected,
    ws_close, setTimeout.
  silent_all ltac:(apply quiet_silent, quiet_sendMessage).
Qed.

Lemma silent_handle (m : M unit) w w' out :
  tracks silent m -> handle m w = (w', out) -> announced out = [].
Proof.
  intros Hm. unfold handle. destruct (m w) as [[[[]|err] w1] out1] eqn:Em;
    intros [= _ <-]; [by eapply Hm|].
  rewrite announced_app, (Hm _ _ _ _ Em). done.
Qed.

Section Announced.

Variable v : version.
Variable JSON_parse : string -> option value.
Variable WebSocket_accepts : string -> bool.

(** X25. The connection status that is announced is the current one:
    whatever the browser delivers, every CONNECTION_STATUS notification
    made by the handler carries the value that [isConnected] has when the
    handler ends; only the opening and the closing of a socket announce a
    status, so a RECONNECT or UPDATE_API_URL request, which sets
    [isConnected] to false, announces nothing. *)
Theorem announced_status_is_current w e w' out :
  step v JSON_parse WebSocket_accepts w e = Some (w', out) ->
  Forall (eq (VObj [("connected", VBool (isConnected (mgr w')))])) (announced out) /\
  (match e with SocketOpen _ | SocketClose _ _ => False | _ => True end ->
   announced out = []).
Proof.
  assert (Hs : forall (m : M unit) w0,
    tracks silent m -> handle m w0 = (w', out) ->
    Forall (eq (VObj [("connected", VBool (isConnected (mgr w')))])) (announced out) /\
    announced out = []).
  { intros m w0 Hm E. rewrite (silent_handle _ _ _ _ Hm E). by split. }
  destruct e as [i|i raw|i failed|n|req|dt|i]; simpl.
  - case_bool_decide; [|done]. intros [= E]. split; [|done]. revert E.
    unfold handle, onopen, bind at 1, console at 1, emit at 1.
    unfold bind at 1, set_isConnected at 1, update at 1.
    unfold bind at 1, set_reconnectAttempts at 1, update at 1.
    unfold bind at 1, notify at 1, emit at 1.
    match goal with
    | |- context [match v with Overlay => ret tt | Popup => ?s end ?w0] =>
        destruct ((match v with Overlay => ret tt | Popup => s end) w0)
          as [[r w1] out1] eqn:E1;
        assert (Hq : quiet w0 w1 out1)
    end.
    { destruct v; [by injection E1 as _ <- <-|]. by eapply quiet_sendMessage. }
    destruct Hq as [Hq1 Hq2]. simpl in Hq2.
    destruct r; intros [= <- <-]; simpl;
      rewrite ?announced_app, Hq1, Hq2; simpl; by apply Forall_singleton.
  - case_match; [|done]. intros [= E]. split; [|intros _];
      by eapply Hs; [apply silent_onmessage|].
  - destruct (sockets w !! i) as [s|]; [|done]. case_match; [done|]. intros [= E].
    split; [|done]. revert E.
    assert (Hclose : forall w0 r w1 out1,
      onclose w0 = (r, w1, out1) ->
      isConnected (mgr w1) = false /\
      announced out1 = [VObj [("connected", VBool false)]]).
    { intros w0 r w1 out1. unfold onclose, bind at 1, console at 1, emit at 1.
      unfold bind at 1, set_isConnected at 1, update at 1.
      unfold bind at 1, notify at 1, emit at 1.
      destruct (attemptReconnect _) as [[r2 w2] out2] eqn:E2.
      destruct (quiet_attemptReconnect _ _ _ _ E2) as [Hq1 Hq2].
      intros [= _ <- <-]. split; [by rewrite Hq2|].
      simpl. unfold announced in *. simpl. by rewrite Hq1. }
    unfold handle, bind at 1.
    destruct (when failed onerror (set_state i CLOSED w)) as [[[[]|err] w0] out0] eqn:E0.
    2: { destruct failed; simpl in E0; [|done]. revert E0.
         unfold onerror, bind, console, emit, set_isConnected, update. done. }
    assert (H0 : announced out0 = []).
    { destruct failed; simpl in E0; [|by injection E0 as _ <-].
      revert E0. unfold onerror, bind, console, emit, set_isConnected, update.
      by intros [= _ <-]. }
    destruct (onclose w0) as [[r1 w1] out1] eqn:E1.
    destruct (Hclose _ _ _ _ E1) as [Hc Ha].
    destruct r1; intros [= <- <-]; rewrite ?announced_app, H0, Ha, Hc; simpl;
      by apply Forall_singleton.
  - destruct (timers w !! n) as [[cb d]|]; [|done]. intros [= E].
    split; [|intros _]; by eapply Hs; [apply silent_run_callback|].
  - intros [= E]. split; [|intros _]; by eapply Hs; [apply silent_onRuntimeMessage|].
  - case_match; [|done]. intros [= <- <-]. by split.
  - case_match; [|done]. intros [= <- <-]. by split.
Qed.

End Announced.

Lemma announced_status_witness :
  match step Popup no_parse any_url started (SocketOpen 0) with
  | Some (w', out) =>
      Forall (eq (VObj [("connected", VBool (isConnected (mgr w')))])) (announced out) /\
      (False -> announced out = [])
  | None => False
  end.
Proof.
  destruct (step Popup no_parse any_url started (SocketOpen 0)) as [[w' out]|] eqn:E.
  - apply (announced_status_is_current Popup no_parse any_url started (SocketOpen 0) w' out E).
  - vm_compute in E. discriminate E.
Defined.

(** ** What reaches the overlay, and what [disconnect()] leaves *)

Section OverlayHistory.

Variable JSON_parse : string -> option value.

(** X26. The history that reaches the overlay is never [null] or
    [undefined]: whatever the server sends, when the overlay version of the
    worker makes the overlay load or keep a conversation history, that
    history is a value on which [history.length] can be read (the worker
    has read it itself, inside its [try]). *)
Theorem overlay_history_is_never_null raw w domReady r :
  r ∈ reactions domReady (snd (handle (WebSocketManager.onmessage Overlay JSON_parse raw) w)) ->
  match r with
  | LoadHistory history | KeepHistory history =>
      history <> VUndefined /\ history <> VNull /\ get "length" history <> None
  | DisplayReceived _ => True
  | Nothing => False
  end.
Proof.
  unfold reactions, handle, WebSocketManager.onmessage, try_catch,
    WebSocketManager.handleServerMessage, handleTabOpen, prop, bind, console, notify,
    emit, ret, throw.
  destruct (JSON_parse raw) as [data|]; simpl; [|by intros ?%elem_of_nil].
  destruct (get "type" data) as [type|]; simpl; [|by intros ?%elem_of_nil].
  destruct (is_str "bot_response" type || is_str "chat_answer" type),
    (is_str "open_tab" type), (is_str "conversation_history" type),
    (is_str "system_message" type), (get "message" data), (get "url" data),
    (get "history" data) as [history|]; simpl;
    try destruct history; simpl; try destruct domReady; simpl;
    intros H; repeat (apply elem_of_cons in H as [->|H]; [done|]);
    by apply elem_of_nil in H.
Qed.

End OverlayHistory.

Lemma overlay_history_witness :
  let data := VObj [("type", VStr "conversation_history"); ("history", VArr [])] in
  LoadHistory (VArr [])
    ∈ reactions true
        (snd (handle (WebSocketManager.onmessage Overlay (parse_one "history" data) "history")
                     (chatting Overlay))) /\
  (VArr [] <> VUndefined /\ VArr [] <> VNull /\ get "length" (VArr []) <> None).
Proof.
  intros data.
  assert (LoadHistory (VArr [])
    ∈ reactions true
        (snd (handle (WebSocketManager.onmessage Overlay (parse_one "history" data) "history")
                     (chatting Overlay)))) as H.
  { vm_compute. apply list_elem_of_singleton. reflexivity. }
  split; [exact H|].
  exact (overlay_history_is_never_null (parse_one "history" data) "history"
           (chatting Overlay) true (LoadHistory (VArr [])) H).
Defined.

Lemma no_socket_no_url out : sockets_created out = [] -> urls_dialled out = [].
Proof.
  induction out as [|e out IH]; [done|]. by destruct e.
Qed.

Lemma one_socket_one_url out url n :
  sockets_created out = [n] -> In (NewWebSocket url n) out -> urls_dialled out = [url].
Proof.
  induction out as [|e out IH]; [done|].
  destruct e; simpl; try (intros Hc [?|Hin]; [done | by apply IH]).
  intros [= -> Hc] [[= ->]|Hin].
  - by rewrite (no_socket_no_url _ Hc).
  - exfalso. clear IH. induction out as [|e out IH]; [done|].
    destruct Hin as [->|Hin]; [done|]. destruct e; simpl in Hc; try done; by apply IH.
Qed.

Section Disconnect.

Variable v : version.
Variable JSON_parse : string -> option value.
Variable WebSocket_accepts : string -> bool.

(** X27. [disconnect()] is not final.  It closes the socket, forgets it
    and clears the flag; but the close event of that socket, when it
    comes, still runs [onclose], which (below the ceiling) schedules a
    retry, and when the retry fires [connect()] makes a new socket for the
    same address: the manager is connecting again. *)
Theorem disconnect_is_undone_by_the_close_event w i s failed :
  ws (mgr w) = Some i ->
  sockets w !! i = Some s ->
  live s = true ->
  (attempts w < maxReconnectAttempts)%Z ->
  WebSocket_accepts (WebSocketManager.apiUrl (mgr w)) = true ->
  exists w1 out1 w2 out2 w3 out3,
    disconnect w = (Return tt, w1, out1) /\
    ws (mgr w1) = None /\ isConnected (mgr w1) = false /\
    sockets w1 !! i = Some CLOSING /\
    step v JSON_parse WebSocket_accepts w1 (SocketClose i failed) = Some (w2, out2) /\
    retry_delays out2 = [(reconnectDelay * (attempts w + 1))%Z] /\
    step v JSON_parse WebSocket_accepts w2 (TimerFires (length (timers w))) = Some (w3, out3) /\
    urls_dialled out3 = [WebSocketManager.apiUrl (mgr w)] /\
    ws (mgr w3) = Some (length (sockets w)) /\
    sockets w3 !! length (sockets w) = Some CONNECTING.
Proof.
  intros Hws Hi Hlive Ha Hacc.
  assert (Hs : state_of w i = s) by (unfold state_of; by rewrite Hi).
  set (w1 := World (Manager None false (reconnectAttempts (mgr w))
                      (WebSocketManager.apiUrl (mgr w)))
               (<[i := CLOSING]> (sockets w)) (timers w) (now w)).
  assert (E1 : disconnect w = (Return tt, w1, [WsClose i])).
  { unfold disconnect, bind at 1, read at 1. rewrite Hws.
    unfold ws_close, bind, emit, read, when, update, set_ws, set_isConnected, with_mgr,
      set_state. rewrite Hs. unfold live in Hlive. rewrite Hlive. done. }
  set (w1c := World (mgr w1) (<[i := CLOSED]> (sockets w1)) (timers w) (now w)).
  assert (Hb : connected_or_connecting w1c = false) by done.
  destruct (attemptReconnect_cases w1c) as [(_ & _ & Er)|([Hx|Hx] & _)];
    [|congruence|unfold attempts in *; simpl in Hx; lia].
  set (w2 := World (Manager None false (reconnectAttempts (mgr w) + 1)
                      (WebSocketManager.apiUrl (mgr w)))
               (<[i := CLOSED]> (sockets w1))
               (timers w ++ [(RetryConnect, reconnectDelay * (attempts w + 1))%Z]) (now w)).
  assert (E2 : exists out2,
    handle (when failed onerror ;; onclose)%js (set_state i CLOSED w1) = (w2, out2) /\
    retry_delays out2 = [(reconnectDelay * (attempts w + 1))%Z]).
  { unfold handle, when, onerror, onclose, bind, console, notify, emit, set_isConnected,
      update, with_mgr, ret, set_state.
    destruct failed; simpl;
      match goal with |- context [attemptReconnect ?W] => change W with w1c end;
      rewrite Er; by eexists. }
  destruct E2 as (out2 & E2 & Hr).
  set (w2' := World (mgr w2) (sockets w2) (timers w) (now w2)).
  destruct (connect_when_idle WebSocket_accepts w2') as (w3 & out3 & E3 & H3); [done|].
  assert (Hlen : length (sockets w2') = length (sockets w)).
  { simpl. by rewrite !length_insert. }
  rewrite Hlen in H3.
  replace (WebSocket_accepts (WebSocketManager.apiUrl (mgr w2'))) with true in H3
    by (symmetry; exact Hacc).
  destruct H3 as (_ & Hc & Hws3 & Hs3 & Hin).
  exists w1, [WsClose i], w2, out2, w3, out3. split_and!; try done.
  - simpl. apply list_lookup_insert_eq. by eapply lookup_lt_Some.
  - unfold step. replace (sockets w1 !! i) with (Some CLOSING)
      by (symmetry; simpl; apply list_lookup_insert_eq; by eapply lookup_lt_Some).
    simpl. by rewrite E2.
  - unfold step. replace (timers w2 !! length (timers w))
      with (Some (RetryConnect, reconnectDelay * (attempts w + 1))%Z)
      by (symmetry; apply list_lookup_middle; done).
    replace (delete (length (timers w)) (timers w2)) with (timers w)
      by (unfold w2; simpl; by rewrite (delete_middle (timers w) []), app_nil_r).
    fold w2'. rewrite retry_runs_connect by done. unfold handle. by rewrite E3.
  - by eapply one_socket_one_url.
Qed.

End Disconnect.

Lemma disconnect_witness :
  exists w1 out1 w2 out2 w3 out3,
    disconnect (chatting Popup) = (Return tt, w1, out1) /\
    ws (mgr w1) = None /\ isConnected (mgr w1) = false /\
    sockets w1 !! 0%nat = Some CLOSING /\
    step Popup no_parse any_url w1 (SocketClose 0 false) = Some (w2, out2) /\
    retry_delays out2 = [(reconnectDelay * (attempts (chatting Popup) + 1))%Z] /\
    step Popup no_parse any_url w2 (TimerFires (length (timers (chatting Popup))))
      = Some (w3, out3) /\
    urls_dialled out3 = [WebSocketManager.apiUrl (mgr (chatting Popup))] /\
    ws (mgr w3) = Some (length (sockets (chatting Popup))) /\
    sockets w3 !! length (sockets (chatting Popup)) = Some CONNECTING.
Proof.
  apply (disconnect_is_undone_by_the_close_event Popup no_parse any_url
           (chatting Popup) 0 OPEN false); vm_compute; congruence.
Defined.
